(** * HouseCheckingApp: the inspection pipeline, its counters and its files

    A shallow embedding of [src/image_processing/detection.py],
    [src/utils/file_utils.py], [src/config.py] and the [Inspector] class of
    [src/main.py], with the properties the specification states about them.

    Conventions of the model.
    - A Python [int] is a [Z] (or a [nat] where it is a length or a count), a
      Python [float] is a real number [R]: the arithmetic of the seam lengths
      and of [round] is the exact one, rounding errors of IEEE doubles are not
      modelled.  Where a float comes from outside (a measurement handed to
      [_save_to_csv], a threshold read from the environment) it is a
      [pyfloat]: a number, an infinity or NaN.
    - OpenCV is outside the repository.  A [Frame] carries what its routines
      return on an image: the mean grey level, the circles of the Hough
      transform and the areas of the external contours of the cleaned binary
      image.  The detection functions of the repository are written over
      these, as in the source.
    - The disk is the set of paths that exist and the rows of the order's CSV
      file.  pandas is outside the repository: what [pandas.read_csv]
      followed by [DataFrame.to_csv] makes of the text of a cell is a
      parameter of the model (the class [Pandas]), and the properties hold
      for every pandas; the examples run with [example_pandas].
    - Calls of the logger are left out: no claim reads the log.  So are the
      pixels of the annotated image: [cv2.imwrite] makes its path exist when
      the directory of the path exists. *)

From Stdlib Require Import Reals Lra ZArith Lia List Ascii String Sorted.
From stdpp Require Import base list strings pretty gmap sorting.

(** ** Python built-ins used by the source *)

Module Py.

(** [sorted(l, key=key)]: the sort of Python is stable, an element goes in
    front of the first one whose key is not smaller. *)
Fixpoint insert_by {A : Type} (key : A → Z) (x : A) (l : list A) : list A :=
  match l with
  | [] => [x]
  | y :: l' =>
      if (key x <=? key y)%Z then x :: y :: l' else y :: insert_by key x l'
  end.

Fixpoint sorted {A : Type} (key : A → Z) (l : list A) : list A :=
  match l with
  | [] => []
  | x :: l' => insert_by key x (sorted key l')
  end.

(** A Python float: a number (a real: rounding errors are not modelled),
    an infinity, or NaN. *)
Inductive pyfloat : Type :=
| Finite (x : R)
| Inf (negative : bool)
| NaN.

(** The exceptions that [float()] raises. *)
Inductive raised : Type :=
| ValueError
| TypeError
| OverflowError.

(** A value of a Python list, as [float()] sees it.  What [float()] reads
    in a str is Python's business: a str comes with it. *)
Inductive pyval : Type :=
| PyFloat (x : R)          (* a float that is a number *)
| PyInf (negative : bool)  (* the floats inf and -inf *)
| PyNaN                    (* the float nan *)
| PyInt (n : Z)            (* an int *)
| PyNone                   (* None: float(None) raises TypeError *)
| PyStr (s : string) (read : option pyfloat).
                           (* a str and the float that float(s) reads in it,
                              None when float(s) raises ValueError *)

(** The least int that is too large for a float: [float(n)] rounds to the
    nearest double, and from here on that is beyond the largest one. *)
Definition float_overflow : Z := (2 ^ 1024 - 2 ^ 970)%Z.

(** [float(v)], or the exception it raises. *)
Definition float (v : pyval) : raised + pyfloat :=
  match v with
  | PyFloat x => inr (Finite x)
  | PyInf negative => inr (Inf negative)
  | PyNaN => inr NaN
  | PyInt n =>
      if (float_overflow <=? Z.abs n)%Z then inl OverflowError else inr (Finite (IZR n))
  | PyNone => inl TypeError
  | PyStr _ (Some x) => inr x
  | PyStr _ None => inl ValueError
  end.

(** [a < b] on floats. *)
Definition Rltb (a b : R) : bool := if Rlt_dec a b then true else false.

(** Rounding to the nearest integer, ties to the even one. *)
Definition round_half_even (x : R) : Z :=
  let f := Int_part x in
  let d := (x - IZR f)%R in
  if Rlt_dec d (1 / 2) then f
  else if Rlt_dec (1 / 2) d then (f + 1)%Z
  else if Z.even f then f else (f + 1)%Z.

(** [round(x, 2)] on a number. *)
Definition round2 (x : R) : R := (IZR (round_half_even (x * 100)) / 100)%R.

(** [round(x, 2)] on a float: an infinity and NaN are handed back. *)
Definition round (x : pyfloat) : pyfloat :=
  match x with
  | Finite r => Finite (round2 r)
  | Inf negative => Inf negative
  | NaN => NaN
  end.

(** [a <= b] and [a < b] on floats: false as soon as one of the two is
    NaN. *)
Definition float_leb (a b : pyfloat) : bool :=
  match a, b with
  | Finite x, Finite y => if Rle_dec x y then true else false
  | Finite _, Inf negative => negb negative
  | Inf negative, Finite _ => negative
  | Inf negative, Inf negative' => negative || negb negative'
  | NaN, _ => false
  | _, NaN => false
  end.

Definition float_ltb (a b : pyfloat) : bool :=
  match a, b with
  | Finite x, Finite y => if Rlt_dec x y then true else false
  | Finite _, Inf negative => negb negative
  | Inf negative, Finite _ => negative
  | Inf negative, Inf negative' => negative && negb negative'
  | NaN, _ => false
  | _, NaN => false
  end.

(** [numpy.hypot] on two Python ints, which it first converts to floats. *)
Definition hypot (a b : Z) : R := sqrt (IZR a * IZR a + IZR b * IZR b).

End Py.

(** ** [os.path] on a POSIX system *)

Module PosixPath.

Definition sep : ascii := "/"%char.
Definition extsep : ascii := "."%char.

Fixpoint endswith_sep (s : string) : bool :=
  match s with
  | EmptyString => false
  | String c EmptyString => Ascii.eqb c sep
  | String _ s' => endswith_sep s'
  end.

Definition startswith_sep (s : string) : bool :=
  match s with
  | String c _ => Ascii.eqb c sep
  | EmptyString => false
  end.

(** [os.path.join(a, b)]. *)
Definition join (a b : string) : string :=
  if startswith_sep b then b
  else if bool_decide (a = EmptyString) || endswith_sep a then a +:+ b
  else a +:+ String sep b.

(** [s.rfind(c)] on the characters of [s]: the last index of [c], [-1] when
    there is none. *)
Fixpoint rfind (c : ascii) (l : list ascii) : Z :=
  match l with
  | [] => (-1)%Z
  | a :: l' =>
      let r := rfind c l' in
      if (0 <=? r)%Z then (r + 1)%Z
      else if Ascii.eqb a c then 0%Z else (-1)%Z
  end.

(** [os.path.splitext(p)[0]]: the extension starts at the last dot, when that
    dot comes after the last separator and after a character of the file name
    that is no dot. *)
Definition splitext_root (p : string) : string :=
  let l := list_ascii_of_string p in
  let sepIndex := rfind sep l in
  let dotIndex := rfind extsep l in
  if (sepIndex <? dotIndex)%Z then
    let filename := take (Z.to_nat (dotIndex - (sepIndex + 1))) (drop (Z.to_nat (sepIndex + 1)) l) in
    if existsb (λ c, negb (Ascii.eqb c extsep)) filename
    then string_of_list_ascii (take (Z.to_nat dotIndex) l)
    else p
  else p.

End PosixPath.

(** ** [src/config.py] *)

Module Config.

Definition PART_DETECTION_THRESHOLD : R := 240%R.
Definition EXPECTED_HOLE_COUNT : nat := 4.
Definition MAX_SPATTER_COUNT : nat := 5.

End Config.

(** ** [src/image_processing/detection.py] *)

Module Detection.
Import Py.

(** A hole is the tuple [((x, y), width, height)]. *)
Record Hole : Type := mk_hole {
  center : Z * Z;
  width : R;
  height : R
}.

Definition hole_x (h : Hole) : Z := fst (center h).
Definition hole_y (h : Hole) : Z := snd (center h).

(** What OpenCV computes on an image.  [hough_circles] is the result of
    [cv2.HoughCircles] after [np.uint16(np.around(...))]: [None], or the
    triples [(x, y, r)]; the radii lie between [minRadius = 10] and
    [maxRadius = 40], so [r * 2] does not leave the 16 bits. *)
Record Frame : Type := mk_frame {
  gray_mean : R;
  hough_circles : option (list (Z * Z * Z));
  contour_areas : list R
}.

Definition detect_part_presence (gray : Frame) (mean_threshold : R) : bool :=
  let mean_val := gray_mean gray in
  Rltb mean_val mean_threshold.

Definition detect_holes (gray : Frame) : list Hole :=
  match hough_circles gray with
  | Some circles =>
      map (λ circle,
             let '(x, y, r) := circle in
             let diameter := IZR (r * 2) in
             mk_hole (x, y) diameter diameter) circles
  | None => []
  end.

Definition detect_spatter (gray : Frame) : nat :=
  length (filter (λ area, Rltb 3 area && Rltb area 100 = true) (contour_areas gray)).

Definition distance (p1 p2 : Z * Z) : R :=
  hypot (fst p2 - fst p1) (snd p2 - snd p1).

Definition calculate_seam_lengths (holes : list Hole) : R * R * R * R :=
  if (length holes <? 4)%nat then (0, 0, 0, 0)%R
  else
    let holes_by_y := sorted hole_y holes in
    let top_row := sorted hole_x (take 2 holes_by_y) in
    let bottom_row := sorted hole_x (take 2 (drop 2 holes_by_y)) in
    match top_row, bottom_row with
    | [top_left; top_right], [bot_left; bot_right] =>
        let rad_top_left := (width top_left / 2)%R in
        let rad_top_right := (width top_right / 2)%R in
        let rad_bot_left := (width bot_left / 2)%R in
        let rad_bot_right := (width bot_right / 2)%R in
        let len_top := (distance (center top_left) (center top_right) - (rad_top_left + rad_top_right))%R in
        let len_bottom := (distance (center bot_left) (center bot_right) - (rad_bot_left + rad_bot_right))%R in
        let len_left := (distance (center top_left) (center bot_left) - (rad_top_left + rad_bot_left))%R in
        let len_right := (distance (center top_right) (center bot_right) - (rad_top_right + rad_bot_right))%R in
        (len_top, len_bottom, len_left, len_right)
    | _, _ => (0, 0, 0, 0)%R (* not reached: both rows have two holes *)
    end.

End Detection.

(** ** [src/utils/file_utils.py] *)

Module FileUtils.
Import PosixPath.

(** The f-string of the base name; [str] of an int is its decimal writing. *)
Definition base_name (status order_number part_number : string) (counter cam_id : Z) : string :=
  status +:+ "_" +:+ order_number +:+ "_" +:+ part_number
    +:+ "Count" +:+ pretty counter +:+ "_CAM" +:+ pretty cam_id +:+ ".jpg".

Definition suffixed_name (name_without_ext : string) (suffix : Z) : string :=
  name_without_ext +:+ "_" +:+ pretty suffix +:+ ".jpg".

(** The [while True] loop of [get_next_filename], run for at most [fuel]
    turns; [fs] is the set of the paths that exist. *)
Fixpoint next_suffix (fuel : nat) (fs : gset string)
    (directory name_without_ext : string) (suffix : Z) : option string :=
  match fuel with
  | O => None
  | S fuel' =>
      let new_name := suffixed_name name_without_ext suffix in
      let new_path := join directory new_name in
      if bool_decide (new_path ∉ fs) then Some new_path
      else next_suffix fuel' fs directory name_without_ext (suffix + 1)
  end.

Definition get_next_filename_fuel (fuel : nat) (fs : gset string)
    (directory status order_number part_number : string) (counter cam_id : Z) : option string :=
  let base_name := base_name status order_number part_number counter cam_id in
  let full_path := join directory base_name in
  if bool_decide (full_path ∉ fs) then Some full_path
  else
    let name_without_ext := splitext_root base_name in
    next_suffix fuel fs directory name_without_ext 1.

(** One turn more than there are paths is enough ([next_suffix_total]
    below), so the loop ends and the default is never taken. *)
Definition get_next_filename (fs : gset string)
    (directory status order_number part_number : string) (counter cam_id : Z) : string :=
  default EmptyString
    (get_next_filename_fuel (S (size fs)) fs directory status order_number part_number counter cam_id).

End FileUtils.

(** ** [src/camera/camera_controller.py] *)

Module Camera.
Import Detection.

(** What [self.cap.read()] does: a frame, [ret] false, or an exception. *)
Inductive read_result : Type :=
| ReadFrame (frame : Frame)
| ReadNoFrame
| ReadRaises.

(** [CameraController.capture_image]: [connect_ok] is what [connect()]
    answers when the camera is not connected yet, [test_part] the image of
    [generate_test_part()]. *)
Definition capture_image (is_connected connect_ok : bool) (read : read_result)
    (test_part : Frame) : option Frame :=
  if negb is_connected && negb connect_ok then Some test_part
  else
    match read with
    | ReadFrame frame => Some frame
    | ReadNoFrame | ReadRaises => Some test_part
    end.

End Camera.

(** ** [src/main.py]: the class [Inspector] *)

Module Main.
Import Py PosixPath Detection FileUtils.

(** [datetime.datetime.now()], as the two strings [strftime] makes of it. *)
Record Timestamp : Type := mk_timestamp {
  date_str : string;
  time_str : string
}.

(** The dictionary [result]. The key [image_path] is set at the end only. *)
Record InspectionResult : Type := mk_result {
  part_number : string;
  cam_id : Z;
  status : string;
  measurements : list pyval;
  defects : list string;
  timestamp : Timestamp;
  image_path : option string
}.

Definition set_status (s : string) (r : InspectionResult) : InspectionResult :=
  mk_result (part_number r) (cam_id r) s (measurements r) (defects r) (timestamp r) (image_path r).

Definition add_defect (msg : string) (r : InspectionResult) : InspectionResult :=
  mk_result (part_number r) (cam_id r) (status r) (measurements r) (defects r ++ [msg])
    (timestamp r) (image_path r).

Definition set_measurement (i : nat) (v : R) (r : InspectionResult) : InspectionResult :=
  mk_result (part_number r) (cam_id r) (status r) (<[i := PyFloat v]> (measurements r))
    (defects r) (timestamp r) (image_path r).

Definition set_image_path (p : string) (r : InspectionResult) : InspectionResult :=
  mk_result (part_number r) (cam_id r) (status r) (measurements r) (defects r)
    (timestamp r) (Some p).

(** A row of the CSV file, in the order of its header. *)
Record CsvRow : Type := mk_row {
  col_Number : Z;
  col_OK_NOK : string;
  col_Ordernumber : string;
  col_Counter : Z;
  col_Date : string;
  col_Time : string;
  col_Values : list pyfloat;
  col_User : string
}.

(** The attributes of an [Inspector]. *)
Record Inspector : Type := mk_inspector {
  user : string;
  order_number : string;
  ok_counter : Z;
  nok_counter : Z;
  order_dir : string
}.

(** The disk: the paths that exist, as [os.path.exists] answers, and the
    rows of [self.csv_path] under its header ([__init__] has created the
    header).  A directory that exists is there with the separator at its
    end, for itself and for what lies in it. *)
Record Disk : Type := mk_disk {
  paths : gset string;
  csv_rows : list CsvRow
}.

Definition Inspector__init__ (user order_number output_dir : string) : Inspector :=
  mk_inspector user order_number 0 0 (join output_dir order_number).

(** The directory part of a path: all of it up to and including the last
    separator, the empty string when it has none. *)
Definition directory_part (path : string) : string :=
  let l := list_ascii_of_string path in
  string_of_list_ascii (take (Z.to_nat (rfind sep l + 1)) l).

(** [cv2.imwrite(path, image)] makes the file when the directory of the path
    exists; when it does not, it writes nothing and answers [False], which
    [process_and_save] does not read.  A directory that exists is in [paths]
    under its name followed by the separator (the system resolves such a
    path for a directory only); a path without separator lies in the current
    directory. *)
Definition imwrite (path : string) (d : Disk) : Disk :=
  if bool_decide (directory_part path = EmptyString ∨ directory_part path ∈ paths d)
  then mk_disk ({[path]} ∪ paths d) (csv_rows d)
  else d.

(** The body of the loop over [enumerate(holes[:4])]. *)
Definition record_hole (idx : nat) (hole : Hole) (r : InspectionResult) : InspectionResult :=
  if (idx <? 2)%nat then
    set_measurement (idx * 2 + 1) (height hole) (set_measurement (idx * 2) (width hole) r)
  else
    set_measurement (6 + (idx - 2) * 2 + 1) (height hole)
      (set_measurement (6 + (idx - 2) * 2) (width hole) r).

Fixpoint record_holes (idx : nat) (holes : list Hole) (r : InspectionResult) : InspectionResult :=
  match holes with
  | [] => r
  | hole :: holes' => record_holes (S idx) holes' (record_hole idx hole r)
  end.

Definition missing_holes_msg (found : nat) : string :=
  "Missing holes: expected " +:+ pretty Config.EXPECTED_HOLE_COUNT
    +:+ ", found " +:+ pretty found.

Definition excessive_spatter_msg (spatter_count : nat) : string :=
  "Excessive spatter: " +:+ pretty spatter_count +:+ " detected".

(** Lines 88 to 150 of [process_and_save]: the analysis of the image, which
    reads nothing of the inspector. *)
Definition analyse (img : Frame) (part_number : string) (cam_id : Z) (now : Timestamp)
    : InspectionResult :=
  let gray := img in
  let result := mk_result part_number cam_id "OK" (replicate 12 (PyFloat 0)) [] now None in
  let part_present := detect_part_presence gray Config.PART_DETECTION_THRESHOLD in
  if negb part_present then
    add_defect "Part Missing" (set_status "NOK" result)
  else
    let holes := sorted hole_x (detect_holes gray) in
    let result := record_holes 0 (take 4 holes) result in
    let result :=
      if (length holes <? Config.EXPECTED_HOLE_COUNT)%nat
      then add_defect (missing_holes_msg (length holes)) (set_status "NOK" result)
      else result in
    let result :=
      if (4 <=? length holes)%nat then
        let '(len_top, len_bottom, len_left, len_right) := calculate_seam_lengths holes in
        set_measurement 11 len_right
          (set_measurement 10 len_left
             (set_measurement 5 len_bottom
                (set_measurement 4 len_top result)))
      else
        add_defect "Insufficient holes for weld measurement" (set_status "NOK" result) in
    let spatter_count := detect_spatter gray in
    if (Config.MAX_SPATTER_COUNT <? spatter_count)%nat
    then add_defect (excessive_spatter_msg spatter_count) (set_status "NOK" result)
    else result.

(** pandas is outside the repository.  [pandas.read_csv] guesses the type
    of every column from the text of its cells and [DataFrame.to_csv] writes
    the values it made of them: a cell can come back as another text (in a
    column of integers 007 comes back as 7, a cell NA comes back empty).
    [pandas_rewrites column cell] is the text that comes back for [cell] in
    [column]; the properties hold whatever it is. *)
Class Pandas := pandas_rewrites : list string → string → string.

Section WithPandas.
Context {installed : Pandas}.

(** A text cell after [read_csv] and [to_csv].  In a column that holds the
    words OK and NOK only, pandas finds no number and no missing value: the
    cells come back as they are. *)
Definition reread (column : list string) (cell : string) : string :=
  if forallb (λ c, String.eqb c "OK" || String.eqb c "NOK") column then cell
  else pandas_rewrites column cell.

(** [pd.read_csv(self.csv_path)], every cell as [to_csv] writes it back:
    the integers of [Number] and [Counter] and the floats of the value
    columns as they are, the text of the other columns as pandas rereads
    it. *)
Definition read_csv (rows : list CsvRow) : list CsvRow :=
  map (λ row,
         mk_row (col_Number row)
           (reread (map col_OK_NOK rows) (col_OK_NOK row))
           (reread (map col_Ordernumber rows) (col_Ordernumber row))
           (col_Counter row)
           (reread (map col_Date rows) (col_Date row))
           (reread (map col_Time rows) (col_Time row))
           (col_Values row)
           (reread (map col_User rows) (col_User row)))
      rows.

(** The body of the loop over the measurements: the value written into a
    column [Value{i}].  [ValueError] and [TypeError] are caught,
    [OverflowError] is not. *)
Definition csv_value (val : pyval) : raised + pyfloat :=
  match float val with
  | inr x => inr (round x)
  | inl ValueError | inl TypeError => inr (Finite 0)
  | inl OverflowError => inl OverflowError
  end.

Fixpoint csv_values (measurements : list pyval) : raised + list pyfloat :=
  match measurements with
  | [] => inr []
  | val :: measurements' =>
      match csv_value val with
      | inl e => inl e
      | inr x =>
          match csv_values measurements' with
          | inl e => inl e
          | inr values => inr (x :: values)
          end
      end
  end.

(** [_save_to_csv]: the disk after the call, or the exception that ends it
    before the file is written. *)
Definition _save_to_csv (self : Inspector) (d : Disk) (result : InspectionResult)
    (counter_val : Z) : raised + Disk :=
  let df_existing := read_csv (csv_rows d) in
  let next_number := (Z.of_nat (length df_existing) + 1)%Z in
  let now := timestamp result in
  match csv_values (measurements result) with
  | inl e => inl e
  | inr values =>
      let row :=
        mk_row next_number (status result) (order_number self) counter_val
          (date_str now) (time_str now) values (user self) in
      let df_new := df_existing ++ [row] in
      inr (mk_disk (paths d) df_new)
  end.

(** [process_and_save].  The measurements of [analyse] are floats, on which
    [float()] raises nothing: [_save_to_csv] returns
    ([process_and_save_saves] below), and its other branch is never
    taken. *)
Definition process_and_save (self : Inspector) (d : Disk) (img : Frame)
    (part_number : string) (cam_id : Z) (now : Timestamp)
    : InspectionResult * Inspector * Disk :=
  let result := analyse img part_number cam_id now in
  let '(self, counter_val) :=
    if String.eqb (status result) "OK" then
      (mk_inspector (user self) (order_number self) (ok_counter self + 1) (nok_counter self)
         (order_dir self), (ok_counter self + 1)%Z)
    else
      (mk_inspector (user self) (order_number self) (ok_counter self) (nok_counter self + 1)
         (order_dir self), (nok_counter self + 1)%Z) in
  let output_path :=
    get_next_filename (paths d) (order_dir self) (status result) (order_number self)
      part_number counter_val cam_id in
  let d := imwrite output_path d in
  let result := set_image_path output_path result in
  let d :=
    match _save_to_csv self d result counter_val with
    | inr d' => d'
    | inl _ => d
    end in
  (result, self, d).

(** What [capture_and_process] returns: the result of [process_and_save], or
    the dictionary with the keys [status] and [message]. *)
Inductive Outcome : Type :=
| Processed (result : InspectionResult)
| ErrorDict (err_status err_message : string).

(** [captured] is what [self.camera.capture_image()] returned. *)
Definition capture_and_process (self : Inspector) (d : Disk) (captured : option Frame)
    (part_number : string) (cam_id : Z) (now : Timestamp) : Outcome * Inspector * Disk :=
  match captured with
  | Some img =>
      let '(result, self, d) := process_and_save self d img part_number cam_id now in
      (Processed result, self, d)
  | None => (ErrorDict "ERROR" "Image capture failed", self, d)
  end.

(** A session: one call of [process_and_save] per image, in order. *)
Record Job : Type := mk_job {
  job_img : Frame;
  job_part : string;
  job_cam : Z;
  job_now : Timestamp
}.

Fixpoint run_session (self : Inspector) (d : Disk) (jobs : list Job)
    : list InspectionResult * Inspector * Disk :=
  match jobs with
  | [] => ([], self, d)
  | j :: jobs' =>
      let '(result, self, d) :=
        process_and_save self d (job_img j) (job_part j) (job_cam j) (job_now j) in
      let '(results, self, d) := run_session self d jobs' in
      (result :: results, self, d)
  end.

End WithPandas.

End Main.

(** ** Vocabulary of the properties *)

Module Vocabulary.
Import Py Detection Main.

(** Order of two elements by their sort key. *)
Definition key_le {A : Type} (key : A → Z) (a b : A) : Prop := (key a ≤ key b)%Z.

(** The Euclidean distance of two points of the pixel grid. *)
Definition euclid (p q : Z * Z) : R :=
  sqrt ((IZR (fst q) - IZR (fst p)) ^ 2 + (IZR (snd q) - IZR (snd p)) ^ 2).

(** The gap between the edges of two holes: the distance of the centers less
    the two radii, a radius being half a width. *)
Definition edge_gap (a b : Hole) : R :=
  (euclid (center a) (center b) - (width a / 2 + width b / 2))%R.

(** A hole moved by the vector [(dx, dy)]. *)
Definition translate (dx dy : Z) (h : Hole) : Hole :=
  mk_hole ((hole_x h + dx)%Z, (hole_y h + dy)%Z) (width h) (height h).

(** The width and the height of the hole of index [i], [0.0] when the list is
    shorter. *)
Definition width_at (holes : list Hole) (i : nat) : R :=
  match holes !! i with Some h => width h | None => 0%R end.
Definition height_at (holes : list Hole) (i : nat) : R :=
  match holes !! i with Some h => height h | None => 0%R end.

(** A number with at most two decimals that is nearest to [x]. *)
Definition rounded_to_2_places (x y : R) : Prop :=
  (∃ n : Z, y = (IZR n / 100)%R) ∧ (Rabs (y - x) <= 1 / 200)%R.

(** The rows are numbered 1, 2, 3, ... *)
Definition numbered (rows : list CsvRow) : Prop :=
  ∀ i row, rows !! i = Some row → col_Number row = (Z.of_nat i + 1)%Z.

(** How many results are classified NOK. *)
Definition count_nok (results : list InspectionResult) : nat :=
  length (filter (λ r, status r = "NOK") results).

(** Four holes at the corners of a square of side 100, of radii 15 (left)
    and 20 (right). *)
Definition square_holes : list Hole :=
  [ mk_hole (0, 0)%Z 30 30; mk_hole (100, 0)%Z 40 40;
    mk_hole (0, 100)%Z 30 30; mk_hole (100, 100)%Z 40 40 ].

(** Four holes of radius 15 at the corners of a square of side 10: they
    overlap. *)
Definition overlapping_holes : list Hole :=
  [ mk_hole (0, 0)%Z 30 30; mk_hole (10, 0)%Z 30 30;
    mk_hole (0, 10)%Z 30 30; mk_hole (10, 10)%Z 30 30 ].

(** The names the specification gives to the image files: the base name
    without its extension, the path of the base name and the path of the name
    with the suffix [_k]. *)
Definition stem (status order_number part_number : string) (counter cam_id : Z) : string :=
  status +:+ "_" +:+ order_number +:+ "_" +:+ part_number
    +:+ "Count" +:+ pretty counter +:+ "_CAM" +:+ pretty cam_id.

Definition base_path (directory status order_number part_number : string)
    (counter cam_id : Z) : string :=
  PosixPath.join directory (stem status order_number part_number counter cam_id +:+ ".jpg").

Definition suffix_path (directory status order_number part_number : string)
    (counter cam_id : Z) (k : Z) : string :=
  PosixPath.join directory
    (stem status order_number part_number counter cam_id +:+ "_" +:+ pretty k +:+ ".jpg").

(** The characters of the extension of the image files. *)
Definition jpg : list ascii := list_ascii_of_string ".jpg".

(** The four components of the tuple of seam lengths. *)
Definition seam_top (s : R * R * R * R) : R := s.1.1.1.
Definition seam_bottom (s : R * R * R * R) : R := s.1.1.2.
Definition seam_left (s : R * R * R * R) : R := s.1.2.
Definition seam_right (s : R * R * R * R) : R := s.2.

(** The part is present: the mean grey level is under the threshold. *)
Definition part_present (img : Frame) : Prop :=
  (gray_mean img < Config.PART_DETECTION_THRESHOLD)%R.

(** The holes of a frame in the order [process_and_save] gives them. *)
Definition holes_of (img : Frame) : list Hole := sorted hole_x (detect_holes img).

(** The twelve slots [Value1 .. Value12] as the specification lays them out. *)
Definition slots_of (holes : list Hole) : list pyval :=
  let seams := calculate_seam_lengths holes in
  [ PyFloat (width_at holes 0); PyFloat (height_at holes 0);
    PyFloat (width_at holes 1); PyFloat (height_at holes 1);
    PyFloat (seam_top seams); PyFloat (seam_bottom seams);
    PyFloat (width_at holes 2); PyFloat (height_at holes 2);
    PyFloat (width_at holes 3); PyFloat (height_at holes 3);
    PyFloat (seam_left seams); PyFloat (seam_right seams) ].

(** A frame with a part, five holes and no spatter. *)
Definition five_holes_frame : Frame :=
  mk_frame 100
    (Some [ (100, 100, 20)%Z; (200, 100, 20)%Z; (300, 100, 20)%Z;
            (100, 300, 20)%Z; (300, 300, 20)%Z ])
    [].

(** A frame with a part, three holes and no spatter. *)
Definition three_holes_frame : Frame :=
  mk_frame 100 (Some [ (100, 100, 20)%Z; (300, 100, 20)%Z; (100, 300, 20)%Z ]) [].

(** A frame without a part: every pixel is white. *)
Definition empty_fixture_frame : Frame := mk_frame 255 None [].

(** A first inspector and a disk without a path: the file of the order has
    its header and no row, and nothing can be written. *)
Definition bob : Inspector := Inspector__init__ "Bob" "749274" ".".
Definition empty_disk : Disk := mk_disk ∅ [].
Definition noon : Timestamp := mk_timestamp "2026-01-01" "12:00:00".

(** From one row to the next the column [Number] grows by one. *)
Definition increasing_by_1 (rows : list CsvRow) : Prop :=
  ∀ i a b, rows !! i = Some a → rows !! S i = Some b → col_Number b = (col_Number a + 1)%Z.

(** The classification of a job, which depends on its image only. *)
Definition job_status (j : Job) : string :=
  status (analyse (job_img j) (job_part j) (job_cam j) (job_now j)).

(** Three frames in a row: five holes, three holes, no part. *)
Definition example_jobs : list Job :=
  [ mk_job five_holes_frame "1568" 1 noon;
    mk_job three_holes_frame "1571" 1 noon;
    mk_job empty_fixture_frame "1570" 1 noon ].

(** The texts that [read_csv] takes for a missing value. *)
Definition na_values : list string :=
  [ ""; "#N/A"; "#N/A N/A"; "#NA"; "-1.#IND"; "-1.#QNAN"; "-NaN"; "-nan";
    "1.#IND"; "1.#QNAN"; "<NA>"; "N/A"; "NA"; "NULL"; "NaN"; "None"; "n/a";
    "nan"; "null" ].

(** A text of one to eighteen decimal digits, and the integer it writes. *)
Definition is_digits (s : string) : bool :=
  let l := list_ascii_of_string s in
  negb (length l =? 0)%nat && (length l <=? 18)%nat
  && forallb (λ c, (48 <=? nat_of_ascii c)%nat && (nat_of_ascii c <=? 57)%nat) l.

Definition digits_value (s : string) : Z :=
  fold_left (λ n c, (10 * n + (Z.of_nat (nat_of_ascii c) - 48))%Z)
    (list_ascii_of_string s) 0%Z.

(** The pandas of the examples.  It does what pandas does with a column of
    decimal integers, which come back without their leading zeros, and with
    a column that holds a word that is no number, where the cells that
    stand for a missing value come back empty and the others as they
    are. *)
Definition example_pandas : Pandas :=
  λ column cell,
    if forallb is_digits column then pretty (digits_value cell)
    else if bool_decide (cell ∈ na_values) then EmptyString
    else cell.

(** A result whose measurements hold a float, [None], a text that is no
    number, a text that is one, and NaN. *)
Definition mixed_result : InspectionResult :=
  mk_result "1568" 1 "OK"
    [ PyFloat (6512 / 100); PyNone; PyStr "n/a" None;
      PyStr "3.14159" (Some (Finite (314159 / 100000))); PyNaN ]
    [] noon None.

(** A result with an int that is too large for a float. *)
Definition huge_result : InspectionResult :=
  mk_result "1568" 1 "OK" [PyFloat 1; PyInt (10 ^ 400)] [] noon None.


(** The values of the row written for measurements on which [float()]
    raises no [OverflowError]. *)
Definition row_values (ms : list pyval) : list pyfloat :=
  match csv_values ms with
  | inr values => values
  | inl _ => []
  end.

(** What a value column holds for a measurement: the number rounded to two
    places, an infinity or NaN as it is, 0.0 for a value that is no
    number. *)
Definition value_written (v : pyval) (y : pyfloat) : Prop :=
  match float v with
  | inr (Finite x) => ∃ r, y = Finite r ∧ rounded_to_2_places x r
  | inr other => y = other
  | inl _ => y = Finite 0
  end.

(** The directory of a path exists on the disk; a path without directory
    part lies in the current directory. *)
Definition directory_exists (d : Disk) (path : string) : Prop :=
  directory_part path = EmptyString ∨ directory_part path ∈ paths d.

(** The order directory of the inspector exists: it is the current
    directory, or a directory of the disk. *)
Definition order_dir_exists (self : Inspector) (d : Disk) : Prop :=
  order_dir self = EmptyString ∨ PosixPath.join (order_dir self) EmptyString ∈ paths d.

(** A name without separator. *)
Definition no_separator (s : string) : Prop :=
  Forall (λ a, a ≠ PosixPath.sep) (list_ascii_of_string s).

(** Every row carries one of the two classifications. *)
Definition statuses_known (rows : list CsvRow) : Prop :=
  Forall (λ row, col_OK_NOK row = "OK" ∨ col_OK_NOK row = "NOK") rows.

(** The counter an inspector keeps for a status. *)
Definition counter_of (st : string) (self : Inspector) : Z :=
  if String.eqb st "OK" then ok_counter self else nok_counter self.

(** A measurement that is a float. *)
Definition is_float (v : pyval) : Prop := ∃ x, v = PyFloat x.

(** How many rows carry a status. *)
Definition rows_with (st : string) (rows : list CsvRow) : nat :=
  length (filter (λ row, col_OK_NOK row = st) rows).

(** The column [Counter] of every row is the rank of the row among the rows
    of its status. *)
Definition counters_indexed (rows : list CsvRow) : Prop :=
  ∀ i row, rows !! i = Some row →
    col_Counter row = Z.of_nat (rows_with (col_OK_NOK row) (take (S i) rows)).


(** The counters of the inspector count the rows of the file. *)
Definition in_step (self : Inspector) (d : Disk) : Prop :=
  ok_counter self = Z.of_nat (rows_with "OK" (csv_rows d)) ∧
  nok_counter self = Z.of_nat (rows_with "NOK" (csv_rows d)) ∧
  counters_indexed (csv_rows d).


(** The four corners of a rectangle of the pixel grid, with the widths of
    the holes at the top-left, top-right, bottom-left and bottom-right. *)
Definition corner_holes (x1 x2 y1 y2 : Z) (w_tl w_tr w_bl w_br : R) : list Hole :=
  [ mk_hole (x1, y1) w_tl w_tl; mk_hole (x2, y1) w_tr w_tr;
    mk_hole (x1, y2) w_bl w_bl; mk_hole (x2, y2) w_br w_br ].

(** Four holes on a tilted square, all at different heights. *)
Definition tilted_holes : list Hole :=
  [ mk_hole (100, 10)%Z 30 30; mk_hole (200, 30)%Z 30 30;
    mk_hole (80, 110)%Z 30 30; mk_hole (180, 130)%Z 30 30 ].

(** The same holes as the detector may give them in another run. *)
Definition tilted_holes_shuffled : list Hole :=
  [ mk_hole (180, 130)%Z 30 30; mk_hole (100, 10)%Z 30 30;
    mk_hole (200, 30)%Z 30 30; mk_hole (80, 110)%Z 30 30 ].


(** The holes of [square_holes] in another order. *)
Definition square_holes_shuffled : list Hole :=
  [ mk_hole (100, 100)%Z 40 40; mk_hole (0, 0)%Z 30 30;
    mk_hole (0, 100)%Z 30 30; mk_hole (100, 0)%Z 40 40 ].


(** An area that [detect_spatter] counts. *)
Definition in_spatter_band (a : R) : Prop := (3 < a < 100)%R.

(** The disk of a new order: its directory, and a file without rows. *)
Definition order_disk : Disk := mk_disk {["./749274/"]} [].


End Vocabulary.

(** Evaluates the integer differences under [hypot]. *)
Ltac hypot_eval :=
  repeat match goal with
  | |- context [Py.hypot (?a - ?b) (?c - ?d)] =>
      let u := eval vm_compute in (a - b)%Z in
      let v := eval vm_compute in (c - d)%Z in
      change (Py.hypot (a - b) (c - d)) with (Py.hypot u v)
  end.

(** ** [src/main.py]: statistics and the header of the CSV file *)

Module Report.
Import Main.

(** The dictionary that [get_statistics] returns. *)
Record Statistics : Type := mk_statistics {
  total_parts : Z;
  ok_parts : Z;
  nok_parts : Z;
  ok_rate : R;
  nok_rate : R
}.

Definition get_statistics (self : Inspector) : Statistics :=
  let total := (ok_counter self + nok_counter self)%Z in
  mk_statistics total (ok_counter self) (nok_counter self)
    (if (0 <? total)%Z then (IZR (ok_counter self) / IZR total * 100)%R else 0%R)
    (if (0 <? total)%Z then (IZR (nok_counter self) / IZR total * 100)%R else 0%R).

(** The CSV file of an order: its header line and its rows. *)
Record CsvFile : Type := mk_csv_file {
  csv_header : list string;
  csv_body : list CsvRow
}.

(** [_initialize_csv]: [file] is the file at [self.csv_path], [None] when
    no such path exists. *)
Definition _initialize_csv (file : option CsvFile) : option CsvFile :=
  match file with
  | Some f => Some f
  | None =>
      let header :=
        ["Number"; "OK/NOK"; "Ordernumber"; "Counter"; "Date"; "Time"]
        ++ map (λ i : Z, "Value" +:+ pretty i) (seqZ 1 12)
        ++ ["User"] in
      Some (mk_csv_file header [])
  end.

End Report.

(** ** [src/config.py]: the settings and their validation *)

Module Settings.

(** The attributes of the class [Config] that [validate_configuration]
    reads.  [load_from_environment] sets the threshold to what [float()]
    reads in a variable of the environment, which can be an infinity or NaN;
    the two diameters are set in the body of the class only. *)
Record Config : Type := mk_config {
  CAMERA_WIDTH : Z;
  CAMERA_HEIGHT : Z;
  CAMERA_FPS : Z;
  PART_DETECTION_THRESHOLD : Py.pyfloat;
  MAX_SPATTER_COUNT : Z;
  MIN_HOLE_RADIUS : Z;
  MAX_HOLE_RADIUS : Z;
  HOLE_DIAMETER_MIN : R;
  HOLE_DIAMETER_MAX : R
}.

(** The values the class is written with. *)
Definition shipped : Config := mk_config 1920 1080 30 (Py.Finite 240) 5 10 40 35 45.

(** [a <= b] on floats. *)
Definition Rleb (a b : R) : bool := if Rle_dec a b then true else false.

Definition validate_configuration (cls : Config) : list string :=
  let issues := [] in
  let issues :=
    if (CAMERA_WIDTH cls <=? 0)%Z || (CAMERA_HEIGHT cls <=? 0)%Z
    then issues ++ ["Invalid camera resolution settings"] else issues in
  let issues :=
    if (CAMERA_FPS cls <=? 0)%Z || (120 <? CAMERA_FPS cls)%Z
    then issues ++ ["Invalid camera FPS setting"] else issues in
  let issues :=
    if Py.float_leb (PART_DETECTION_THRESHOLD cls) (Py.Finite 0)
       || Py.float_ltb (Py.Finite 255) (PART_DETECTION_THRESHOLD cls)
    then issues ++ ["Invalid part detection threshold"] else issues in
  let issues :=
    if (MAX_SPATTER_COUNT cls <? 0)%Z
    then issues ++ ["Invalid maximum spatter count"] else issues in
  let issues :=
    if (MAX_HOLE_RADIUS cls <=? MIN_HOLE_RADIUS cls)%Z
    then issues ++ ["Invalid hole radius range"] else issues in
  let issues :=
    if Rleb (HOLE_DIAMETER_MAX cls) (HOLE_DIAMETER_MIN cls)
    then issues ++ ["Invalid hole diameter tolerance range"] else issues in
  issues.

(** [CSV_HEADERS]. *)
Definition CSV_HEADERS : list string :=
  [ "Number"; "OK/NOK"; "Ordernumber"; "Counter"; "Date"; "Time";
    "Value1"; "Value2"; "Value3"; "Value4"; "Value5"; "Value6";
    "Value7"; "Value8"; "Value9"; "Value10"; "Value11"; "Value12";
    "User" ].

(** [get_output_directory], [default_output_dir] being [DEFAULT_OUTPUT_DIR]. *)
Definition get_output_directory (default_output_dir order_number : string) : string :=
  PosixPath.join default_output_dir order_number.

End Settings.

(** ** More Python built-ins *)

Module PyMore.

(** [list.sort] and [sorted] with a comparison: the sort is stable, an
    element goes in front of the first one that is not smaller. *)
Fixpoint insert_le {A : Type} (le : A → A → bool) (x : A) (l : list A) : list A :=
  match l with
  | [] => [x]
  | y :: l' => if le x y then x :: y :: l' else y :: insert_le le x l'
  end.

Fixpoint sort_le {A : Type} (le : A → A → bool) (l : list A) : list A :=
  match l with
  | [] => []
  | x :: l' => insert_le le x (sort_le le l')
  end.

(** [a <= b] on floats. *)
Definition Rleb (a b : R) : bool := if Rle_dec a b then true else false.

(** [str.lower] on the letters A to Z (the names are taken to be ASCII). *)
Definition lower_char (c : ascii) : ascii :=
  let n := nat_of_ascii c in
  if (65 <=? n)%nat && (n <=? 90)%nat then ascii_of_nat (n + 32) else c.

Fixpoint lower (s : string) : string :=
  match s with
  | EmptyString => EmptyString
  | String c s' => String (lower_char c) (lower s')
  end.

(** [s.endswith(suffix)]. *)
Definition endswith (s suffix : string) : bool :=
  let ls := list_ascii_of_string s in
  let lf := list_ascii_of_string suffix in
  bool_decide (length lf ≤ length ls ∧ drop (length ls - length lf) ls = lf).

End PyMore.

(** ** [src/utils/file_utils.py]: files and directories *)

Module Files.
Import PosixPath PyMore.

(** What a path names: a directory or a regular file, with the size and the
    modification time that [os.stat] gives. *)
Record Node : Type := mk_node {
  is_dir : bool;
  st_size : Z;
  st_mtime : R
}.

(** The file system: what every existing path names.  Paths are compared as
    strings, and the files of a directory are the paths that [os.path.join]
    makes of the directory and one name. *)
Abbreviation FS := (gmap string Node).

Definition exists_ (fs : FS) (path : string) : bool := bool_decide (is_Some (fs !! path)).

(** A name of a directory entry: not empty, without separator. *)
Definition component (name : string) : bool :=
  negb (String.eqb name EmptyString)
  && forallb (λ c, negb (Ascii.eqb c sep)) (list_ascii_of_string name).

Fixpoint strip_prefix (prefix s : string) : option string :=
  match prefix, s with
  | EmptyString, _ => Some s
  | String a prefix', String b s' => if Ascii.eqb a b then strip_prefix prefix' s' else None
  | String _ _, EmptyString => None
  end.

(** The name under which [path] is an entry of [directory], if it is one. *)
Definition entry_name (directory path : string) : option string :=
  match strip_prefix (join directory EmptyString) path with
  | Some name => if component name then Some name else None
  | None => None
  end.

(** [os.listdir(directory)], [None] when it raises [OSError] (no such
    directory, or not a directory); the order of the names is the one of the
    system, any order. *)
Definition listdir (fs : FS) (directory : string) : option (list string) :=
  match fs !! directory with
  | Some node =>
      if is_dir node then Some (omap (entry_name directory) (elements (dom fs))) else None
  | None => None
  end.

Definition get_file_size (fs : FS) (file_path : string) : Z :=
  match fs !! file_path with
  | Some node => st_size node
  | None => (-1)%Z
  end.

(** [delete_file]: [os.remove] raises [OSError] on a directory. *)
Definition delete_file (fs : FS) (file_path : string) : bool * FS :=
  if exists_ fs file_path then
    match fs !! file_path with
    | Some node => if is_dir node then (false, fs) else (true, delete file_path fs)
    | None => (false, fs)
    end
  else (false, fs).

Definition list_files_by_extension (fs : FS) (directory extension : string) : list string :=
  if negb (exists_ fs directory) then []
  else
    match listdir fs directory with
    | Some names =>
        let files :=
          map (join directory)
            (filter (λ filename, endswith (lower filename) (lower extension) = true) names) in
        sort_le String.leb files
    | None => []
    end.

Definition image_extensions : list string := [".jpg"; ".jpeg"; ".png"; ".bmp"].

(** [os.path.getmtime(path)], [None] when it raises [OSError]. *)
Definition getmtime (fs : FS) (path : string) : option R := st_mtime <$> fs !! path.

(** The loop [while len(all_files) > max_files]: [None] when [pop(0)] raises
    [IndexError] on the empty list; the files deleted until then stay
    deleted. *)
Fixpoint delete_oldest (fs : FS) (all_files : list string) (max_files deleted_count : Z)
    : option Z * FS :=
  match all_files with
  | [] => if (max_files <? 0)%Z then (None, fs) else (Some deleted_count, fs)
  | oldest_file :: rest =>
      if (max_files <? Z.of_nat (length all_files))%Z then
        let '(ok, fs') := delete_file fs oldest_file in
        delete_oldest fs' rest max_files (if ok then (deleted_count + 1)%Z else deleted_count)
      else (Some deleted_count, fs)
  end.

(** [clean_old_files]: the sort by modification time first reads the time
    of every file; whatever is raised makes the function return 0. *)
Definition clean_old_files (fs : FS) (directory : string) (max_files : Z) : Z * FS :=
  let all_files := concat (map (list_files_by_extension fs directory) image_extensions) in
  match mapM (getmtime fs) all_files with
  | Some times =>
      let all_files :=
        map snd (sort_le (λ a b : R * string, Rleb (fst a) (fst b)) (zip times all_files)) in
      match delete_oldest fs all_files max_files 0 with
      | (Some deleted_count, fs') => (deleted_count, fs')
      | (None, fs') => (0%Z, fs')
      end
  | None => (0%Z, fs)
  end.

End Files.

(** ** Further vocabulary *)

Module Terms.
Import Py Detection Main Vocabulary.

(** [a < b] and [a <= b] on floats, with the infinities at the two ends;
    NaN is related to nothing. *)
Definition float_lt (a b : pyfloat) : Prop :=
  match a, b with
  | Finite x, Finite y => (x < y)%R
  | Finite _, Inf negative => negative = false
  | Inf negative, Finite _ => negative = true
  | Inf negative, Inf negative' => negative = true ∧ negative' = false
  | NaN, _ => False
  | _, NaN => False
  end.

Definition float_le (a b : pyfloat) : Prop := float_lt a b ∨ (a = b ∧ a ≠ NaN).

(** The threshold is a number of the interval (0, 255]. *)
Definition threshold_valid (cls : Settings.Config) : Prop :=
  ∃ t, Settings.PART_DETECTION_THRESHOLD cls = Finite t ∧ (0 < t <= 255)%R.

(** The settings other than the threshold are in range. *)
Definition other_settings_valid (cls : Settings.Config) : Prop :=
  (0 < Settings.CAMERA_WIDTH cls)%Z ∧ (0 < Settings.CAMERA_HEIGHT cls)%Z ∧
  (0 < Settings.CAMERA_FPS cls ≤ 120)%Z ∧
  (0 ≤ Settings.MAX_SPATTER_COUNT cls)%Z ∧
  (Settings.MIN_HOLE_RADIUS cls < Settings.MAX_HOLE_RADIUS cls)%Z ∧
  (Settings.HOLE_DIAMETER_MIN cls < Settings.HOLE_DIAMETER_MAX cls)%R.

(** All the settings are in range. *)
Definition settings_valid (cls : Settings.Config) : Prop :=
  other_settings_valid cls ∧ threshold_valid cls.

(** The settings of the class with another threshold. *)
Definition with_threshold (t : pyfloat) : Settings.Config :=
  Settings.mk_config 1920 1080 30 t 5 10 40 35 45.

(** [name] ends with [extension], letter case apart. *)
Definition has_extension (name extension : string) : Prop :=
  ∃ front, PyMore.lower name = front +:+ PyMore.lower extension.

(** [path] is an entry of [directory] in the file system. *)
Definition entry_of (fs : Files.FS) (directory path : string) : Prop :=
  (∃ node, fs !! directory = Some node ∧ Files.is_dir node = true) ∧
  is_Some (fs !! path) ∧
  ∃ name, Files.component name = true ∧ path = PosixPath.join directory name.

(** [path] is an image file of [directory]: an entry with one of the four
    image extensions. *)
Definition image_of (fs : Files.FS) (directory path : string) : Prop :=
  (∃ node, fs !! directory = Some node ∧ Files.is_dir node = true) ∧
  is_Some (fs !! path) ∧
  ∃ name extension,
    Files.component name = true ∧ path = PosixPath.join directory name ∧
    extension ∈ Files.image_extensions ∧ has_extension name extension.

(** [path] names a regular file. *)
Definition regular (fs : Files.FS) (path : string) : Prop :=
  ∃ node, fs !! path = Some node ∧ Files.is_dir node = false.

(** The modification time of a path, 0 for a path that does not exist. *)
Definition mtime_of (fs : Files.FS) (path : string) : R :=
  match fs !! path with Some node => Files.st_mtime node | None => 0%R end.

(** [path] is an entry of [directory] whose name ends with [extension],
    letter case apart, as a test. *)
Definition name_matches (directory extension path : string) : bool :=
  match Files.entry_name directory path with
  | Some name => PyMore.endswith (PyMore.lower name) (PyMore.lower extension)
  | None => false
  end.

(** The directory exists and is a directory. *)
Definition is_directory (fs : Files.FS) (directory : string) : Prop :=
  ∃ node, fs !! directory = Some node ∧ Files.is_dir node = true.

(** The image files of a directory, as [clean_old_files] collects them. *)
Definition all_images (fs : Files.FS) (directory : string) : list string :=
  concat (map (Files.list_files_by_extension fs directory) Files.image_extensions).

(** The paths sorted by modification time, as [clean_old_files] sorts them. *)
Definition oldest_first (fs : Files.FS) (files : list string) : list string :=
  map snd
    (PyMore.sort_le (λ a b : R * string, PyMore.Rleb (fst a) (fst b))
       (zip (map (mtime_of fs) files) files)).

(** An output directory with three images of different age and a text
    file. *)
Definition example_fs : Files.FS :=
  <["out" := Files.mk_node true 4096 0]>
  (<["out/a.jpg" := Files.mk_node false 10 3]>
  (<["out/b.PNG" := Files.mk_node false 20 1]>
  (<["out/c.bmp" := Files.mk_node false 30 2]>
  (<["out/notes.txt" := Files.mk_node false 5 0]> ∅)))).

End Terms.

(** * Properties *)

(** ** The stable sort *)

Section SortedFacts.
Import Py Vocabulary.
Context {A : Type} (key : A → Z).

Lemma insert_by_perm (x : A) (l : list A) : insert_by key x l ≡ₚ x :: l.
Proof.
  induction l as [|y l IH]; simpl; [done|].
  destruct (key x <=? key y)%Z; [done|].
  rewrite IH. apply perm_swap.
Qed.

Lemma sorted_perm (l : list A) : sorted key l ≡ₚ l.
Proof.
  induction l as [|x l IH]; simpl; [done|].
  by rewrite insert_by_perm, IH.
Qed.

Lemma sorted_length (l : list A) : length (sorted key l) = length l.
Proof. apply Permutation_length, sorted_perm. Qed.

Lemma insert_by_sorted (x : A) (l : list A) :
  StronglySorted (key_le key) l → StronglySorted (key_le key) (insert_by key x l).
Proof.
  induction 1 as [|y l Hl IH Hy]; simpl.
  - repeat constructor.
  - destruct (Z.leb_spec (key x) (key y)) as [Hxy|Hxy].
    + constructor; [by constructor|].
      constructor; [done|].
      eapply Forall_impl; [exact Hy|]. unfold key_le. intros; lia.
    + constructor; [done|].
      rewrite insert_by_perm. constructor; [|done]. unfold key_le. lia.
Qed.

Lemma sorted_sorted (l : list A) : StronglySorted (key_le key) (sorted key l).
Proof.
  induction l as [|x l IH]; simpl; [constructor|].
  by apply insert_by_sorted.
Qed.

(** The sort only compares keys: a map that keeps the comparisons commutes
    with it. *)
Lemma sorted_map {B : Type} (key' : B → Z) (f : A → B) (l : list A) :
  (∀ a b, (key' (f a) <=? key' (f b))%Z = (key a <=? key b)%Z) →
  sorted key' (map f l) = map f (sorted key l).
Proof.
  intros Hf.
  assert (Hins : ∀ x l', insert_by key' (f x) (map f l') = map f (insert_by key x l')).
  { intros x l'. induction l' as [|y l' IH]; simpl; [done|].
    rewrite Hf. destruct (key x <=? key y)%Z; simpl; [done|]. by rewrite IH. }
  induction l as [|x l IH]; simpl; [done|].
  by rewrite IH, Hins.
Qed.

Lemma sorted_pair (a b : A) :
  sorted key [a; b] = if (key a <=? key b)%Z then [a; b] else [b; a].
Proof. reflexivity. Qed.

End SortedFacts.

(** ** Seam lengths *)

Section SeamLengths.
Import Py Detection Vocabulary.

Lemma distance_euclid (p q : Z * Z) : distance p q = euclid p q.
Proof.
  unfold distance, hypot, euclid. rewrite !minus_IZR. f_equal. ring.
Qed.

Lemma hypot_horizontal (a : Z) : (0 ≤ a)%Z → hypot a 0 = IZR a.
Proof.
  intros Ha. unfold hypot.
  replace (IZR a * IZR a + 0 * 0)%R with (IZR a * IZR a)%R by ring.
  apply sqrt_square. by apply IZR_le.
Qed.

(** With fewer than four holes the seams are all zero. *)
Lemma calculate_seam_lengths_few (holes : list Hole) :
  (length holes < 4)%nat → calculate_seam_lengths holes = (0, 0, 0, 0)%R.
Proof.
  intros Hlen. unfold calculate_seam_lengths.
  destruct (Nat.ltb_spec (length holes) 4) as [_|?]; [done|lia].
Qed.

(** The four holes of the grid, by their places in the list sorted by [y]. *)
Lemma calculate_seam_lengths_rows (holes : list Hole) (a b c d : Hole) (rest : list Hole) :
  sorted hole_y holes = a :: b :: c :: d :: rest →
  ∃ tl tr bl br,
    [tl; tr] ≡ₚ [a; b] ∧ [bl; br] ≡ₚ [c; d] ∧
    (hole_x tl ≤ hole_x tr)%Z ∧ (hole_x bl ≤ hole_x br)%Z ∧
    calculate_seam_lengths holes =
      (edge_gap tl tr, edge_gap bl br, edge_gap tl bl, edge_gap tr br).
Proof.
  intros Hs. unfold calculate_seam_lengths.
  assert (Hlen : length holes = S (S (S (S (length rest))))).
  { by rewrite <-(sorted_length hole_y), Hs. }
  destruct (Nat.ltb_spec (length holes) 4) as [?|_]; [lia|].
  rewrite Hs.
  change (take 2 (a :: b :: c :: d :: rest)) with [a; b].
  change (take 2 (drop 2 (a :: b :: c :: d :: rest))) with [c; d].
  rewrite !sorted_pair.
  assert (Hgap : ∀ tl tr bl br : Hole,
    ((distance (center tl) (center tr) - (width tl / 2 + width tr / 2))%R,
     (distance (center bl) (center br) - (width bl / 2 + width br / 2))%R,
     (distance (center tl) (center bl) - (width tl / 2 + width bl / 2))%R,
     (distance (center tr) (center br) - (width tr / 2 + width br / 2))%R)
    = (edge_gap tl tr, edge_gap bl br, edge_gap tl bl, edge_gap tr br)).
  { intros. unfold edge_gap. by rewrite !distance_euclid. }
  destruct (Z.leb_spec (hole_x a) (hole_x b)) as [Hab|Hab];
    destruct (Z.leb_spec (hole_x c) (hole_x d)) as [Hcd|Hcd].
  - exists a, b, c, d. repeat split; auto.
  - exists a, b, d, c. repeat split; auto; [apply perm_swap | lia].
  - exists b, a, c, d. repeat split; auto; [apply perm_swap | lia].
  - exists b, a, d, c. repeat split; auto; try apply perm_swap; lia.
Qed.

Lemma distance_translate (dx dy : Z) (h1 h2 : Hole) :
  distance (center (translate dx dy h1)) (center (translate dx dy h2))
  = distance (center h1) (center h2).
Proof.
  unfold distance, translate, hole_x, hole_y. simpl. f_equal; lia.
Qed.

Lemma translate_key_x (dx dy : Z) (h1 h2 : Hole) :
  (hole_x (translate dx dy h1) <=? hole_x (translate dx dy h2))%Z
  = (hole_x h1 <=? hole_x h2)%Z.
Proof.
  unfold translate, hole_x. simpl.
  destruct (Z.leb_spec (fst (center h1) + dx) (fst (center h2) + dx));
    destruct (Z.leb_spec (fst (center h1)) (fst (center h2))); lia.
Qed.

Lemma translate_key_y (dx dy : Z) (h1 h2 : Hole) :
  (hole_y (translate dx dy h1) <=? hole_y (translate dx dy h2))%Z
  = (hole_y h1 <=? hole_y h2)%Z.
Proof.
  unfold translate, hole_y. simpl.
  destruct (Z.leb_spec (snd (center h1) + dy) (snd (center h2) + dy));
    destruct (Z.leb_spec (snd (center h1)) (snd (center h2))); lia.
Qed.

(** Moving every hole by the same vector changes no seam length: the sorts
    compare the same keys and the differences of the centers are the same. *)
Lemma calculate_seam_lengths_translate (dx dy : Z) (holes : list Hole) :
  calculate_seam_lengths (map (translate dx dy) holes) = calculate_seam_lengths holes.
Proof.
  unfold calculate_seam_lengths. rewrite length_map.
  destruct (length holes <? 4)%nat; [done|].
  rewrite (sorted_map hole_y hole_y (translate dx dy)) by apply translate_key_y.
  rewrite <-!fmap_drop, <-!fmap_take.
  rewrite !(sorted_map hole_x hole_x (translate dx dy)) by apply translate_key_x.
  destruct (sorted hole_x (take 2 (sorted hole_y holes))) as [|tl [|tr [|? ?]]]; try done.
  destruct (sorted hole_x (take 2 (drop 2 (sorted hole_y holes)))) as [|bl [|br [|? ?]]];
    try done.
  cbn [map fmap list_fmap]. by rewrite !distance_translate.
Qed.

End SeamLengths.

Section SeamClaims.
Import Py Detection Vocabulary.

Lemma elem_of_pair {A : Type} (x a b : A) : x ∈ [a; b] → x = a ∨ x = b.
Proof.
  intros H. apply elem_of_cons in H as [H|H]; [by left|].
  apply elem_of_cons in H as [H|H]; [by right|].
  by apply elem_of_nil in H.
Qed.

Lemma hypot_vertical (b : Z) : (0 ≤ b)%Z → hypot 0 b = IZR b.
Proof.
  intros Hb. unfold hypot.
  replace (0 * 0 + IZR b * IZR b)%R with (IZR b * IZR b)%R by ring.
  apply sqrt_square. by apply IZR_le.
Qed.

(** C4. For a list of at least four holes, [calculate_seam_lengths] takes
    the four holes that come first by ascending [y], the two upper ones as
    the top row and the two lower ones as the bottom row, each row ordered by
    ascending [x], and returns for the pairs (top-left, top-right),
    (bottom-left, bottom-right), (top-left, bottom-left) and (top-right,
    bottom-right) the Euclidean distance of the two centers less the sum of
    the two radii, a radius being half a width.  Nothing clamps the value:
    see [seam_example_65] and [seam_example_negative]. *)
Theorem calculate_seam_lengths_grid (holes : list Hole) :
  (4 ≤ length holes)%nat →
  ∃ tl tr bl br rest,
    holes ≡ₚ tl :: tr :: bl :: br :: rest ∧
    (hole_x tl ≤ hole_x tr)%Z ∧ (hole_x bl ≤ hole_x br)%Z ∧
    (∀ t b, t ∈ [tl; tr] → b ∈ [bl; br] → (hole_y t ≤ hole_y b)%Z) ∧
    (∀ b h, b ∈ [bl; br] → h ∈ rest → (hole_y b ≤ hole_y h)%Z) ∧
    calculate_seam_lengths holes =
      (edge_gap tl tr, edge_gap bl br, edge_gap tl bl, edge_gap tr br).
Proof.
  intros Hlen.
  pose proof (sorted_length hole_y holes) as Hl.
  pose proof (sorted_sorted hole_y holes) as Hsorted.
  pose proof (sorted_perm hole_y holes) as Hperm.
  destruct (sorted hole_y holes) as [|a [|b [|c [|d rest]]]] eqn:Hs;
    simpl in Hl; try lia.
  destruct (calculate_seam_lengths_rows holes a b c d rest Hs)
    as (tl & tr & bl & br & Htop & Hbot & Hxt & Hxb & Heq).
  exists tl, tr, bl, br, rest.
  (* the order of the sorted list *)
  apply StronglySorted_inv in Hsorted as [Hsorted Ha].
  apply StronglySorted_inv in Hsorted as [Hsorted Hb].
  apply StronglySorted_inv in Hsorted as [Hsorted Hc].
  apply StronglySorted_inv in Hsorted as [_ Hd].
  rewrite Forall_forall in Ha, Hb, Hc, Hd. unfold key_le in *.
  assert (Hrows : ∀ t b', t ∈ [a; b] → b' ∈ [c; d] → (hole_y t ≤ hole_y b')%Z).
  { intros t b' Ht Hb'.
    destruct (elem_of_pair _ _ _ Ht) as [->| ->];
      destruct (elem_of_pair _ _ _ Hb') as [->| ->];
      (apply Ha || apply Hb); rewrite !elem_of_cons; auto. }
  assert (Hrest : ∀ b' h, b' ∈ [c; d] → h ∈ rest → (hole_y b' ≤ hole_y h)%Z).
  { intros b' h Hb' Hh.
    destruct (elem_of_pair _ _ _ Hb') as [->| ->];
      (apply Hc || apply Hd); rewrite ?elem_of_cons; auto. }
  split; [|split; [done|split; [done|split; [|split; [|done]]]]].
  - rewrite <-Hperm.
    change (a :: b :: c :: d :: rest) with ([a; b] ++ [c; d] ++ rest).
    change (tl :: tr :: bl :: br :: rest) with ([tl; tr] ++ [bl; br] ++ rest).
    by rewrite Htop, Hbot.
  - intros t b' Ht Hb'. apply Hrows; [by rewrite <-Htop | by rewrite <-Hbot].
  - intros b' h Hb' Hh. apply Hrest; [by rewrite <-Hbot | done].
Qed.

Lemma calculate_seam_lengths_grid_witness :
  (4 ≤ length square_holes)%nat ∧
  ∃ tl tr bl br rest,
    square_holes ≡ₚ tl :: tr :: bl :: br :: rest ∧
    (hole_x tl ≤ hole_x tr)%Z ∧ (hole_x bl ≤ hole_x br)%Z ∧
    (∀ t b, t ∈ [tl; tr] → b ∈ [bl; br] → (hole_y t ≤ hole_y b)%Z) ∧
    (∀ b h, b ∈ [bl; br] → h ∈ rest → (hole_y b ≤ hole_y h)%Z) ∧
    calculate_seam_lengths square_holes =
      (edge_gap tl tr, edge_gap bl br, edge_gap tl bl, edge_gap tr br).
Proof.
  split; [simpl; lia | apply (calculate_seam_lengths_grid square_holes); simpl; lia].
Defined.

(** Centers 100 apart and radii 15 and 20: the seam is 65. *)
Example seam_example_65 :
  calculate_seam_lengths square_holes = (65, 65, 70, 60)%R.
Proof.
  unfold calculate_seam_lengths, square_holes. simpl.
  unfold distance. simpl. hypot_eval.
  rewrite (hypot_horizontal 100), (hypot_vertical 100) by lia.
  repeat f_equal; lra.
Qed.

(** Holes that overlap: the seams are negative, and returned so. *)
Example seam_example_negative :
  calculate_seam_lengths overlapping_holes = (-20, -20, -20, -20)%R.
Proof.
  unfold calculate_seam_lengths, overlapping_holes. simpl.
  unfold distance. simpl. hypot_eval.
  rewrite (hypot_horizontal 10), (hypot_vertical 10) by lia.
  repeat f_equal; lra.
Qed.

(** C8. [calculate_seam_lengths] is invariant under translation: adding
    the same vector [(dx, dy)] to the centers of all the holes of a list of
    at least four holes leaves the four seam lengths as they are. *)
Theorem calculate_seam_lengths_translation_invariant (dx dy : Z) (holes : list Hole) :
  (4 ≤ length holes)%nat →
  calculate_seam_lengths (map (translate dx dy) holes) = calculate_seam_lengths holes.
Proof.
  intros _. apply calculate_seam_lengths_translate.
Qed.

Lemma calculate_seam_lengths_translation_invariant_witness :
  (4 ≤ length square_holes)%nat ∧
  calculate_seam_lengths (map (translate 7 (-3)) square_holes)
  = calculate_seam_lengths square_holes.
Proof.
  split; [simpl; lia|].
  apply (calculate_seam_lengths_translation_invariant 7 (-3) square_holes). simpl; lia.
Defined.

End SeamClaims.

(** ** Strings and paths *)

Section StringFacts.
Import PosixPath Vocabulary.

Lemma list_ascii_of_string_app (s t : string) :
  list_ascii_of_string (s +:+ t) = list_ascii_of_string s ++ list_ascii_of_string t.
Proof. induction s as [|c s IH]; simpl; [done|]. by rewrite IH. Qed.

Lemma list_ascii_of_string_inj (s t : string) :
  list_ascii_of_string s = list_ascii_of_string t → s = t.
Proof.
  intros H. rewrite <-(string_of_list_ascii_of_string s), <-(string_of_list_ascii_of_string t).
  by rewrite H.
Qed.

Lemma string_app_assoc (s t u : string) : (s +:+ t) +:+ u = s +:+ t +:+ u.
Proof.
  apply list_ascii_of_string_inj. rewrite !list_ascii_of_string_app. by rewrite (assoc (++)).
Qed.

Lemma string_app_inv_tail (s t u : string) : s +:+ u = t +:+ u → s = t.
Proof.
  intros H. apply list_ascii_of_string_inj.
  apply (f_equal list_ascii_of_string) in H.
  rewrite !list_ascii_of_string_app in H. by apply app_inv_tail in H.
Qed.

(** *** [rfind] *)

Lemma rfind_lt (c : ascii) (l : list ascii) : (-1 ≤ rfind c l < Z.of_nat (length l))%Z.
Proof.
  induction l as [|a l IH]; simpl; [lia|].
  destruct (Z.leb_spec 0 (rfind c l)); [lia|].
  destruct (Ascii.eqb a c); lia.
Qed.

Lemma rfind_app (c : ascii) (l1 l2 : list ascii) :
  rfind c (l1 ++ l2) =
    if (0 <=? rfind c l2)%Z then (Z.of_nat (length l1) + rfind c l2)%Z else rfind c l1.
Proof.
  induction l1 as [|a l1 IH]; simpl.
  - pose proof (rfind_lt c l2). destruct (Z.leb_spec 0 (rfind c l2)); lia.
  - rewrite IH. pose proof (rfind_lt c l1).
    destruct (Z.leb_spec 0 (rfind c l2)).
    + destruct (Z.leb_spec 0 (Z.of_nat (length l1) + rfind c l2)); lia.
    + done.
Qed.

Lemma rfind_none (c : ascii) (l : list ascii) :
  Forall (λ a, a ≠ c) l → rfind c l = (-1)%Z.
Proof.
  induction 1 as [|a l Ha _ IH]; simpl; [done|].
  rewrite IH. simpl. by apply Ascii.eqb_neq in Ha as ->.
Qed.

(** *** [splitext] of a name in [.jpg] *)

Lemma splitext_root_jpg (pre t : list ascii) :
  Forall (λ a, a ≠ sep) t →
  Exists (λ a, a ≠ extsep) t →
  splitext_root (string_of_list_ascii (pre ++ t ++ jpg)) = string_of_list_ascii (pre ++ t).
Proof.
  intros Hsep Hdot. unfold splitext_root.
  rewrite list_ascii_of_string_of_list_ascii.
  pose proof (rfind_lt sep pre) as Hpre.
  assert (Hs : rfind sep (pre ++ t ++ jpg) = rfind sep pre).
  { rewrite rfind_app, rfind_app.
    rewrite (rfind_none sep t Hsep). by change (rfind sep jpg) with (-1)%Z. }
  assert (Hd : rfind extsep (pre ++ t ++ jpg) = Z.of_nat (length (pre ++ t))).
  { rewrite (assoc (++)), rfind_app. change (rfind extsep jpg) with 0%Z. simpl. lia. }
  rewrite Hs, Hd. rewrite length_app in *.
  destruct (Z.ltb_spec (rfind sep pre) (Z.of_nat (length pre + length t))) as [_|?]; [|lia].
  set (k := Z.to_nat (rfind sep pre + 1)).
  assert (Hk : k ≤ length pre) by lia.
  replace (Z.to_nat (Z.of_nat (length pre + length t) - (rfind sep pre + 1)))
    with (length (drop k pre ++ t)).
  2:{ rewrite length_app, length_drop. lia. }
  rewrite (assoc (++) pre t jpg), drop_app_le by (rewrite length_app; lia).
  rewrite drop_app_le by done.
  rewrite take_app_length.
  replace (existsb (λ c, negb (Ascii.eqb c extsep)) (drop k pre ++ t)) with true.
  - rewrite Nat2Z.id, <-length_app, (assoc (++) pre t jpg). by rewrite take_app_length.
  - symmetry. apply existsb_exists.
    apply Exists_exists in Hdot as (c & Hc & Hne).
    exists c. split.
    + apply in_or_app. right. by apply list_elem_of_In.
    + by apply Ascii.eqb_neq in Hne as ->.
Qed.

(** *** The decimal writing of an integer has no separator *)

Lemma pretty_N_char_sep (d : N) : pretty_N_char d ≠ sep.
Proof. unfold pretty_N_char. by repeat case_match. Qed.

Lemma pretty_N_go_sep (x : N) (s : string) :
  Forall (λ a, a ≠ sep) (list_ascii_of_string s) →
  Forall (λ a, a ≠ sep) (list_ascii_of_string (pretty_N_go x s)).
Proof.
  revert s. induction (N.lt_wf_0 x) as [x _ IH]; intros s Hs.
  assert (x = 0 ∨ 0 < x)%N as [->|?] by lia.
  - by rewrite pretty_N_go_0.
  - rewrite pretty_N_go_step by done. apply IH.
    { by apply N.div_lt. }
    simpl. constructor; [apply pretty_N_char_sep | done].
Qed.

Lemma pretty_N_sep (x : N) : Forall (λ a, a ≠ sep) (list_ascii_of_string (pretty x)).
Proof.
  unfold pretty, pretty_N. case_decide.
  - by repeat constructor.
  - apply pretty_N_go_sep. constructor.
Qed.

Lemma pretty_Z_sep (x : Z) : Forall (λ a, a ≠ sep) (list_ascii_of_string (pretty x)).
Proof.
  destruct x as [|p|p]; unfold pretty, pretty_Z.
  - by repeat constructor.
  - apply pretty_N_sep.
  - rewrite list_ascii_of_string_app. apply Forall_app. split.
    + by repeat constructor.
    + apply pretty_N_sep.
Qed.

End StringFacts.

(** ** File names *)

Section FileNaming.
Import PosixPath FileUtils Vocabulary.

Lemma base_name_stem (st ord part : string) (c cam : Z) :
  base_name st ord part c cam = stem st ord part c cam +:+ ".jpg".
Proof. unfold base_name, stem. by rewrite !string_app_assoc. Qed.

Lemma splitext_root_base_name (st ord part : string) (c cam : Z) :
  splitext_root (base_name st ord part c cam) = stem st ord part c cam.
Proof.
  set (pre := list_ascii_of_string
                (st +:+ "_" +:+ ord +:+ "_" +:+ part +:+ "Count" +:+ pretty c)).
  set (t := list_ascii_of_string ("_CAM" +:+ pretty cam)).
  assert (Hstem : list_ascii_of_string (stem st ord part c cam) = pre ++ t).
  { unfold stem, pre, t. rewrite !list_ascii_of_string_app, <-!(assoc (++)). done. }
  assert (Hbase : base_name st ord part c cam = string_of_list_ascii (pre ++ t ++ jpg)).
  { apply list_ascii_of_string_inj.
    rewrite list_ascii_of_string_of_list_ascii, base_name_stem.
    by rewrite list_ascii_of_string_app, Hstem, <-(assoc (++)). }
  rewrite Hbase, splitext_root_jpg.
  - by rewrite <-Hstem, string_of_list_ascii_of_string.
  - unfold t. rewrite list_ascii_of_string_app. apply Forall_app. split.
    + by repeat constructor.
    + apply pretty_Z_sep.
  - unfold t. rewrite list_ascii_of_string_app. by apply Exists_app; left; constructor.
Qed.

Lemma startswith_sep_app (n : string) (c c' : ascii) (r r' : string) :
  c ≠ sep → c' ≠ sep →
  startswith_sep (n +:+ String c r) = startswith_sep (n +:+ String c' r').
Proof.
  intros Hc Hc'. destruct n; [|done]. simpl.
  by apply Ascii.eqb_neq in Hc as ->; apply Ascii.eqb_neq in Hc' as ->.
Qed.

Lemma join_inj (dir a b : string) :
  startswith_sep a = startswith_sep b → join dir a = join dir b → a = b.
Proof.
  unfold join. intros <-. destruct (startswith_sep a); [done|].
  destruct (bool_decide (dir = "") || endswith_sep dir).
  - apply (inj (String.app dir)).
  - intros H. by apply (inj (String.app dir)) in H; injection H.
Qed.

Lemma suffixed_path_inj (dir name : string) (j k : Z) :
  join dir (suffixed_name name j) = join dir (suffixed_name name k) → j = k.
Proof.
  intros H. apply join_inj in H.
  - unfold suffixed_name in H. apply (inj (String.app name)) in H.
    apply (inj (String.app "_")) in H.
    apply string_app_inv_tail in H. by apply (inj pretty) in H.
  - by apply startswith_sep_app.
Qed.

Lemma next_suffix_Some (fuel : nat) (fs : gset string) (dir name : string) (s : Z) (p : string) :
  next_suffix fuel fs dir name s = Some p →
  ∃ k, (s ≤ k < s + Z.of_nat fuel)%Z ∧
       p = join dir (suffixed_name name k) ∧ (p ∉ fs) ∧
       ∀ j, (s ≤ j < k)%Z → join dir (suffixed_name name j) ∈ fs.
Proof.
  revert s. induction fuel as [|fuel IH]; intros s; simpl; [done|].
  case_bool_decide as Hfree.
  - intros [= <-]. exists s. repeat split; [lia..|done|intros; lia].
  - intros Hnext. apply IH in Hnext as (k & Hk & -> & Hp & Hbelow).
    exists k. repeat split; [lia..|done|].
    intros j Hj. destruct (decide (j = s)) as [->|]; [|apply Hbelow; lia].
    exact Hfree.
Qed.

Lemma next_suffix_None (fuel : nat) (fs : gset string) (dir name : string) (s : Z) :
  next_suffix fuel fs dir name s = None →
  ∀ j, (s ≤ j < s + Z.of_nat fuel)%Z → join dir (suffixed_name name j) ∈ fs.
Proof.
  revert s. induction fuel as [|fuel IH]; intros s; simpl; [intros; lia|].
  case_bool_decide as Hfree; [done|].
  intros Hnone j Hj. destruct (decide (j = s)) as [->|].
  - exact Hfree.
  - apply (IH _ Hnone). lia.
Qed.

(** The loop ends: among [size fs + 1] names that differ, one is free. *)
Lemma next_suffix_total (fs : gset string) (dir name : string) (s : Z) :
  is_Some (next_suffix (S (size fs)) fs dir name s).
Proof.
  destruct (next_suffix (S (size fs)) fs dir name s) as [p|] eqn:Hnext; [by eexists|].
  exfalso.
  pose proof (next_suffix_None _ _ _ _ _ Hnext) as Hall.
  set (l := (λ j, join dir (suffixed_name name j)) <$> seqZ s (Z.of_nat (S (size fs)))).
  assert (Hnodup : NoDup l).
  { apply NoDup_fmap_2_strong; [|apply NoDup_seqZ].
    intros j k _ _. apply suffixed_path_inj. }
  assert (Hsub : list_to_set (C := gset string) l ⊆ fs).
  { intros p. rewrite elem_of_list_to_set. unfold l.
    intros (j & -> & Hj%elem_of_seqZ)%list_elem_of_fmap. apply Hall. lia. }
  apply subseteq_size in Hsub.
  rewrite size_list_to_set in Hsub by done.
  unfold l in Hsub. rewrite length_fmap, length_seqZ in Hsub. lia.
Qed.

End FileNaming.

Section FileNamingClaim.
Import PosixPath FileUtils Vocabulary.

Lemma suffix_path_ne_base (dir st ord part : string) (c cam k : Z) :
  suffix_path dir st ord part c cam k ≠ base_path dir st ord part c cam.
Proof.
  unfold suffix_path, base_path. intros H. apply join_inj in H.
  - by apply (inj (String.app _)) in H.
  - by apply startswith_sep_app.
Qed.

(** What [get_next_filename] returns, by cases on the base path. *)
Lemma get_next_filename_cases (fs : gset string) (dir st ord part : string) (c cam : Z) :
  let next := get_next_filename fs dir st ord part c cam in
  ((base_path dir st ord part c cam ∉ fs) ∧ next = base_path dir st ord part c cam) ∨
  (base_path dir st ord part c cam ∈ fs ∧
   ∃ k, (1 ≤ k)%Z ∧ next = suffix_path dir st ord part c cam k ∧ (next ∉ fs) ∧
        ∀ j, (1 ≤ j < k)%Z → suffix_path dir st ord part c cam j ∈ fs).
Proof.
  unfold get_next_filename, get_next_filename_fuel, base_path, suffix_path.
  rewrite splitext_root_base_name, base_name_stem.
  case_bool_decide as Hfree; [by left|right].
  split; [exact Hfree|].
  destruct (next_suffix_total fs dir (stem st ord part c cam) 1) as [p Hp].
  rewrite Hp. simpl.
  apply next_suffix_Some in Hp as (k & Hk & -> & Hp & Hbelow).
  exists k. repeat split; [lia|done|done].
Qed.

(** C7. For a fixed tuple (status, order, part, counter, camera) the path
    that [get_next_filename] returns depends on the files that exist only:
    it never exists; while the path of the base name
    [{status}_{order}_{part}Count{counter}_CAM{cam}.jpg] does not exist, it
    is that path, at every call; once it exists, it is the path with the
    first suffix [_k], [k = 1, 2, ...], that does not exist, so [_1] right
    after the base path was created in a directory without it. *)
Theorem get_next_filename_first_free
    (fs : gset string) (directory status order_number part_number : string)
    (counter cam_id : Z) :
  let next fs' :=
    get_next_filename fs' directory status order_number part_number counter cam_id in
  let base := base_path directory status order_number part_number counter cam_id in
  let suffixed := suffix_path directory status order_number part_number counter cam_id in
  (next fs ∉ fs) ∧
  ((base ∉ fs) → next fs = base) ∧
  (base ∈ fs →
     ∃ k, (1 ≤ k)%Z ∧ next fs = suffixed k ∧ ∀ j, (1 ≤ j < k)%Z → suffixed j ∈ fs) ∧
  ((base ∉ fs) → (suffixed 1%Z ∉ fs) → next ({[base]} ∪ fs) = suffixed 1%Z).
Proof.
  intros next base suffixed.
  assert (Hcases := λ fs', get_next_filename_cases fs' directory status order_number
                             part_number counter cam_id).
  fold base suffixed in Hcases. cbv zeta in Hcases.
  split; [|split; [|split]].
  - destruct (Hcases fs) as [[Hfree Heq]|[_ (k & _ & _ & Hnew & _)]]; [|exact Hnew].
    unfold next. by rewrite Heq.
  - intros Hfree. by destruct (Hcases fs) as [[_ Heq]|[Hex _]].
  - intros Hex. destruct (Hcases fs) as [[Hfree _]|[_ (k & Hk & Heq & _ & Hbelow)]]; [done|].
    by exists k.
  - intros Hfree Hfree1.
    destruct (Hcases ({[base]} ∪ fs)) as [[Hno _]|[_ (k & Hk & Heq & Hnew & Hbelow)]].
    { exfalso. apply Hno. apply elem_of_union_l, elem_of_singleton. done. }
    destruct (decide (k = 1%Z)) as [->|Hne]; [exact Heq|].
    exfalso. assert (H1 : suffixed 1%Z ∈ ({[base]} ∪ fs : gset string)) by (apply Hbelow; lia).
    apply elem_of_union in H1 as [H1%elem_of_singleton|H1]; [|done].
    by apply suffix_path_ne_base in H1.
Qed.

Lemma get_next_filename_first_free_witness :
  get_next_filename ∅ "out" "OK" "749274" "1568" 1 1
    = "out/OK_749274_1568Count1_CAM1.jpg" ∧
  get_next_filename {["out/OK_749274_1568Count1_CAM1.jpg"]} "out" "OK" "749274" "1568" 1 1
    = "out/OK_749274_1568Count1_CAM1_1.jpg".
Proof.
  destruct (get_next_filename_first_free ∅ "out" "OK" "749274" "1568" 1 1)
    as (_ & Hbase & _ & Hnext).
  split.
  - apply Hbase. apply not_elem_of_empty.
  - rewrite <-(right_id_L ∅ (∪) {["out/OK_749274_1568Count1_CAM1.jpg"]}).
    apply Hnext; apply not_elem_of_empty.
Defined.

End FileNamingClaim.

(** ** The analysis of a frame *)

Section Analysis.
Import Py Detection Main Vocabulary.

Lemma Rltb_true (a b : R) : Rltb a b = true ↔ (a < b)%R.
Proof. unfold Rltb. destruct (Rlt_dec a b); split; (done || lra). Qed.

Lemma Rltb_false (a b : R) : Rltb a b = false ↔ (b <= a)%R.
Proof. unfold Rltb. destruct (Rlt_dec a b); split; (done || lra). Qed.

Lemma detect_part_presence_true (img : Frame) :
  part_present img → detect_part_presence img Config.PART_DETECTION_THRESHOLD = true.
Proof. intros H. by apply Rltb_true. Qed.

Lemma detect_part_presence_false (img : Frame) :
  (Config.PART_DETECTION_THRESHOLD <= gray_mean img)%R →
  detect_part_presence img Config.PART_DETECTION_THRESHOLD = false.
Proof. intros H. by apply Rltb_false. Qed.

(** The loop over the holes writes measurements only. *)
Lemma record_holes_status (idx : nat) (holes : list Hole) (r : InspectionResult) :
  status (record_holes idx holes r) = status r.
Proof.
  revert idx r. induction holes as [|h holes IH]; intros idx r; simpl; [done|].
  rewrite IH. unfold record_hole. by destruct (idx <? 2)%nat.
Qed.

Lemma record_holes_defects (idx : nat) (holes : list Hole) (r : InspectionResult) :
  defects (record_holes idx holes r) = defects r.
Proof.
  revert idx r. induction holes as [|h holes IH]; intros idx r; simpl; [done|].
  rewrite IH. unfold record_hole. by destruct (idx <? 2)%nat.
Qed.

(** The frame without a part. *)
Lemma analyse_absent (img : Frame) (pn : string) (cam : Z) (now : Timestamp) :
  (Config.PART_DETECTION_THRESHOLD <= gray_mean img)%R →
  analyse img pn cam now
  = mk_result pn cam "NOK" (replicate 12 (PyFloat 0)) ["Part Missing"] now None.
Proof.
  intros H. unfold analyse. by rewrite (detect_part_presence_false img H).
Qed.

(** The status and the defects of a frame with a part: two checks, on the
    number of holes and on the spatter count. *)
Lemma analyse_present_status (img : Frame) (pn : string) (cam : Z) (now : Timestamp) :
  part_present img →
  status (analyse img pn cam now)
  = if (length (holes_of img) <? 4)%nat || (5 <? detect_spatter img)%nat
    then "NOK" else "OK".
Proof.
  intros H. unfold analyse, holes_of. rewrite (detect_part_presence_true img H).
  cbn [negb]. unfold Config.EXPECTED_HOLE_COUNT, Config.MAX_SPATTER_COUNT.
  set (holes := sorted hole_x (detect_holes img)).
  destruct (5 <? detect_spatter img)%nat; [by rewrite orb_true_r|].
  rewrite orb_false_r.
  destruct (Nat.ltb_spec (length holes) 4), (Nat.leb_spec 4 (length holes)); try lia.
  - done.
  - destruct (calculate_seam_lengths holes) as [[[? ?] ?] ?]. simpl.
    by rewrite record_holes_status.
Qed.

Lemma analyse_present_defects (img : Frame) (pn : string) (cam : Z) (now : Timestamp) :
  part_present img →
  defects (analyse img pn cam now)
  = (if (length (holes_of img) <? 4)%nat
     then [missing_holes_msg (length (holes_of img));
           "Insufficient holes for weld measurement"]
     else [])
    ++ (if (5 <? detect_spatter img)%nat
        then [excessive_spatter_msg (detect_spatter img)] else []).
Proof.
  intros H. unfold analyse, holes_of. rewrite (detect_part_presence_true img H).
  cbn [negb]. unfold Config.EXPECTED_HOLE_COUNT, Config.MAX_SPATTER_COUNT.
  set (holes := sorted hole_x (detect_holes img)).
  destruct (Nat.ltb_spec (length holes) 4), (Nat.leb_spec 4 (length holes)); try lia.
  - destruct (5 <? detect_spatter img)%nat; simpl; by rewrite record_holes_defects.
  - destruct (calculate_seam_lengths holes) as [[[? ?] ?] ?].
    destruct (5 <? detect_spatter img)%nat; simpl; by rewrite record_holes_defects.
Qed.

Lemma analyse_present_measurements (img : Frame) (pn : string) (cam : Z) (now : Timestamp) :
  part_present img →
  measurements (analyse img pn cam now) = slots_of (holes_of img).
Proof.
  intros H. unfold analyse, holes_of. rewrite (detect_part_presence_true img H).
  cbn [negb]. unfold Config.EXPECTED_HOLE_COUNT, Config.MAX_SPATTER_COUNT.
  set (holes := sorted hole_x (detect_holes img)).
  assert (Hm : ∀ (b : bool) msg (r : InspectionResult),
    measurements (if b then add_defect msg (set_status "NOK" r) else r) = measurements r).
  { by intros []. }
  rewrite Hm.
  destruct holes as [|h0 [|h1 [|h2 [|h3 rest]]]]; try reflexivity.
  unfold slots_of, seam_top, seam_bottom, seam_left, seam_right.
  change (4 <=? length (h0 :: h1 :: h2 :: h3 :: rest))%nat with true.
  change (length (h0 :: h1 :: h2 :: h3 :: rest) <? 4)%nat with false.
  destruct (calculate_seam_lengths (h0 :: h1 :: h2 :: h3 :: rest)) as [[[t b] l] r].
  reflexivity.
Qed.

(** The status is one of the two classifications. *)
Lemma analyse_status (img : Frame) (pn : string) (cam : Z) (now : Timestamp) :
  status (analyse img pn cam now) = "OK" ∨ status (analyse img pn cam now) = "NOK".
Proof.
  destruct (Rlt_dec (gray_mean img) Config.PART_DETECTION_THRESHOLD) as [H|H].
  - rewrite (analyse_present_status img pn cam now H).
    destruct (_ || _); auto.
  - rewrite analyse_absent by lra. by right.
Qed.

Lemma record_holes_timestamp (idx : nat) (holes : list Hole) (r : InspectionResult) :
  timestamp (record_holes idx holes r) = timestamp r.
Proof.
  revert idx r. induction holes as [|h holes IH]; intros idx r; simpl; [done|].
  rewrite IH. unfold record_hole. by destruct (idx <? 2)%nat.
Qed.

Lemma analyse_timestamp (img : Frame) (pn : string) (cam : Z) (now : Timestamp) :
  timestamp (analyse img pn cam now) = now.
Proof.
  unfold analyse. destruct (negb _); [done|].
  set (holes := sorted hole_x (detect_holes img)).
  assert (Hif : ∀ (b : bool) msg (r : InspectionResult),
    timestamp (if b then add_defect msg (set_status "NOK" r) else r) = timestamp r).
  { by intros []. }
  rewrite Hif.
  destruct (4 <=? length holes)%nat.
  - destruct (calculate_seam_lengths holes) as [[[? ?] ?] ?]. simpl.
    by rewrite Hif, record_holes_timestamp.
  - simpl. by rewrite Hif, record_holes_timestamp.
Qed.

(** The measurements of a result are floats. *)
Lemma analyse_measurements_floats (img : Frame) (pn : string) (cam : Z) (now : Timestamp) :
  Forall is_float (measurements (analyse img pn cam now)).
Proof.
  destruct (Rlt_dec (gray_mean img) Config.PART_DETECTION_THRESHOLD) as [Hp|Ha].
  - rewrite (analyse_present_measurements img pn cam now Hp). unfold slots_of.
    repeat constructor; by eexists.
  - rewrite analyse_absent by lra. simpl. repeat constructor; by eexists.
Qed.

End Analysis.

(** ** [process_and_save]: the result *)

Section Classification.
Import Py Detection Main Vocabulary.
Context {installed : Pandas}.

Lemma process_and_save_result (self : Inspector) (d : Disk) (img : Frame)
    (pn : string) (cam : Z) (now : Timestamp) :
  ∃ path, (process_and_save self d img pn cam now).1.1
          = set_image_path path (analyse img pn cam now).
Proof.
  unfold process_and_save. destruct (String.eqb _ _); by eexists.
Qed.

Lemma process_and_save_status (self : Inspector) (d : Disk) (img : Frame)
    (pn : string) (cam : Z) (now : Timestamp) :
  status (process_and_save self d img pn cam now).1.1 = status (analyse img pn cam now).
Proof. destruct (process_and_save_result self d img pn cam now) as [p ->]. done. Qed.

Lemma process_and_save_defects (self : Inspector) (d : Disk) (img : Frame)
    (pn : string) (cam : Z) (now : Timestamp) :
  defects (process_and_save self d img pn cam now).1.1 = defects (analyse img pn cam now).
Proof. destruct (process_and_save_result self d img pn cam now) as [p ->]. done. Qed.

Lemma process_and_save_measurements (self : Inspector) (d : Disk) (img : Frame)
    (pn : string) (cam : Z) (now : Timestamp) :
  measurements (process_and_save self d img pn cam now).1.1
  = measurements (analyse img pn cam now).
Proof. destruct (process_and_save_result self d img pn cam now) as [p ->]. done. Qed.

Lemma holes_of_length (img : Frame) : length (holes_of img) = length (detect_holes img).
Proof. apply sorted_length. Qed.

Lemma missing_ne_excessive (n m : nat) : missing_holes_msg n ≠ excessive_spatter_msg m.
Proof. unfold missing_holes_msg, excessive_spatter_msg. intros [=]. Qed.

(** C1, as the code has it. In a frame with a part and fewer holes than
    the expected count of 4, [process_and_save] classifies the frame NOK and
    records the defect "Missing holes: expected 4, found n", n the number of
    holes found: with 3 holes, "Missing holes: expected 4, found 3".  With 4
    holes or more it records no missing-holes defect. *)
Theorem missing_holes_nok (self : Inspector) (d : Disk) (img : Frame)
    (pn : string) (cam : Z) (now : Timestamp) :
  part_present img →
  let r := (process_and_save self d img pn cam now).1.1 in
  let found := length (detect_holes img) in
  (found < Config.EXPECTED_HOLE_COUNT →
     status r = "NOK" ∧ missing_holes_msg found ∈ defects r) ∧
  (found = 3 → "Missing holes: expected 4, found 3" ∈ defects r) ∧
  (Config.EXPECTED_HOLE_COUNT ≤ found → ∀ n, missing_holes_msg n ∉ defects r).
Proof.
  intros Hpresent r found. unfold r.
  rewrite process_and_save_status, process_and_save_defects.
  rewrite (analyse_present_status img pn cam now Hpresent).
  rewrite (analyse_present_defects img pn cam now Hpresent).
  rewrite holes_of_length. fold found. unfold Config.EXPECTED_HOLE_COUNT.
  split; [|split].
  - intros Hlt. destruct (Nat.ltb_spec found 4) as [_|?]; [|lia].
    split; [done|]. apply elem_of_app. left. apply elem_of_cons. by left.
  - intros ->. apply elem_of_app. left. apply elem_of_cons. by left.
  - intros Hge n. destruct (Nat.ltb_spec found 4) as [?|_]; [lia|].
    destruct (5 <? detect_spatter img)%nat; simpl.
    + intros [Heq|Hin%elem_of_nil]%elem_of_cons; [|done].
      by apply missing_ne_excessive in Heq.
    + apply not_elem_of_nil.
Qed.

Lemma three_holes_present : part_present three_holes_frame.
Proof. unfold part_present, three_holes_frame, Config.PART_DETECTION_THRESHOLD. simpl. lra. Qed.

End Classification.

Section MissingHolesExample.
Import Py Detection Main Vocabulary.
Local Existing Instance example_pandas.

Lemma missing_holes_nok_witness :
  part_present three_holes_frame ∧
  status (process_and_save bob empty_disk three_holes_frame "1571" 1 noon).1.1 = "NOK" ∧
  "Missing holes: expected 4, found 3"
    ∈ defects (process_and_save bob empty_disk three_holes_frame "1571" 1 noon).1.1.
Proof.
  split; [exact three_holes_present|].
  destruct (missing_holes_nok bob empty_disk three_holes_frame "1571" 1 noon
              three_holes_present) as (Hlt & H3 & _).
  split.
  - apply Hlt. unfold Config.EXPECTED_HOLE_COUNT. simpl. lia.
  - apply H3. reflexivity.
Defined.

End MissingHolesExample.

Section FiveHolesExample.
Import Py Detection Main Vocabulary.
Local Existing Instance example_pandas.

(** C1, as the specification states it, fails on five holes: the number
    of holes differs from the expected count, and the frame is OK without a
    defect. *)
Lemma five_holes_classified_ok :
  let r := (process_and_save bob empty_disk five_holes_frame "1568" 1 noon).1.1 in
  part_present five_holes_frame ∧
  length (detect_holes five_holes_frame) ≠ Config.EXPECTED_HOLE_COUNT ∧
  status r = "OK" ∧ defects r = [].
Proof.
  assert (Hpresent : part_present five_holes_frame).
  { unfold part_present, five_holes_frame, Config.PART_DETECTION_THRESHOLD. simpl. lra. }
  cbv zeta. rewrite process_and_save_status, process_and_save_defects.
  rewrite (analyse_present_status _ _ _ _ Hpresent).
  rewrite (analyse_present_defects _ _ _ _ Hpresent).
  rewrite holes_of_length.
  split; [exact Hpresent|]. split; [by compute|]. by split.
Qed.

End FiveHolesExample.

Section Measurements.
Import Py Detection Main Vocabulary.
Context {installed : Pandas}.

(** C3. In a frame with a part the twelve measurement slots follow the
    fixed layout: the holes are sorted by ascending [x]; the widths and
    heights of the holes 0 and 1 fill Value1 to Value4, those of the holes 2
    and 3 fill Value7 to Value10 (0.0 where the hole does not exist), and the
    seams derived from these holes fill Value5 (top), Value6 (bottom),
    Value11 (left) and Value12 (right). *)
Theorem measurement_slots (self : Inspector) (d : Disk) (img : Frame)
    (pn : string) (cam : Z) (now : Timestamp) :
  part_present img →
  let r := (process_and_save self d img pn cam now).1.1 in
  let holes := holes_of img in
  let seams := calculate_seam_lengths holes in
  holes ≡ₚ detect_holes img ∧
  StronglySorted (key_le hole_x) holes ∧
  measurements r =
    [ PyFloat (width_at holes 0); PyFloat (height_at holes 0);
      PyFloat (width_at holes 1); PyFloat (height_at holes 1);
      PyFloat (seam_top seams); PyFloat (seam_bottom seams);
      PyFloat (width_at holes 2); PyFloat (height_at holes 2);
      PyFloat (width_at holes 3); PyFloat (height_at holes 3);
      PyFloat (seam_left seams); PyFloat (seam_right seams) ].
Proof.
  intros Hpresent r holes seams. unfold r, holes, holes_of.
  split; [apply sorted_perm|]. split; [apply sorted_sorted|].
  rewrite process_and_save_measurements.
  exact (analyse_present_measurements img pn cam now Hpresent).
Qed.

End Measurements.

Section SlotsExample.
Import Py Detection Main Vocabulary.
Local Existing Instance example_pandas.

Lemma measurement_slots_witness :
  part_present three_holes_frame ∧
  measurements (process_and_save bob empty_disk three_holes_frame "1571" 1 noon).1.1 =
    [ PyFloat 40; PyFloat 40; PyFloat 40; PyFloat 40; PyFloat 0; PyFloat 0;
      PyFloat 40; PyFloat 40; PyFloat 0; PyFloat 0; PyFloat 0; PyFloat 0 ].
Proof.
  split; [exact three_holes_present|].
  destruct (measurement_slots bob empty_disk three_holes_frame "1571" 1 noon
              three_holes_present) as (_ & _ & ->).
  reflexivity.
Defined.

End SlotsExample.

Section FewHoles.
Import Py Detection Main Vocabulary.
Context {installed : Pandas}.

Lemma excessive_ne_insufficient (m : nat) :
  excessive_spatter_msg m ≠ "Insufficient holes for weld measurement".
Proof. unfold excessive_spatter_msg. intros [=]. Qed.

(** C5. In a frame with a part and fewer than four holes the seam lengths
    do not fail: [calculate_seam_lengths] returns [(0.0, 0.0, 0.0, 0.0)] and
    the four seam slots hold 0.0; the classification goes on, the frame is NOK
    with the defect "Insufficient holes for weld measurement", and the spatter
    check still runs: its defect is recorded exactly when the count exceeds
    the maximum. *)
Theorem few_holes_seams_default (self : Inspector) (d : Disk) (img : Frame)
    (pn : string) (cam : Z) (now : Timestamp) :
  part_present img →
  length (detect_holes img) < 4 →
  let r := (process_and_save self d img pn cam now).1.1 in
  calculate_seam_lengths (holes_of img) = (0, 0, 0, 0)%R ∧
  status r = "NOK" ∧
  "Insufficient holes for weld measurement" ∈ defects r ∧
  (measurements r !! 4 = Some (PyFloat 0) ∧ measurements r !! 5 = Some (PyFloat 0) ∧
   measurements r !! 10 = Some (PyFloat 0) ∧ measurements r !! 11 = Some (PyFloat 0)) ∧
  (excessive_spatter_msg (detect_spatter img) ∈ defects r
   ↔ Config.MAX_SPATTER_COUNT < detect_spatter img).
Proof.
  intros Hpresent Hfew r. unfold r.
  rewrite process_and_save_status, process_and_save_defects, process_and_save_measurements.
  rewrite (analyse_present_status img pn cam now Hpresent).
  rewrite (analyse_present_defects img pn cam now Hpresent).
  rewrite (analyse_present_measurements img pn cam now Hpresent).
  rewrite <-holes_of_length in Hfew.
  assert (Hseams : calculate_seam_lengths (holes_of img) = (0, 0, 0, 0)%R)
    by (by apply calculate_seam_lengths_few).
  destruct (Nat.ltb_spec (length (holes_of img)) 4) as [_|?]; [|lia].
  split; [exact Hseams|]. split; [done|]. split.
  { apply elem_of_app. left. rewrite !elem_of_cons. auto. }
  split.
  { unfold slots_of. rewrite Hseams. done. }
  unfold Config.MAX_SPATTER_COUNT.
  destruct (Nat.ltb_spec 5 (detect_spatter img)) as [Hgt|Hle]; split.
  - done.
  - intros _. apply elem_of_app. right. apply elem_of_cons. by left.
  - rewrite app_nil_r, !elem_of_cons, elem_of_nil.
    intros [Heq|[Heq|[]]].
    + symmetry in Heq. by apply missing_ne_excessive in Heq.
    + by apply excessive_ne_insufficient in Heq.
  - lia.
Qed.

End FewHoles.

Section FewHolesExample.
Import Py Detection Main Vocabulary.
Local Existing Instance example_pandas.

Lemma few_holes_seams_default_witness :
  part_present three_holes_frame ∧
  length (detect_holes three_holes_frame) < 4 ∧
  status (process_and_save bob empty_disk three_holes_frame "1571" 1 noon).1.1 = "NOK" ∧
  defects (process_and_save bob empty_disk three_holes_frame "1571" 1 noon).1.1
  = [ "Missing holes: expected 4, found 3"; "Insufficient holes for weld measurement" ].
Proof.
  split; [exact three_holes_present|]. split; [simpl; lia|].
  assert (Hfew : length (detect_holes three_holes_frame) < 4) by (simpl; lia).
  destruct (few_holes_seams_default bob empty_disk three_holes_frame "1571" 1 noon
              three_holes_present Hfew) as (_ & Hstatus & _).
  split; [exact Hstatus|].
  rewrite process_and_save_defects.
  rewrite (analyse_present_defects _ _ _ _ three_holes_present). reflexivity.
Defined.

End FewHolesExample.

Section PartMissing.
Import Py Detection Main Vocabulary.
Context {installed : Pandas}.

(** C10. In a frame whose mean grey level is at or above the threshold,
    [process_and_save] records the one defect "Part Missing" and leaves the
    twelve measurements at 0.0.  Holes, seams and spatter are not looked at:
    any two such frames, whatever their circles and contours, give the same
    result and the same state, so no spatter or missing-holes defect can be
    added. *)
Theorem part_missing_only (self : Inspector) (d : Disk) (img : Frame)
    (pn : string) (cam : Z) (now : Timestamp) :
  (Config.PART_DETECTION_THRESHOLD <= gray_mean img)%R →
  let r := (process_and_save self d img pn cam now).1.1 in
  status r = "NOK" ∧
  defects r = ["Part Missing"] ∧
  measurements r = replicate 12 (PyFloat 0) ∧
  ∀ img', (Config.PART_DETECTION_THRESHOLD <= gray_mean img')%R →
          process_and_save self d img' pn cam now = process_and_save self d img pn cam now.
Proof.
  intros Habsent r. unfold r.
  rewrite process_and_save_status, process_and_save_defects, process_and_save_measurements.
  rewrite (analyse_absent img pn cam now Habsent).
  repeat split.
  intros img' Habsent'. unfold process_and_save.
  by rewrite (analyse_absent img pn cam now Habsent), (analyse_absent img' pn cam now Habsent').
Qed.

End PartMissing.

Section PartMissingExample.
Import Py Detection Main Vocabulary.
Local Existing Instance example_pandas.

Lemma part_missing_only_witness :
  (Config.PART_DETECTION_THRESHOLD <= gray_mean empty_fixture_frame)%R ∧
  defects (process_and_save bob empty_disk empty_fixture_frame "1570" 1 noon).1.1
  = ["Part Missing"].
Proof.
  assert (H : (Config.PART_DETECTION_THRESHOLD <= gray_mean empty_fixture_frame)%R).
  { unfold Config.PART_DETECTION_THRESHOLD. simpl. lra. }
  split; [exact H|].
  exact (proj1 (proj2 (part_missing_only bob empty_disk empty_fixture_frame "1570" 1 noon H))).
Defined.

End PartMissingExample.

Section CaptureBranch.
Import Py Detection Main Vocabulary.
Context {installed : Pandas}.

(** The branch of [capture_and_process] for [None], which the camera
    controller of the repository never hands over
    ([capture_image_never_none]): the dictionary of status "ERROR" with the
    message "Image capture failed" is returned, and the inspector and the
    disk stay as they were. *)
Lemma capture_failure_is_error (self : Inspector) (d : Disk)
    (pn : string) (cam : Z) (now : Timestamp) :
  let out := capture_and_process self d None pn cam now in
  out.1.1 = ErrorDict "ERROR" "Image capture failed" ∧
  ok_counter out.1.2 = ok_counter self ∧ nok_counter out.1.2 = nok_counter self ∧
  paths out.2 = paths d ∧ csv_rows out.2 = csv_rows d ∧
  ∀ img, ∃ r,
    (capture_and_process self d (Some img) pn cam now).1.1 = Processed r ∧
    r = (process_and_save self d img pn cam now).1.1 ∧
    (status r = "OK" ∨ status r = "NOK").
Proof.
  cbv zeta. repeat split.
  intros img. exists (process_and_save self d img pn cam now).1.1.
  split; [|split; [done|]].
  - unfold capture_and_process.
    by destruct (process_and_save self d img pn cam now) as [[r self'] d'].
  - rewrite process_and_save_status. apply analyse_status.
Qed.

(** The camera controller of the repository never hands [None] back: when
    the camera fails it answers with the synthetic test part. *)
Lemma capture_image_never_none (is_connected connect_ok : bool)
    (read : Camera.read_result) (test_part : Frame) :
  is_Some (Camera.capture_image is_connected connect_ok read test_part).
Proof.
  unfold Camera.capture_image.
  destruct (negb is_connected && negb connect_ok); [by eexists|].
  destruct read; by eexists.
Qed.

End CaptureBranch.

(** ** Counters *)

Section Counters.
Import Py Detection Main Vocabulary.
Context {installed : Pandas}.

Lemma process_and_save_counters (self : Inspector) (d : Disk) (img : Frame)
    (pn : string) (cam : Z) (now : Timestamp) :
  let out := process_and_save self d img pn cam now in
  (status out.1.1 = "OK" ∧
   ok_counter out.1.2 = (ok_counter self + 1)%Z ∧ nok_counter out.1.2 = nok_counter self) ∨
  (status out.1.1 = "NOK" ∧
   ok_counter out.1.2 = ok_counter self ∧ nok_counter out.1.2 = (nok_counter self + 1)%Z).
Proof.
  cbv zeta. rewrite process_and_save_status. unfold process_and_save.
  destruct (analyse_status img pn cam now) as [H|H]; rewrite H; [left|right]; done.
Qed.

Lemma count_nok_cons (r : InspectionResult) (rs : list InspectionResult) :
  count_nok (r :: rs) = (if decide (status r = "NOK") then 1 else 0) + count_nok rs.
Proof. unfold count_nok. rewrite filter_cons. by case_decide. Qed.

Lemma run_session_cons (self : Inspector) (d : Disk) (j : Job) (jobs : list Job) :
  let step := process_and_save self d (job_img j) (job_part j) (job_cam j) (job_now j) in
  let out := run_session step.1.2 step.2 jobs in
  run_session self d (j :: jobs) = (step.1.1 :: out.1.1, out.1.2, out.2).
Proof.
  cbv zeta. simpl.
  destruct (process_and_save self d _ _ _ _) as [[r self'] d']. simpl.
  by destruct (run_session self' d' jobs) as [[rs self''] d''].
Qed.

Lemma run_session_counters (self : Inspector) (d : Disk) (jobs : list Job) :
  let out := run_session self d jobs in
  length out.1.1 = length jobs ∧
  count_nok out.1.1 = length (filter (λ j, job_status j = "NOK") jobs) ∧
  ok_counter out.1.2
  = (ok_counter self + Z.of_nat (length jobs) - Z.of_nat (count_nok out.1.1))%Z ∧
  nok_counter out.1.2 = (nok_counter self + Z.of_nat (count_nok out.1.1))%Z.
Proof.
  revert self d. induction jobs as [|j jobs IH]; intros self d.
  - simpl. unfold count_nok. simpl. repeat split; lia.
  - cbv zeta. rewrite run_session_cons. cbv zeta. cbn [fst snd].
    set (step := process_and_save self d (job_img j) (job_part j) (job_cam j) (job_now j)).
    destruct (IH step.1.2 step.2) as (Hlen & Hcount & Hok & Hnok).
    rewrite Hok, Hnok, count_nok_cons, filter_cons. cbn [length]. rewrite Hlen, Hcount.
    assert (Hst : status step.1.1 = job_status j) by apply process_and_save_status.
    destruct (process_and_save_counters self d (job_img j) (job_part j) (job_cam j) (job_now j))
      as [(Hs & Ho & Hn)|(Hs & Ho & Hn)]; fold step in Hs, Ho, Hn;
      rewrite Ho, Hn, <-Hst, Hs; repeat case_decide; try done; cbn [length];
      repeat split; lia.
Qed.

(** C2. From a fresh session, whose two counters are 0, after N calls of
    [process_and_save] of which k are classified NOK, [ok_counter] is N - k
    and [nok_counter] is k, in whatever order the N frames come; every call
    adds exactly 1 to exactly one of the two counters and leaves the other
    one as it is, so no counter is ever reset or decreased. *)
Theorem counters_after_session (user order_number output_dir : string)
    (d : Disk) (jobs : list Job) :
  let self0 := Inspector__init__ user order_number output_dir in
  let out := run_session self0 d jobs in
  let N := Z.of_nat (length jobs) in
  let k := Z.of_nat (count_nok out.1.1) in
  ok_counter self0 = 0%Z ∧ nok_counter self0 = 0%Z ∧
  length out.1.1 = length jobs ∧
  ok_counter out.1.2 = (N - k)%Z ∧ nok_counter out.1.2 = k ∧
  (∀ d' jobs', jobs' ≡ₚ jobs →
     ok_counter (run_session self0 d' jobs').1.2 = ok_counter out.1.2 ∧
     nok_counter (run_session self0 d' jobs').1.2 = nok_counter out.1.2) ∧
  (∀ self d1 img pn cam now,
     let step := process_and_save self d1 img pn cam now in
     (status step.1.1 = "OK" ∧
      ok_counter step.1.2 = (ok_counter self + 1)%Z ∧
      nok_counter step.1.2 = nok_counter self) ∨
     (status step.1.1 = "NOK" ∧
      ok_counter step.1.2 = ok_counter self ∧
      nok_counter step.1.2 = (nok_counter self + 1)%Z)).
Proof.
  intros self0 out N k.
  destruct (run_session_counters self0 d jobs) as (Hlen & Hcount & Hok & Hnok).
  fold out in Hlen, Hcount, Hok, Hnok.
  split; [done|]. split; [done|]. split; [exact Hlen|].
  split; [rewrite Hok; unfold N, k; simpl; lia|].
  split; [rewrite Hnok; unfold k; simpl; lia|].
  split; [|apply process_and_save_counters].
  intros d' jobs' Hperm.
  destruct (run_session_counters self0 d' jobs') as (_ & Hcount' & Hok' & Hnok').
  rewrite Hok, Hnok, Hok', Hnok', Hcount, Hcount', Hperm. done.
Qed.

Lemma example_jobs_nok :
  length (filter (λ j, job_status j = "NOK") example_jobs) = 2.
Proof.
  assert (H5 : job_status (mk_job five_holes_frame "1568" 1 noon) = "OK").
  { unfold job_status. simpl. rewrite analyse_present_status; [done|].
    unfold part_present, Config.PART_DETECTION_THRESHOLD. simpl. lra. }
  assert (H3 : job_status (mk_job three_holes_frame "1571" 1 noon) = "NOK").
  { unfold job_status. simpl. by rewrite analyse_present_status by exact three_holes_present. }
  assert (H0 : job_status (mk_job empty_fixture_frame "1570" 1 noon) = "NOK").
  { unfold job_status. simpl. rewrite analyse_absent; [done|].
    unfold Config.PART_DETECTION_THRESHOLD. simpl. lra. }
  unfold example_jobs. rewrite !filter_cons, H5, H3, H0. reflexivity.
Qed.

End Counters.

Section CountersExample.
Import Py Detection Main Vocabulary.
Local Existing Instance example_pandas.

Lemma counters_after_session_witness :
  ok_counter (run_session bob empty_disk example_jobs).1.2 = 1%Z ∧
  nok_counter (run_session bob empty_disk example_jobs).1.2 = 2%Z.
Proof.
  destruct (counters_after_session "Bob" "749274" "." empty_disk example_jobs)
    as (_ & _ & _ & Hok & Hnok & _).
  destruct (run_session_counters bob empty_disk example_jobs) as (_ & Hcount & _).
  rewrite example_jobs_nok in Hcount.
  unfold bob. rewrite Hok, Hnok. unfold bob in Hcount. rewrite Hcount. done.
Defined.

End CountersExample.

(** ** The CSV file *)

Section Csv.
Import Py Detection Main Vocabulary.
Local Open Scope R_scope.

Lemma round2_rounded (x : R) : rounded_to_2_places x (round2 x).
Proof.
  unfold rounded_to_2_places, round2. split; [by eexists|].
  unfold round_half_even.
  destruct (base_Int_part (x * 100)) as [Hlo Hhi].
  set (f := Int_part (x * 100)) in *.
  destruct (Rlt_dec (x * 100 - IZR f) (1 / 2)) as [Hd|Hd].
  - apply Rabs_le. split; lra.
  - destruct (Rlt_dec (1 / 2) (x * 100 - IZR f)) as [Hu|Hu].
    + rewrite plus_IZR. apply Rabs_le. split; lra.
    + destruct (Z.even f); [|rewrite plus_IZR]; apply Rabs_le; split; lra.
Qed.

(** A value that has two decimals already is kept. *)
Lemma round2_two_decimals (n : Z) : round2 (IZR n / 100) = IZR n / 100.
Proof.
  unfold round2, round_half_even.
  replace (IZR n / 100 * 100) with (IZR n) by lra.
  assert (Hn : Int_part (IZR n) = n).
  { symmetry. apply Int_part_spec. lra. }
  rewrite Hn. destruct (Rlt_dec (IZR n - IZR n) (1 / 2)) as [_|Hd]; [done|lra].
Qed.

Lemma csv_value_spec (v : pyval) :
  match csv_value v with
  | inr y => value_written v y
  | inl e => e = OverflowError ∧ ∃ n, v = PyInt n ∧ (float_overflow ≤ Z.abs n)%Z
  end.
Proof.
  unfold csv_value, value_written, float.
  destruct v as [x|negative| |n| |s [[x|negative|]|]]; cbn;
    try done; try (eexists; split; [done|apply round2_rounded]).
  destruct (Z.leb_spec float_overflow (Z.abs n)); cbn.
  - split; [done|]. by exists n.
  - eexists. split; [done|apply round2_rounded].
Qed.

Lemma csv_values_inr (ms : list pyval) (values : list pyfloat) :
  csv_values ms = inr values → Forall2 value_written ms values.
Proof.
  revert values. induction ms as [|v ms IH]; intros values; simpl.
  - intros [= <-]. constructor.
  - pose proof (csv_value_spec v) as Hv.
    destruct (csv_value v) as [e|y]; [done|].
    destruct (csv_values ms) as [e|ys]; [done|].
    intros [= <-]. constructor; [exact Hv|by apply IH].
Qed.

Lemma csv_values_inl (ms : list pyval) (e : raised) :
  csv_values ms = inl e →
  e = OverflowError ∧ ∃ n, PyInt n ∈ ms ∧ (float_overflow ≤ Z.abs n)%Z.
Proof.
  induction ms as [|v ms IH]; simpl; [done|].
  pose proof (csv_value_spec v) as Hv.
  destruct (csv_value v) as [e'|y].
  - intros [= <-]. destruct Hv as (-> & n & -> & Hn).
    split; [done|]. exists n. split; [by left|done].
  - destruct (csv_values ms) as [e'|ys]; [|done].
    intros [= <-]. destruct (IH eq_refl) as (-> & n & Hin & Hn).
    split; [done|]. exists n. split; [by right|done].
Qed.

(** On floats [float()] raises nothing: the loop ends with as many values
    as there are measurements. *)
Lemma csv_values_floats (ms : list pyval) :
  Forall is_float ms →
  csv_values ms = inr (row_values ms) ∧ length (row_values ms) = length ms.
Proof.
  unfold row_values. induction 1 as [|v ms [x ->] _ [IH Hlen]]; simpl; [done|].
  rewrite IH. simpl. split; [done|]. by rewrite Hlen.
Qed.

End Csv.

Section CsvAppend.
Import Py Detection Main Vocabulary PosixPath FileUtils.
Context {installed : Pandas}.

Lemma imwrite_csv_rows (path : string) (d : Disk) :
  csv_rows (imwrite path d) = csv_rows d.
Proof. unfold imwrite. by case_bool_decide. Qed.

Lemma numbered_nil : numbered [].
Proof. intros i row H. by rewrite lookup_nil in H. Qed.

Lemma numbered_snoc (rows : list CsvRow) (row : CsvRow) :
  numbered rows → col_Number row = (Z.of_nat (length rows) + 1)%Z → numbered (rows ++ [row]).
Proof.
  intros Hrows Hrow i r Hi.
  apply lookup_app_Some in Hi as [Hi|[Hge Hi]]; [by apply Hrows|].
  apply list_lookup_singleton_Some in Hi as [Hi <-].
  rewrite Hrow. f_equal. lia.
Qed.

Lemma numbered_increasing (rows : list CsvRow) : numbered rows → increasing_by_1 rows.
Proof.
  intros Hrows i a b Ha Hb. rewrite (Hrows _ _ Ha), (Hrows _ _ Hb). lia.
Qed.

(** *** What [read_csv] keeps *)

Lemma read_csv_length (rows : list CsvRow) : length (read_csv rows) = length rows.
Proof. unfold read_csv. by rewrite length_map. Qed.

Lemma read_csv_lookup (rows : list CsvRow) (i : nat) (row' : CsvRow) :
  read_csv rows !! i = Some row' →
  ∃ row, rows !! i = Some row ∧
         col_Number row' = col_Number row ∧ col_Counter row' = col_Counter row ∧
         col_Values row' = col_Values row ∧
         col_OK_NOK row' = reread (map col_OK_NOK rows) (col_OK_NOK row).
Proof.
  unfold read_csv. rewrite list_lookup_fmap.
  destruct (rows !! i) as [row|]; [|done].
  intros [= <-]. by exists row.
Qed.

Lemma read_csv_lookup_Some (rows : list CsvRow) (i : nat) (row : CsvRow) :
  rows !! i = Some row →
  ∃ row', read_csv rows !! i = Some row' ∧
          col_Number row' = col_Number row ∧ col_Counter row' = col_Counter row ∧
          col_Values row' = col_Values row.
Proof.
  intros Hi. unfold read_csv. rewrite list_lookup_fmap, Hi. by eexists.
Qed.

Lemma numbered_read_csv (rows : list CsvRow) : numbered rows → numbered (read_csv rows).
Proof.
  intros Hnum i row' Hi.
  apply read_csv_lookup in Hi as (row & Hrow & -> & _). by apply Hnum.
Qed.

Lemma reread_statuses (column : list string) (cell : string) :
  Forall (λ c, c = "OK" ∨ c = "NOK") column → reread column cell = cell.
Proof.
  intros Hall. unfold reread.
  assert (Htest : forallb (λ c, String.eqb c "OK" || String.eqb c "NOK") column = true).
  { apply forallb_forall. intros c Hc%list_elem_of_In.
    rewrite Forall_forall in Hall. by destruct (Hall c Hc) as [-> | ->]. }
  by rewrite Htest.
Qed.

(** In a file whose rows are all classified OK or NOK the classifications
    and the counters are read back as they were written. *)
Lemma read_csv_statuses (rows : list CsvRow) :
  statuses_known rows →
  map col_OK_NOK (read_csv rows) = map col_OK_NOK rows ∧
  map col_Counter (read_csv rows) = map col_Counter rows.
Proof.
  intros Hknown. unfold read_csv. rewrite !map_map. cbn [col_OK_NOK col_Counter].
  split; [|done]. apply map_ext_in. intros row _. apply reread_statuses.
  apply Forall_map. exact Hknown.
Qed.

(** *** The disk after [_save_to_csv] *)

Lemma save_to_csv_inr (self : Inspector) (d d' : Disk) (result : InspectionResult)
    (counter_val : Z) :
  _save_to_csv self d result counter_val = inr d' →
  ∃ values,
    csv_values (measurements result) = inr values ∧
    d' = mk_disk (paths d)
           (read_csv (csv_rows d)
            ++ [mk_row (Z.of_nat (length (csv_rows d)) + 1) (status result)
                  (order_number self) counter_val (date_str (timestamp result))
                  (time_str (timestamp result)) values (user self)]).
Proof.
  unfold _save_to_csv. rewrite read_csv_length.
  destruct (csv_values (measurements result)) as [e|values]; [done|].
  intros [= <-]. by exists values.
Qed.

Lemma save_to_csv_floats (self : Inspector) (d : Disk) (result : InspectionResult)
    (counter_val : Z) :
  Forall is_float (measurements result) →
  _save_to_csv self d result counter_val
  = inr (mk_disk (paths d)
           (read_csv (csv_rows d)
            ++ [mk_row (Z.of_nat (length (csv_rows d)) + 1) (status result)
                  (order_number self) counter_val (date_str (timestamp result))
                  (time_str (timestamp result)) (row_values (measurements result))
                  (user self)])).
Proof.
  intros Hfloats. unfold _save_to_csv. rewrite read_csv_length.
  by destruct (csv_values_floats _ Hfloats) as [-> _].
Qed.

(** The steps of [process_and_save] after the analysis, one after the other:
    the counter of the status moves, the image is written under the next
    free name, the row is appended to the file as pandas read it. *)
Lemma process_and_save_steps (self : Inspector) (d : Disk) (img : Frame)
    (pn : string) (cam : Z) (now : Timestamp) :
  let result := analyse img pn cam now in
  let ok := String.eqb (status result) "OK" in
  let self' :=
    if ok
    then mk_inspector (user self) (order_number self) (ok_counter self + 1)
           (nok_counter self) (order_dir self)
    else mk_inspector (user self) (order_number self) (ok_counter self)
           (nok_counter self + 1) (order_dir self) in
  let counter_val := counter_of (status result) self' in
  let path := get_next_filename (paths d) (order_dir self) (status result)
                (order_number self) pn counter_val cam in
  process_and_save self d img pn cam now
  = (set_image_path path result, self',
     mk_disk (paths (imwrite path d))
       (read_csv (csv_rows d)
        ++ [mk_row (Z.of_nat (length (csv_rows d)) + 1) (status result)
              (order_number self) counter_val (date_str now) (time_str now)
              (row_values (measurements result)) (user self)])).
Proof.
  cbv zeta. unfold process_and_save, counter_of.
  pose proof (analyse_measurements_floats img pn cam now) as Hfloats.
  pose proof (analyse_timestamp img pn cam now) as Hnow.
  destruct (String.eqb (status (analyse img pn cam now)) "OK");
    rewrite save_to_csv_floats by exact Hfloats;
    cbn [measurements timestamp status set_image_path order_number user];
    by rewrite imwrite_csv_rows, Hnow.
Qed.

(** [_save_to_csv] returns in [process_and_save]: the other branch of the
    model is never taken. *)
Lemma process_and_save_saves (self : Inspector) (d : Disk) (img : Frame)
    (pn : string) (cam : Z) (now : Timestamp) :
  ∃ self' path counter_val,
    _save_to_csv self' (imwrite path d) (set_image_path path (analyse img pn cam now))
      counter_val
    = inr (process_and_save self d img pn cam now).2.
Proof.
  pose proof (process_and_save_steps self d img pn cam now) as Hsteps.
  cbv zeta in Hsteps. rewrite Hsteps. cbn [snd]. do 3 eexists.
  rewrite save_to_csv_floats by apply analyse_measurements_floats.
  cbn [measurements timestamp status set_image_path order_number user].
  by rewrite imwrite_csv_rows, analyse_timestamp.
Qed.

Lemma process_and_save_rows (self : Inspector) (d : Disk) (img : Frame)
    (pn : string) (cam : Z) (now : Timestamp) :
  ∃ row, csv_rows (process_and_save self d img pn cam now).2
         = read_csv (csv_rows d) ++ [row] ∧
         col_Number row = (Z.of_nat (length (csv_rows d)) + 1)%Z.
Proof.
  pose proof (process_and_save_steps self d img pn cam now) as Hsteps.
  cbv zeta in Hsteps. rewrite Hsteps. cbn [snd csv_rows]. by eexists.
Qed.

Lemma process_and_save_numbered (self : Inspector) (d : Disk) (img : Frame)
    (pn : string) (cam : Z) (now : Timestamp) :
  numbered (csv_rows d) →
  numbered (csv_rows (process_and_save self d img pn cam now).2) ∧
  length (csv_rows (process_and_save self d img pn cam now).2) = S (length (csv_rows d)).
Proof.
  intros Hnum.
  destruct (process_and_save_rows self d img pn cam now) as [row [-> Hrow]]. split.
  - apply numbered_snoc; [by apply numbered_read_csv|]. by rewrite read_csv_length.
  - rewrite length_app, read_csv_length. simpl. lia.
Qed.

End CsvAppend.

Section SessionCsv.
Import Py Detection Main Vocabulary.
Context {installed : Pandas}.

Lemma run_session_numbered (self : Inspector) (d : Disk) (jobs : list Job) :
  numbered (csv_rows d) →
  numbered (csv_rows (run_session self d jobs).2) ∧
  length (csv_rows (run_session self d jobs).2) = length (csv_rows d) + length jobs.
Proof.
  revert self d. induction jobs as [|j jobs IH]; intros self d Hnum.
  - simpl. split; [done|lia].
  - rewrite run_session_cons. cbv zeta. cbn [snd].
    destruct (process_and_save_numbered self d (job_img j) (job_part j) (job_cam j)
                (job_now j) Hnum) as [Hnum' Hlen'].
    destruct (IH (process_and_save self d (job_img j) (job_part j) (job_cam j) (job_now j)).1.2
                _ Hnum') as [Hnum'' Hlen''].
    split; [exact Hnum''|]. rewrite Hlen'', Hlen'. simpl. lia.
Qed.

(** A session on a new order: N rows, numbered from 1 to N. *)
Corollary session_rows_numbered (self : Inspector) (files : gset string) (jobs : list Job) :
  numbered (csv_rows (run_session self (mk_disk files []) jobs).2) ∧
  length (csv_rows (run_session self (mk_disk files []) jobs).2) = length jobs.
Proof.
  destruct (run_session_numbered self (mk_disk files []) jobs numbered_nil) as [Hnum Hlen].
  split; [exact Hnum|]. by rewrite Hlen.
Qed.

End SessionCsv.

(** ** What [_save_to_csv] does to the file *)

Section CsvFrame.
Import Py Detection Main Vocabulary.
Context {installed : Pandas}.

Lemma csv_values_overflow (ms : list pyval) (m : Z) :
  PyInt m ∈ ms → (float_overflow ≤ Z.abs m)%Z → csv_values ms = inl OverflowError.
Proof.
  intros Hin Hm. induction ms as [|v ms IH]; [by apply elem_of_nil in Hin|].
  apply elem_of_cons in Hin as [<-|Hin]; simpl.
  - unfold csv_value, float. by destruct (Z.leb_spec float_overflow (Z.abs m)); [|lia].
  - rewrite (IH Hin). pose proof (csv_value_spec v) as Hv.
    destruct (csv_value v) as [e|y]; [|done]. by destruct Hv as [-> _].
Qed.

(** When [_save_to_csv] returns, the file is one row longer and no path has
    changed; every row that was there is at its place with its number, its
    counter and its values (what its text cells have become is pandas'
    doing), and with its classification too in a file of OK and NOK rows;
    the new row comes last, with the former count of rows plus 1 as its
    number, so that the numbers go on growing by 1, and with every
    measurement rounded to two places, or 0.0 for [None] and for a text
    that is no number.  The call ends by [OverflowError], before anything
    is written, exactly when a measurement is an int too large for a
    float. *)
Theorem save_to_csv_frame (self : Inspector) (d : Disk) (result : InspectionResult)
    (counter_val : Z) :
  let n := length (csv_rows d) in
  (_save_to_csv self d result counter_val = inl OverflowError
   ↔ ∃ m, PyInt m ∈ measurements result ∧ (float_overflow ≤ Z.abs m)%Z) ∧
  match _save_to_csv self d result counter_val with
  | inl e => e = OverflowError
  | inr d' =>
      paths d' = paths d ∧
      length (csv_rows d') = S n ∧
      (∀ i row, csv_rows d !! i = Some row →
         ∃ row', csv_rows d' !! i = Some row' ∧
                 col_Number row' = col_Number row ∧ col_Counter row' = col_Counter row ∧
                 col_Values row' = col_Values row ∧
                 (statuses_known (csv_rows d) → col_OK_NOK row' = col_OK_NOK row)) ∧
      (∃ row,
         csv_rows d' !! n = Some row ∧
         col_Number row = (Z.of_nat n + 1)%Z ∧
         col_OK_NOK row = status result ∧ col_Ordernumber row = order_number self ∧
         col_Counter row = counter_val ∧ col_User row = user self ∧
         Forall2 value_written (measurements result) (col_Values row)) ∧
      (numbered (csv_rows d) → numbered (csv_rows d') ∧ increasing_by_1 (csv_rows d'))
  end.
Proof.
  intros n. split.
  { split.
    - unfold _save_to_csv.
      destruct (csv_values (measurements result)) as [e|values] eqn:Hvalues; [|done].
      intros _. by destruct (csv_values_inl _ _ Hvalues) as [_ ?].
    - intros (m & Hin & Hm). unfold _save_to_csv.
      by rewrite (csv_values_overflow _ m Hin Hm). }
  destruct (_save_to_csv self d result counter_val) as [e|d'] eqn:Hsave.
  { unfold _save_to_csv in Hsave.
    destruct (csv_values (measurements result)) as [e'|values] eqn:Hvalues; [|done].
    injection Hsave as <-. by destruct (csv_values_inl _ _ Hvalues) as [-> _]. }
  apply save_to_csv_inr in Hsave as (values & Hvalues & ->). cbn [paths csv_rows].
  split; [done|]. split; [rewrite length_app, read_csv_length; simpl; lia|].
  split.
  { intros i row Hi.
    pose proof (lookup_lt_Some _ _ _ Hi) as Hlt.
    destruct (read_csv_lookup_Some _ _ _ Hi) as (row' & Hrow' & HN & HC & HV).
    exists row'. rewrite lookup_app_l by (by rewrite read_csv_length).
    split; [exact Hrow'|]. split; [exact HN|]. split; [exact HC|]. split; [exact HV|].
    intros Hknown.
    apply read_csv_lookup in Hrow' as (row0 & Hrow0 & _ & _ & _ & ->).
    rewrite Hi in Hrow0. injection Hrow0 as <-.
    apply reread_statuses, Forall_map. exact Hknown. }
  split.
  { eexists. split.
    - rewrite lookup_app_r by (rewrite read_csv_length; fold n; lia).
      rewrite read_csv_length. fold n. by rewrite Nat.sub_diag.
    - cbn. repeat split; try done. by apply csv_values_inr. }
  intros Hnum.
  assert (Hnum' : numbered (read_csv (csv_rows d) ++
    [mk_row (Z.of_nat (length (csv_rows d)) + 1) (status result) (order_number self)
       counter_val (date_str (timestamp result)) (time_str (timestamp result)) values
       (user self)])).
  { apply numbered_snoc; [by apply numbered_read_csv|]. by rewrite read_csv_length. }
  split; [exact Hnum' | by apply numbered_increasing].
Qed.

End CsvFrame.

Section CsvExamples.
Import Py Detection Main Vocabulary.
Local Existing Instance example_pandas.

(** The values written for a float, [None], a text that is no number, a
    text that is one, and NaN. *)
Example save_to_csv_mixed :
  ∃ d' row, _save_to_csv bob empty_disk mixed_result 1 = inr d' ∧
            csv_rows d' = [row] ∧ col_Number row = 1%Z ∧
            col_Values row
            = [Finite (6512 / 100); Finite 0; Finite 0; Finite (314 / 100); NaN].
Proof.
  unfold _save_to_csv, mixed_result. cbn.
  do 2 eexists. split; [reflexivity|]. split; [reflexivity|]. split; [done|]. cbn.
  rewrite (round2_two_decimals 6512).
  replace (round2 (314159 / 100000)) with (314 / 100)%R; [done|].
  unfold round2, round_half_even.
  assert (Hint : Int_part (314159 / 100000 * 100) = 314%Z).
  { symmetry. apply Int_part_spec. lra. }
  rewrite Hint.
  destruct (Rlt_dec (314159 / 100000 * 100 - 314) (1 / 2)) as [_|Hd]; [done|lra].
Qed.

(** An int too large for a float ends the call before the file is
    written. *)
Example save_to_csv_huge :
  _save_to_csv bob empty_disk huge_result 1 = inl OverflowError.
Proof. unfold _save_to_csv, huge_result. cbn [measurements csv_values csv_value float]. by vm_compute (float_overflow <=? Z.abs (10 ^ 400))%Z. Qed.

(** C6, on the code: the second row appended for the order 007 of the
    user NA rewrites the first one, which was written with these two texts
    and comes back with the order number 7 and no user. *)
Theorem second_append_rewrites_first_row :
  let self := Inspector__init__ "NA" "007" "." in
  let result := mk_result "1568" 1 "OK" (replicate 12 (PyFloat 0)) [] noon None in
  ∃ d1 d2 row1 row1' row2,
    _save_to_csv self empty_disk result 1 = inr d1 ∧ csv_rows d1 = [row1] ∧
    col_Ordernumber row1 = "007" ∧ col_User row1 = "NA" ∧
    _save_to_csv self d1 result 2 = inr d2 ∧ csv_rows d2 = [row1'; row2] ∧
    col_Ordernumber row1' = "7" ∧ col_User row1' = "" ∧
    col_Ordernumber row2 = "007" ∧ col_User row2 = "NA" ∧
    row1' ≠ row1.
Proof.
  cbv zeta. unfold _save_to_csv. cbn.
  do 5 eexists. split; [reflexivity|]. split; [reflexivity|].
  split; [done|]. split; [done|]. cbn.
  split; [reflexivity|]. split; [reflexivity|]. cbn.
  split; [by vm_compute|]. split; [by vm_compute|]. split; [done|]. split; [done|].
  intros Heq. apply (f_equal col_User) in Heq. cbn in Heq. by vm_compute in Heq.
Qed.

End CsvExamples.

(** ** A capture that fails *)

Section AcquisitionFailure.
Import Py Detection Main Vocabulary.
Context {installed : Pandas}.

(** C9, on the code: with a camera that cannot be opened, and with an open
    camera that gives no frame, [capture_image] hands back the synthetic
    test part and not [None]; [capture_and_process] then inspects that part
    as if it were a captured frame: the outcome is a processed result of
    status "OK" or "NOK" and not the dictionary of status "ERROR", one of
    the two counters has moved and the file has one row more. *)
Theorem acquisition_failure_is_processed (test_part : Frame) (self : Inspector) (d : Disk)
    (pn : string) (cam : Z) (now : Timestamp) :
  let closed := Camera.capture_image false false Camera.ReadNoFrame test_part in
  let silent := Camera.capture_image true true Camera.ReadNoFrame test_part in
  let out := capture_and_process self d closed pn cam now in
  closed = Some test_part ∧ silent = Some test_part ∧
  (∃ r, out.1.1 = Processed r ∧ (status r = "OK" ∨ status r = "NOK")) ∧
  out.1.1 ≠ ErrorDict "ERROR" "Image capture failed" ∧
  (ok_counter out.1.2 + nok_counter out.1.2 = ok_counter self + nok_counter self + 1)%Z ∧
  length (csv_rows out.2) = S (length (csv_rows d)).
Proof.
  cbv zeta. cbn [Camera.capture_image negb andb]. unfold capture_and_process.
  pose proof (process_and_save_counters self d test_part pn cam now) as Hcount.
  pose proof (process_and_save_rows self d test_part pn cam now) as (row & Hrows & _).
  pose proof (process_and_save_status self d test_part pn cam now) as Hstatus.
  pose proof (analyse_status test_part pn cam now) as Hcases.
  destruct (process_and_save self d test_part pn cam now) as [[r self'] d'].
  cbn [fst snd] in *.
  split; [done|]. split; [done|].
  split; [exists r; split; [done|by rewrite Hstatus]|].
  split; [done|]. split.
  - destruct Hcount as [(_ & -> & ->)|(_ & -> & ->)]; lia.
  - rewrite Hrows, length_app, read_csv_length. simpl. lia.
Qed.

End AcquisitionFailure.

(** * Further properties of the code *)

(** ** The classification *)

Section Verdict.
Import Py Detection Main Vocabulary.
Context {installed : Pandas}.

Lemma excessive_ne_part_missing (m : nat) : excessive_spatter_msg m ≠ "Part Missing".
Proof. unfold excessive_spatter_msg. intros [=]. Qed.

Lemma missing_ne_insufficient (n : nat) :
  missing_holes_msg n ≠ "Insufficient holes for weld measurement".
Proof. unfold missing_holes_msg. intros [=]. Qed.

Lemma missing_ne_part_missing (n : nat) : missing_holes_msg n ≠ "Part Missing".
Proof. unfold missing_holes_msg. intros [=]. Qed.

Lemma excessive_spatter_msg_inj (n m : nat) :
  excessive_spatter_msg n = excessive_spatter_msg m → n = m.
Proof.
  unfold excessive_spatter_msg. intros H.
  apply (inj (String.app _)) in H. apply string_app_inv_tail in H.
  by apply (inj pretty) in H.
Qed.

Lemma part_present_dec (img : Frame) :
  part_present img ∨ (Config.PART_DETECTION_THRESHOLD <= gray_mean img)%R.
Proof.
  unfold part_present.
  destruct (Rlt_dec (gray_mean img) Config.PART_DETECTION_THRESHOLD); [by left|right; lra].
Qed.

(** The result is OK exactly when no defect is recorded. *)
Theorem status_ok_iff_no_defect (self : Inspector) (d : Disk) (img : Frame)
    (pn : string) (cam : Z) (now : Timestamp) :
  let r := (process_and_save self d img pn cam now).1.1 in
  (status r = "OK" ↔ defects r = []) ∧ (status r = "NOK" ↔ defects r ≠ []).
Proof.
  cbv zeta. rewrite process_and_save_status, process_and_save_defects.
  destruct (part_present_dec img) as [Hp|Ha].
  - rewrite (analyse_present_status img pn cam now Hp).
    rewrite (analyse_present_defects img pn cam now Hp).
    destruct (length (holes_of img) <? 4)%nat, (5 <? detect_spatter img)%nat;
      simpl; repeat split; done.
  - rewrite (analyse_absent img pn cam now Ha). simpl. repeat split; done.
Qed.

(** The result is OK exactly for a frame with a part, at least four holes
    and at most five spatter blobs. *)
Theorem status_ok_iff (self : Inspector) (d : Disk) (img : Frame)
    (pn : string) (cam : Z) (now : Timestamp) :
  status (process_and_save self d img pn cam now).1.1 = "OK"
  ↔ part_present img ∧ 4 ≤ length (detect_holes img)
    ∧ detect_spatter img ≤ Config.MAX_SPATTER_COUNT.
Proof.
  rewrite process_and_save_status. unfold Config.MAX_SPATTER_COUNT.
  destruct (part_present_dec img) as [Hp|Ha].
  - rewrite (analyse_present_status img pn cam now Hp), holes_of_length.
    destruct (Nat.ltb_spec (length (detect_holes img)) 4),
      (Nat.ltb_spec 5 (detect_spatter img)); simpl; split;
      (done || (intros (_ & ? & ?); lia) || (intros _; repeat split; (done || lia))).
  - rewrite (analyse_absent img pn cam now Ha). simpl. split; [done|].
    intros (Hp & _). unfold part_present in Hp. lra.
Qed.

(** The spatter defect is recorded exactly for a frame with a part and more
    spatter blobs than the maximum, and it cites their number. *)
Theorem excessive_spatter_iff (self : Inspector) (d : Disk) (img : Frame)
    (pn : string) (cam : Z) (now : Timestamp) (n : nat) :
  excessive_spatter_msg n ∈ defects (process_and_save self d img pn cam now).1.1
  ↔ part_present img ∧ Config.MAX_SPATTER_COUNT < detect_spatter img
    ∧ n = detect_spatter img.
Proof.
  rewrite process_and_save_defects. unfold Config.MAX_SPATTER_COUNT.
  destruct (part_present_dec img) as [Hp|Ha].
  - rewrite (analyse_present_defects img pn cam now Hp).
    rewrite elem_of_app.
    assert (Hholes : ¬ excessive_spatter_msg n ∈
      (if (length (holes_of img) <? 4)%nat
       then [missing_holes_msg (length (holes_of img));
             "Insufficient holes for weld measurement"] else [])).
    { destruct (length (holes_of img) <? 4)%nat; [|apply not_elem_of_nil].
      rewrite !elem_of_cons, elem_of_nil. intros [H|[H|[]]].
      - symmetry in H. by apply missing_ne_excessive in H.
      - by apply excessive_ne_insufficient in H. }
    destruct (Nat.ltb_spec 5 (detect_spatter img)) as [Hgt|Hle].
    + rewrite elem_of_cons, elem_of_nil. split.
      * intros [H|[H|[]]]; [done|]. by apply excessive_spatter_msg_inj in H.
      * intros (_ & _ & ->). right. by left.
    + rewrite elem_of_nil. split; [by intros [H|[]]|]. intros (_ & ? & _). lia.
  - rewrite (analyse_absent img pn cam now Ha). simpl.
    rewrite elem_of_cons, elem_of_nil. split.
    + intros [H|[]]. by apply excessive_ne_part_missing in H.
    + intros (Hp & _). unfold part_present in Hp. lra.
Qed.

(** The two defects on the holes come together: both are recorded exactly for
    a frame with a part and fewer than four holes. *)
Theorem hole_defects_together (self : Inspector) (d : Disk) (img : Frame)
    (pn : string) (cam : Z) (now : Timestamp) :
  let r := (process_and_save self d img pn cam now).1.1 in
  let found := length (detect_holes img) in
  ((∃ n, missing_holes_msg n ∈ defects r) ↔ part_present img ∧ found < 4) ∧
  ("Insufficient holes for weld measurement" ∈ defects r ↔ part_present img ∧ found < 4) ∧
  (part_present img → found < 4 →
     take 2 (defects r) = [missing_holes_msg found; "Insufficient holes for weld measurement"]).
Proof.
  cbv zeta. rewrite process_and_save_defects.
  destruct (part_present_dec img) as [Hp|Ha].
  - rewrite (analyse_present_defects img pn cam now Hp), holes_of_length.
    assert (Hsp : ∀ s, (∀ m, s ≠ excessive_spatter_msg m) →
      ¬ s ∈ (if (5 <? detect_spatter img)%nat
             then [excessive_spatter_msg (detect_spatter img)] else [])).
    { intros s Hs. destruct (5 <? detect_spatter img)%nat; [|apply not_elem_of_nil].
      rewrite elem_of_cons, elem_of_nil. intros [H|[]]. by apply Hs in H. }
    destruct (Nat.ltb_spec (length (detect_holes img)) 4) as [Hlt|Hge].
    + split; [|split].
      * split; [done|]. intros _. eexists. apply elem_of_app. left. apply elem_of_cons. by left.
      * split; [done|]. intros _. apply elem_of_app. left. rewrite !elem_of_cons. auto.
      * done.
    + split; [|split].
      * split; [|intros [_ ?]; lia]. intros [n Hn]. exfalso.
        apply elem_of_app in Hn as [Hn|Hn]; [by apply elem_of_nil in Hn|].
        apply (Hsp _ (missing_ne_excessive n) Hn).
      * split; [|intros [_ ?]; lia]. intros Hn. exfalso.
        apply elem_of_app in Hn as [Hn|Hn]; [by apply elem_of_nil in Hn|].
        refine (Hsp _ _ Hn). intros m H. symmetry in H.
        by apply excessive_ne_insufficient in H.
      * intros _ ?. lia.
  - rewrite (analyse_absent img pn cam now Ha). simpl.
    assert (Hno : ¬ part_present img) by (unfold part_present; lra).
    split; [|split].
    + split; [|by intros [? _]]. intros [n Hn].
      apply elem_of_cons in Hn as [Hn|Hn%elem_of_nil]; [|done].
      by apply missing_ne_part_missing in Hn.
    + split; [|by intros [? _]]. intros Hn.
      by apply elem_of_cons in Hn as [Hn|Hn%elem_of_nil].
    + done.
Qed.

End Verdict.

(** ** What [process_and_save] writes *)

Section Writes.
Import Py Detection Main Vocabulary PosixPath FileUtils.
Context {installed : Pandas}.

Lemma get_next_filename_fresh (fs : gset string) (dir st ord part : string) (c cam : Z) :
  get_next_filename fs dir st ord part c cam ∉ fs.
Proof.
  destruct (get_next_filename_cases fs dir st ord part c cam)
    as [[Hfree ->]|[_ (k & _ & _ & Hnew & _)]]; done.
Qed.

Lemma analyse_measurements_shape (img : Frame) (pn : string) (cam : Z) (now : Timestamp) :
  length (measurements (analyse img pn cam now)) = 12 ∧
  Forall is_float (measurements (analyse img pn cam now)).
Proof.
  destruct (part_present_dec img) as [Hp|Ha].
  - rewrite (analyse_present_measurements img pn cam now Hp). unfold slots_of.
    split; [done|]. repeat constructor; by eexists.
  - rewrite (analyse_absent img pn cam now Ha). simpl.
    split; [done|]. repeat constructor; by eexists.
Qed.

(** Every result has twelve measurements, all of them floats, whatever the
    frame; the row written for it has twelve values. *)
Theorem twelve_measurements (self : Inspector) (d : Disk) (img : Frame)
    (pn : string) (cam : Z) (now : Timestamp) :
  let out := process_and_save self d img pn cam now in
  length (measurements out.1.1) = 12 ∧
  Forall is_float (measurements out.1.1) ∧
  ∃ row, last (csv_rows out.2) = Some row ∧ length (col_Values row) = 12.
Proof.
  cbv zeta. rewrite process_and_save_measurements.
  destruct (analyse_measurements_shape img pn cam now) as [Hlen Hfloat].
  split; [exact Hlen|]. split; [exact Hfloat|].
  pose proof (process_and_save_steps self d img pn cam now) as Hsteps.
  cbv zeta in Hsteps. rewrite Hsteps. cbn [snd csv_rows].
  eexists. split; [apply last_snoc|]. cbn [col_Values].
  destruct (csv_values_floats _ Hfloat) as [_ ->]. exact Hlen.
Qed.

Lemma imwrite_paths (path : string) (d : Disk) :
  (directory_exists d path ∧ paths (imwrite path d) = {[path]} ∪ paths d)
  ∨ (¬ directory_exists d path ∧ paths (imwrite path d) = paths d).
Proof.
  unfold imwrite, directory_exists. case_bool_decide; [left|right]; done.
Qed.

Lemma process_and_save_paths (self : Inspector) (d : Disk) (img : Frame)
    (pn : string) (cam : Z) (now : Timestamp) :
  ∃ path, image_path (process_and_save self d img pn cam now).1.1 = Some path ∧
          (path ∉ paths d) ∧
          paths (process_and_save self d img pn cam now).2 = paths (imwrite path d).
Proof.
  pose proof (process_and_save_steps self d img pn cam now) as Hsteps.
  cbv zeta in Hsteps. rewrite Hsteps. cbn [fst snd].
  eexists. split; [reflexivity|]. split; [apply get_next_filename_fresh|done].
Qed.

(** The image goes to a path that did not exist: no file is overwritten and
    every file that existed still exists.  When the directory of that path
    exists, the path is the one new path of the disk.  When it does not (a
    part number with a separator names a directory that nobody made),
    nothing is written, and the result names a file that does not exist. *)
Theorem image_never_overwrites (self : Inspector) (d : Disk) (img : Frame)
    (pn : string) (cam : Z) (now : Timestamp) :
  let out := process_and_save self d img pn cam now in
  ∃ path, image_path out.1.1 = Some path ∧ (path ∉ paths d) ∧
          paths d ⊆ paths out.2 ∧
          (directory_exists d path →
             paths out.2 = {[path]} ∪ paths d ∧
             size (paths out.2) = S (size (paths d))) ∧
          (¬ directory_exists d path → paths out.2 = paths d ∧ path ∉ paths out.2).
Proof.
  cbv zeta.
  destruct (process_and_save_paths self d img pn cam now) as (path & Hpath & Hfresh & Hpaths).
  exists path. split; [exact Hpath|]. split; [exact Hfresh|]. rewrite Hpaths.
  destruct (imwrite_paths path d) as [[Hdir ->]|[Hdir ->]].
  - split; [apply union_subseteq_r|]. split; [|done]. intros _. split; [done|].
    rewrite size_union, size_singleton; [done|].
    intros q ->%elem_of_singleton. exact Hfresh.
  - split; [done|]. split; [done|]. by intros _.
Qed.

End Writes.

Section Rows.
Import Py Detection Main Vocabulary PosixPath FileUtils.
Context {installed : Pandas}.

(** The row appended for a result is the last one of the file, which is
    one row longer: it holds the next number, the status and the counter of
    that status after the call, the order, the date and the time of the
    result, the measurements rounded to two places, the user. *)
Theorem row_of_result (self : Inspector) (d : Disk) (img : Frame)
    (pn : string) (cam : Z) (now : Timestamp) :
  let out := process_and_save self d img pn cam now in
  length (csv_rows out.2) = S (length (csv_rows d)) ∧
  ∃ row,
    last (csv_rows out.2) = Some row ∧
    col_Number row = (Z.of_nat (length (csv_rows d)) + 1)%Z ∧
    col_OK_NOK row = status out.1.1 ∧
    col_Ordernumber row = order_number self ∧
    col_Counter row = counter_of (status out.1.1) out.1.2 ∧
    col_Date row = date_str now ∧ col_Time row = time_str now ∧
    csv_values (measurements out.1.1) = inr (col_Values row) ∧
    Forall2 value_written (measurements out.1.1) (col_Values row) ∧
    col_User row = user self.
Proof.
  cbv zeta.
  pose proof (process_and_save_steps self d img pn cam now) as Hsteps.
  cbv zeta in Hsteps. rewrite Hsteps. cbn [fst snd csv_rows].
  split; [rewrite length_app, read_csv_length; simpl; lia|].
  eexists. split; [apply last_snoc|].
  cbn [col_Number col_OK_NOK col_Ordernumber col_Counter col_Date col_Time col_Values
       col_User status measurements set_image_path].
  destruct (csv_values_floats _ (analyse_measurements_floats img pn cam now)) as [Hvalues _].
  split; [done|]. split; [done|]. split; [done|].
  split; [unfold counter_of; by destruct (String.eqb (status (analyse img pn cam now)) "OK")|].
  split; [done|]. split; [done|]. split; [exact Hvalues|].
  split; [by apply csv_values_inr|done].
Qed.

(** A new inspector on the CSV file of an earlier session: the numbers go
    on where the file stopped, the counter starts at 1 again. *)
Theorem new_session_on_old_file (user order_number output_dir : string) (d : Disk)
    (img : Frame) (pn : string) (cam : Z) (now : Timestamp) :
  let self := Inspector__init__ user order_number output_dir in
  let out := process_and_save self d img pn cam now in
  ∃ row, last (csv_rows out.2) = Some row ∧
         col_Number row = (Z.of_nat (length (csv_rows d)) + 1)%Z ∧
         col_Counter row = 1%Z.
Proof.
  cbv zeta.
  pose proof (process_and_save_steps (Inspector__init__ user order_number output_dir)
                d img pn cam now) as Hsteps.
  cbv zeta in Hsteps. rewrite Hsteps. cbn [fst snd csv_rows].
  eexists. split; [apply last_snoc|]. cbn [col_Number col_Counter]. split; [done|].
  unfold counter_of.
  by destruct (String.eqb (status (analyse img pn cam now)) "OK").
Qed.

(** The name of the image carries the status of the result and the counter
    of that status: the base name when its path is free, otherwise the name
    with the first free suffix, that is a suffix whose path is free while
    the paths of all smaller suffixes exist. *)
Theorem image_name_of_result (self : Inspector) (d : Disk) (img : Frame)
    (pn : string) (cam : Z) (now : Timestamp) :
  let out := process_and_save self d img pn cam now in
  let st := status out.1.1 in
  let c := counter_of st out.1.2 in
  let base := base_path (order_dir self) st (order_number self) pn c cam in
  let suffixed := suffix_path (order_dir self) st (order_number self) pn c cam in
  ((base ∉ paths d) → image_path out.1.1 = Some base) ∧
  (base ∈ paths d →
     ∃ k, (1 ≤ k)%Z ∧ image_path out.1.1 = Some (suffixed k) ∧
          (suffixed k ∉ paths d) ∧
          ∀ j, (1 ≤ j < k)%Z → suffixed j ∈ paths d).
Proof.
  cbv zeta.
  pose proof (process_and_save_steps self d img pn cam now) as Hsteps.
  cbv zeta in Hsteps. rewrite Hsteps. cbn [fst snd].
  cbn [status set_image_path image_path].
  match goal with
  | |- context [get_next_filename ?fs ?dir ?st ?ord ?p ?c ?cam] =>
      destruct (get_next_filename_cases fs dir st ord p c cam)
        as [[Hfree Heq]|[Hex (k & Hk & Heq & Hnew & Hbelow)]]
  end.
  - split; [intros _; by rewrite Heq | done].
  - split; [done|]. intros _. exists k. rewrite Heq in Hnew |- *. done.
Qed.

Lemma detect_holes_round (img : Frame) (h : Hole) :
  h ∈ detect_holes img → width h = height h.
Proof.
  unfold detect_holes. destruct (hough_circles img) as [circles|].
  - intros Hh. apply list_elem_of_In, in_map_iff in Hh as ([[x y] r] & <- & _). done.
  - by intros ?%elem_of_nil.
Qed.

Lemma width_at_height_at (img : Frame) (i : nat) :
  width_at (holes_of img) i = height_at (holes_of img) i.
Proof.
  unfold width_at, height_at. destruct (holes_of img !! i) as [h|] eqn:Hi; [|done].
  apply detect_holes_round with img.
  apply list_elem_of_lookup_2 in Hi. unfold holes_of in Hi.
  by rewrite sorted_perm in Hi.
Qed.

(** The holes are circles: in every row the height of a hole repeats its
    width (Value2 = Value1, Value4 = Value3, Value8 = Value7, Value10 =
    Value9). *)
Theorem height_repeats_width (self : Inspector) (d : Disk) (img : Frame)
    (pn : string) (cam : Z) (now : Timestamp) :
  let ms := measurements (process_and_save self d img pn cam now).1.1 in
  ms !! 1 = ms !! 0 ∧ ms !! 3 = ms !! 2 ∧ ms !! 7 = ms !! 6 ∧ ms !! 9 = ms !! 8.
Proof.
  cbv zeta. rewrite process_and_save_measurements.
  destruct (part_present_dec img) as [Hp|Ha].
  - rewrite (analyse_present_measurements img pn cam now Hp). unfold slots_of.
    cbn [lookup list_lookup]. by rewrite !width_at_height_at.
  - by rewrite (analyse_absent img pn cam now Ha).
Qed.

End Rows.

(** ** The directory of an image *)

Section ImageDirectory.
Import Py Detection Main Vocabulary PosixPath FileUtils.

Lemma no_separator_app (s t : string) :
  no_separator (s +:+ t) ↔ no_separator s ∧ no_separator t.
Proof. unfold no_separator. by rewrite list_ascii_of_string_app, Forall_app. Qed.

Lemma no_separator_startswith (s : string) : no_separator s → startswith_sep s = false.
Proof.
  destruct s as [|c s]; [done|]. intros Hs. apply Forall_cons in Hs as [Hc _].
  simpl. by apply Ascii.eqb_neq.
Qed.

Lemma rfind_endswith_sep (s : string) :
  endswith_sep s = true →
  rfind sep (list_ascii_of_string s) = (Z.of_nat (length (list_ascii_of_string s)) - 1)%Z.
Proof.
  induction s as [|c s IH]; [done|]. destruct s as [|c' s].
  - simpl. intros ->. done.
  - intros Hs. specialize (IH Hs).
    change (list_ascii_of_string (String c (String c' s)))
      with (c :: list_ascii_of_string (String c' s)).
    cbn [rfind length]. rewrite IH.
    destruct (Z.leb_spec 0 (Z.of_nat (length (list_ascii_of_string (String c' s))) - 1));
      [lia|]. simpl in *. lia.
Qed.

(** The directory part of a path made by [os.path.join] with a name that
    has no separator is the directory, with the separator at its end. *)
Lemma directory_part_join (dir name : string) :
  no_separator name → directory_part (join dir name) = join dir "".
Proof.
  intros Hname. unfold join. rewrite (no_separator_startswith name Hname).
  change (startswith_sep "") with false. cbn iota.
  unfold directory_part.
  destruct (bool_decide (dir = "") || endswith_sep dir) eqn:Hdir.
  - rewrite list_ascii_of_string_app, rfind_app, (rfind_none sep _ Hname).
    change (0 <=? -1)%Z with false. cbn iota.
    apply orb_true_iff in Hdir as [Hempty%bool_decide_eq_true|Hends].
    + subst dir. done.
    + rewrite (rfind_endswith_sep dir Hends).
      replace (Z.to_nat (Z.of_nat (length (list_ascii_of_string dir)) - 1 + 1))
        with (length (list_ascii_of_string dir)) by lia.
      rewrite take_app_length.
      apply list_ascii_of_string_inj.
      by rewrite list_ascii_of_string_of_list_ascii, list_ascii_of_string_app, app_nil_r.
  - rewrite list_ascii_of_string_app.
    change (list_ascii_of_string (String sep name)) with (sep :: list_ascii_of_string name).
    rewrite rfind_app. cbn [rfind]. rewrite (rfind_none sep _ Hname).
    change (0 <=? -1)%Z with false. cbn iota.
    change (Ascii.eqb sep sep) with true. cbn iota.
    change (0 <=? 0)%Z with true. cbn iota.
    replace (Z.to_nat (Z.of_nat (length (list_ascii_of_string dir)) + 0 + 1))
      with (length (list_ascii_of_string dir ++ [sep])) by (rewrite length_app; simpl; lia).
    change (sep :: list_ascii_of_string name) with ([sep] ++ list_ascii_of_string name).
    rewrite (assoc (++)), take_app_length.
    apply list_ascii_of_string_inj.
    by rewrite list_ascii_of_string_of_list_ascii, list_ascii_of_string_app.
Qed.

Lemma no_separator_stem (st ord pn : string) (c cam : Z) :
  st = "OK" ∨ st = "NOK" → no_separator ord → no_separator pn →
  no_separator (stem st ord pn c cam).
Proof.
  intros Hst Hord Hpn. unfold stem. rewrite !no_separator_app.
  repeat split; try done; try apply pretty_Z_sep; try (by repeat constructor).
  destruct Hst as [-> | ->]; by repeat constructor.
Qed.

(** The directory of an image is the order directory, when neither the order
    number nor the part number holds a separator. *)
Lemma directory_part_image (fs : gset string) (dir st ord pn : string) (c cam : Z) :
  st = "OK" ∨ st = "NOK" → no_separator ord → no_separator pn →
  directory_part (get_next_filename fs dir st ord pn c cam) = join dir "".
Proof.
  intros Hst Hord Hpn.
  pose proof (no_separator_stem st ord pn c cam Hst Hord Hpn) as Hstem.
  destruct (get_next_filename_cases fs dir st ord pn c cam)
    as [[_ ->]|[_ (k & _ & -> & _)]].
  - unfold base_path. apply directory_part_join.
    apply no_separator_app. split; [done | by repeat constructor].
  - unfold suffix_path. apply directory_part_join. rewrite !no_separator_app.
    repeat split; try done; try apply pretty_Z_sep; by repeat constructor.
Qed.

End ImageDirectory.

(** ** Sessions *)

Section Sessions.
Import Py Detection Main Vocabulary PosixPath FileUtils.
Context {installed : Pandas}.

(** The inspector keeps its order and its directory. *)
Lemma process_and_save_order (self : Inspector) (d : Disk) (img : Frame)
    (pn : string) (cam : Z) (now : Timestamp) :
  order_dir (process_and_save self d img pn cam now).1.2 = order_dir self ∧
  order_number (process_and_save self d img pn cam now).1.2 = order_number self.
Proof.
  pose proof (process_and_save_steps self d img pn cam now) as Hsteps.
  cbv zeta in Hsteps. rewrite Hsteps. cbn [fst snd].
  by destruct (String.eqb (status (analyse img pn cam now)) "OK").
Qed.

(** In an order directory that exists, an image whose name has no separator
    is written. *)
Lemma process_and_save_writes (self : Inspector) (d : Disk) (img : Frame)
    (pn : string) (cam : Z) (now : Timestamp) :
  order_dir_exists self d → no_separator (order_number self) → no_separator pn →
  ∃ path, image_path (process_and_save self d img pn cam now).1.1 = Some path ∧
          (path ∉ paths d) ∧
          paths (process_and_save self d img pn cam now).2 = {[path]} ∪ paths d.
Proof.
  intros Hdir Hord Hpn.
  pose proof (process_and_save_steps self d img pn cam now) as Hsteps.
  cbv zeta in Hsteps. rewrite Hsteps. cbn [fst snd image_path set_image_path paths].
  eexists. split; [reflexivity|]. split; [apply get_next_filename_fresh|].
  match goal with
  | |- paths (imwrite ?path d) = _ =>
      destruct (imwrite_paths path d) as [[_ ->]|[Hno _]]; [done|]
  end.
  exfalso. apply Hno. unfold directory_exists.
  rewrite directory_part_image by (done || apply analyse_status).
  destruct Hdir as [-> | Hin]; [by left | by right].
Qed.

Lemma run_session_paths (self : Inspector) (d : Disk) (jobs : list Job) :
  order_dir_exists self d → no_separator (order_number self) →
  Forall (λ j, no_separator (job_part j)) jobs →
  let out := run_session self d jobs in
  paths d ⊆ paths out.2 ∧
  size (paths out.2) = size (paths d) + length jobs ∧
  Forall (λ r, ∃ p, image_path r = Some p ∧ p ∈ paths out.2 ∧ p ∉ paths d) out.1.1 ∧
  NoDup (image_path <$> out.1.1).
Proof.
  revert self d. induction jobs as [|j jobs IH]; intros self d Hdir Hord Hparts.
  - simpl. split; [done|]. split; [lia|]. split; constructor.
  - apply Forall_cons in Hparts as [Hpart Hparts].
    cbv zeta. rewrite run_session_cons. cbv zeta. cbn [fst snd].
    set (step := process_and_save self d (job_img j) (job_part j) (job_cam j) (job_now j)).
    destruct (process_and_save_writes self d (job_img j) (job_part j) (job_cam j) (job_now j)
                Hdir Hord Hpart) as (p & Hp & Hfresh & Hpaths).
    fold step in Hp, Hpaths.
    destruct (process_and_save_order self d (job_img j) (job_part j) (job_cam j) (job_now j))
      as [Hsamedir Hsameord]. fold step in Hsamedir, Hsameord.
    assert (Hdir' : order_dir_exists step.1.2 step.2).
    { unfold order_dir_exists. rewrite Hsamedir, Hpaths.
      destruct Hdir as [?|?]; [by left|right]. by apply elem_of_union_r. }
    assert (Hord' : no_separator (order_number step.1.2)) by (by rewrite Hsameord).
    destruct (IH step.1.2 step.2 Hdir' Hord' Hparts) as (Hsub & Hsize & Hall & Hnodup).
    rewrite Hpaths in Hsub, Hsize, Hall.
    assert (Hin : p ∈ paths (run_session step.1.2 step.2 jobs).2).
    { apply Hsub, elem_of_union_l, elem_of_singleton. done. }
    split; [intros q Hq; by apply Hsub, elem_of_union_r|]. split.
    { rewrite Hsize, size_union, size_singleton; [simpl; lia|].
      intros q ->%elem_of_singleton. done. }
    split.
    { constructor.
      - exists p. by repeat split.
      - eapply Forall_impl; [exact Hall|]. simpl.
        intros r (q & Hq & Hq1 & Hq2). exists q. repeat split; [done..|].
        intros Hqd. apply Hq2. by apply elem_of_union_r. }
    rewrite fmap_cons. constructor; [|exact Hnodup].
    rewrite Hp. intros Hdup. apply list_elem_of_fmap in Hdup as (r & Hr & Hin').
    rewrite Forall_forall in Hall. destruct (Hall r Hin') as (q & Hq & _ & Hq2).
    rewrite Hq in Hr. injection Hr as ->.
    apply Hq2, elem_of_union_l, elem_of_singleton. done.
Qed.

(** In an order directory that exists, a session of N frames whose part
    numbers, like the order number, hold no separator makes N new image
    files: no file that existed is replaced, and no two results share a
    path. *)
Theorem session_writes_one_file_each (self : Inspector) (d : Disk) (jobs : list Job)
    (Hdir : order_dir_exists self d)
    (Horder : no_separator (order_number self))
    (Hparts : Forall (λ j, no_separator (job_part j)) jobs) :
  let out := run_session self d jobs in
  paths d ⊆ paths out.2 ∧
  size (paths out.2) = size (paths d) + length jobs ∧
  (∀ r, r ∈ out.1.1 → ∃ p, image_path r = Some p ∧ p ∈ paths out.2 ∧ p ∉ paths d) ∧
  NoDup (image_path <$> out.1.1).
Proof.
  cbv zeta.
  destruct (run_session_paths self d jobs Hdir Horder Hparts) as (Hsub & Hsize & Hall & Hnodup).
  repeat split; try done. by apply Forall_forall.
Qed.

(** *** The column [Counter] *)

Lemma rows_with_snoc (st : string) (rows : list CsvRow) (row : CsvRow) :
  rows_with st (rows ++ [row])
  = rows_with st rows + (if decide (col_OK_NOK row = st) then 1 else 0).
Proof.
  unfold rows_with. rewrite filter_app, length_app, filter_cons, filter_nil.
  by case_decide.
Qed.

Lemma counters_indexed_snoc (rows : list CsvRow) (row : CsvRow) :
  counters_indexed rows →
  col_Counter row = (Z.of_nat (rows_with (col_OK_NOK row) rows) + 1)%Z →
  counters_indexed (rows ++ [row]).
Proof.
  intros Hrows Hrow i r Hi.
  apply lookup_app_Some in Hi as [Hi|[Hge Hi]].
  - rewrite take_app_le by (apply lookup_lt_Some in Hi; lia). by apply Hrows.
  - apply list_lookup_singleton_Some in Hi as [Hi <-].
    rewrite take_ge by (rewrite length_app; simpl; lia).
    rewrite rows_with_snoc, Hrow. case_decide; [lia|done].
Qed.

Lemma map_lookup {A B : Type} (f : A → B) (l : list A) (i : nat) :
  map f l !! i = f <$> l !! i.
Proof. exact (list_lookup_fmap f l i). Qed.

Lemma rows_with_map (st : string) (rows : list CsvRow) :
  rows_with st rows = length (filter (λ c, c = st) (map col_OK_NOK rows)).
Proof.
  unfold rows_with. induction rows as [|row rows IH]; [done|].
  cbn [map]. rewrite !filter_cons. repeat case_decide; try done; simpl; by rewrite IH.
Qed.

(** The rank of the counters is a matter of the two columns [OK/NOK] and
    [Counter]. *)
Lemma counters_indexed_columns (rows rows' : list CsvRow) :
  map col_OK_NOK rows' = map col_OK_NOK rows →
  map col_Counter rows' = map col_Counter rows →
  counters_indexed rows → counters_indexed rows'.
Proof.
  intros Hst Hc Hrows i row' Hi.
  assert (Hsti : map col_OK_NOK rows !! i = Some (col_OK_NOK row')).
  { by rewrite <-Hst, map_lookup, Hi. }
  assert (Hci : map col_Counter rows !! i = Some (col_Counter row')).
  { by rewrite <-Hc, map_lookup, Hi. }
  rewrite map_lookup in Hsti. rewrite map_lookup in Hci.
  destruct (rows !! i) as [row|] eqn:Hrow; [|done].
  injection Hsti as Hsti. injection Hci as Hci.
  rewrite <-Hci, <-Hsti, (Hrows i row Hrow). f_equal.
  by rewrite !rows_with_map, <-!firstn_map, Hst.
Qed.

Lemma statuses_known_snoc (rows : list CsvRow) (row : CsvRow) :
  statuses_known rows → col_OK_NOK row = "OK" ∨ col_OK_NOK row = "NOK" →
  statuses_known (rows ++ [row]).
Proof. intros Hrows Hrow. apply Forall_app. split; [done|]. by constructor. Qed.

Lemma statuses_known_read_csv (rows : list CsvRow) :
  statuses_known rows → statuses_known (read_csv rows).
Proof.
  intros Hknown. apply Forall_forall. intros row' Hin.
  apply list_elem_of_lookup in Hin as [i Hi].
  apply read_csv_lookup in Hi as (row & Hrow & _ & _ & _ & ->).
  rewrite reread_statuses by (apply Forall_map; exact Hknown).
  unfold statuses_known in Hknown. rewrite Forall_forall in Hknown.
  apply Hknown. by apply list_elem_of_lookup_2 in Hrow.
Qed.

Lemma process_and_save_in_step (self : Inspector) (d : Disk) (img : Frame)
    (pn : string) (cam : Z) (now : Timestamp) :
  statuses_known (csv_rows d) → in_step self d →
  statuses_known (csv_rows (process_and_save self d img pn cam now).2) ∧
  in_step (process_and_save self d img pn cam now).1.2 (process_and_save self d img pn cam now).2.
Proof.
  intros Hknown (Hok & Hnok & Hidx).
  destruct (read_csv_statuses (csv_rows d) Hknown) as [Hst Hc].
  pose proof (counters_indexed_columns _ _ Hst Hc Hidx) as Hidx'.
  assert (Hwith : ∀ st, rows_with st (read_csv (csv_rows d)) = rows_with st (csv_rows d)).
  { intros st. by rewrite !rows_with_map, Hst. }
  pose proof (process_and_save_steps self d img pn cam now) as Hsteps.
  cbv zeta in Hsteps. rewrite Hsteps. cbn [fst snd]. clear Hsteps.
  split.
  { cbn [csv_rows]. apply statuses_known_snoc; [by apply statuses_known_read_csv|].
    cbn [col_OK_NOK]. apply analyse_status. }
  unfold in_step, counter_of. cbn [csv_rows].
  destruct (analyse_status img pn cam now) as [Hstatus|Hstatus]; rewrite Hstatus;
    cbn [String.eqb Ascii.eqb Bool.eqb ok_counter nok_counter];
    rewrite !rows_with_snoc, !Hwith; cbn [col_OK_NOK]; repeat case_decide; try done;
    (split; [lia|split; [lia|]]);
    (apply counters_indexed_snoc; [done|]); cbn [col_OK_NOK col_Counter];
    rewrite Hwith; lia.
Qed.

Lemma run_session_in_step (self : Inspector) (d : Disk) (jobs : list Job) :
  statuses_known (csv_rows d) → in_step self d →
  in_step (run_session self d jobs).1.2 (run_session self d jobs).2.
Proof.
  revert self d. induction jobs as [|j jobs IH]; intros self d Hknown Hstep; [done|].
  rewrite run_session_cons. cbv zeta. cbn [fst snd].
  destruct (process_and_save_in_step self d (job_img j) (job_part j) (job_cam j) (job_now j)
              Hknown Hstep) as [Hknown' Hstep'].
  by apply IH.
Qed.

(** In the session of a new order the column [Counter] of a row is the rank
    of the row among the rows of the same status, and the two counters of
    the inspector are the numbers of OK rows and of NOK rows. *)
Theorem counter_column_is_rank (user order_number output_dir : string)
    (files : gset string) (jobs : list Job) :
  let out := run_session (Inspector__init__ user order_number output_dir)
               (mk_disk files []) jobs in
  counters_indexed (csv_rows out.2) ∧
  ok_counter out.1.2 = Z.of_nat (rows_with "OK" (csv_rows out.2)) ∧
  nok_counter out.1.2 = Z.of_nat (rows_with "NOK" (csv_rows out.2)).
Proof.
  cbv zeta.
  destruct (run_session_in_step (Inspector__init__ user order_number output_dir)
              (mk_disk files []) jobs) as (Hok & Hnok & Hidx).
  - constructor.
  - split; [done|]. split; [done|]. intros i row Hi. simpl in Hi.
    by rewrite lookup_nil in Hi.
  - by repeat split.
Qed.

End Sessions.

Section SessionExample.
Import Py Detection Main Vocabulary PosixPath FileUtils.
Local Existing Instance example_pandas.

Lemma session_writes_one_file_each_witness :
  size (paths (run_session bob order_disk example_jobs).2) = 4 ∧
  NoDup (image_path <$> (run_session bob order_disk example_jobs).1.1).
Proof.
  assert (Hdir : order_dir_exists bob order_disk).
  { right. by vm_compute. }
  assert (Horder : no_separator (order_number bob)) by (by repeat constructor).
  assert (Hparts : Forall (λ j, no_separator (job_part j)) example_jobs).
  { repeat constructor; by repeat constructor. }
  destruct (session_writes_one_file_each bob order_disk example_jobs Hdir Horder Hparts)
    as (_ & Hsize & _ & Hnodup).
  split; [|exact Hnodup]. rewrite Hsize. by vm_compute.
Defined.

End SessionExample.

(** ** The order of the holes *)

Section SortMore.
Import Py Vocabulary.
Context {A : Type} (key : A → Z).

(** A list that is sorted already is left as it is. *)
Lemma sorted_id (l : list A) : StronglySorted (key_le key) l → sorted key l = l.
Proof.
  induction 1 as [|x l Hl IH Hx]; simpl; [done|].
  rewrite IH. destruct l as [|y l]; [done|]. simpl.
  apply Forall_cons in Hx as [Hxy _]. unfold key_le in Hxy.
  by destruct (Z.leb_spec (key x) (key y)); [|lia].
Qed.

(** Where equal keys mean equal elements, the sort forgets the order of its
    argument. *)
Lemma sorted_perm_eq (l1 l2 : list A) :
  l1 ≡ₚ l2 →
  (∀ a b, a ∈ l1 → b ∈ l1 → key a = key b → a = b) →
  sorted key l1 = sorted key l2.
Proof.
  intros Hperm Hinj.
  apply (StronglySorted_unique_strong (key_le key)).
  - intros a b Ha Hb Hab Hba. unfold key_le in *.
    rewrite sorted_perm in Ha. rewrite sorted_perm, <-Hperm in Hb.
    apply Hinj; [done..|lia].
  - apply sorted_sorted.
  - apply sorted_sorted.
  - by rewrite !sorted_perm.
Qed.

(** A sorted list that holds two groups of elements, the keys of the first
    below the keys of the second, starts with the first group. *)
Lemma sorted_split (l l1 l2 : list A) :
  StronglySorted (key_le key) l →
  l ≡ₚ l1 ++ l2 →
  (∀ x y, x ∈ l1 → y ∈ l2 → (key x < key y)%Z) →
  take (length l1) l ≡ₚ l1 ∧ drop (length l1) l ≡ₚ l2.
Proof.
  intros Hsorted. revert l1. induction Hsorted as [|x l Hl IH Hx]; intros l1 Hperm Hsep.
  - symmetry in Hperm. apply Permutation_nil_r in Hperm.
    apply app_eq_nil in Hperm as [-> ->]. done.
  - destruct l1 as [|z l1]; [done|].
    assert (Hx1 : x ∈ z :: l1).
    { assert (Hin : x ∈ (z :: l1) ++ l2) by (rewrite <-Hperm; by left).
      apply elem_of_app in Hin as [Hin|Hin]; [done|]. exfalso.
      assert (Hz : z ∈ x :: l) by (rewrite Hperm; by left).
      assert (Hzx : (key z < key x)%Z) by (apply Hsep; [by left|done]).
      apply elem_of_cons in Hz as [->|Hz]; [lia|].
      rewrite Forall_forall in Hx. specialize (Hx z Hz). unfold key_le in Hx. lia. }
    apply elem_of_Permutation in Hx1 as [l1' Hl1'].
    assert (Hperm' : l ≡ₚ l1' ++ l2).
    { apply (Permutation_cons_inv (a := x)).
      rewrite Hperm, Hl1'. done. }
    destruct (IH l1' Hperm') as [Htake Hdrop].
    { intros a b Ha Hb. apply Hsep; [|done]. rewrite Hl1'. by right. }
    assert (Hlen : length (z :: l1) = S (length l1')).
    { by rewrite Hl1'. }
    rewrite Hlen. simpl. split; [|done]. by rewrite Hl1', Htake.
Qed.

End SortMore.

Section SeamOrder.
Import Py Detection Vocabulary.

(** The seams are those of the two rows the function forms. *)
Lemma calculate_seam_lengths_of_rows (holes holes' : list Hole) :
  length holes = length holes' →
  sorted hole_x (take 2 (sorted hole_y holes)) = sorted hole_x (take 2 (sorted hole_y holes')) →
  sorted hole_x (take 2 (drop 2 (sorted hole_y holes)))
  = sorted hole_x (take 2 (drop 2 (sorted hole_y holes'))) →
  calculate_seam_lengths holes = calculate_seam_lengths holes'.
Proof.
  intros Hlen Htop Hbot. unfold calculate_seam_lengths. by rewrite Hlen, Htop, Hbot.
Qed.

(** Only the four holes that come first by ascending [y] count. *)
Theorem seams_use_four_lowest (holes : list Hole) :
  calculate_seam_lengths holes = calculate_seam_lengths (take 4 (sorted hole_y holes)).
Proof.
  pose proof (sorted_sorted hole_y holes) as Hsorted.
  pose proof (sorted_length hole_y holes) as Hlen.
  destruct (Nat.lt_ge_cases (length holes) 4) as [Hfew|Hmany].
  - rewrite !calculate_seam_lengths_few; [done| |done].
    rewrite length_take. lia.
  - destruct (sorted hole_y holes) as [|a [|b [|c [|d rest]]]] eqn:Hs;
      simpl in Hlen; try lia.
    change (take 4 (a :: b :: c :: d :: rest)) with [a; b; c; d].
    assert (Hfour : sorted hole_y [a; b; c; d] = [a; b; c; d]).
    { apply sorted_id.
      change (a :: b :: c :: d :: rest) with ([a; b; c; d] ++ rest) in Hsorted.
      by apply StronglySorted_app_1_l in Hsorted. }
    unfold calculate_seam_lengths.
    destruct (Nat.ltb_spec (length holes) 4) as [?|_]; [lia|].
    rewrite Hs, Hfour. reflexivity.
Qed.

(** When the two rows are apart in [y], apart from the other holes, and the
    two holes of a row differ in [x], the grid is the same for every order of
    the detected holes. *)
Lemma seam_grid_determined (holes : list Hole) (tl tr bl br : Hole) (rest : list Hole) :
  holes ≡ₚ tl :: tr :: bl :: br :: rest →
  (hole_x tl < hole_x tr)%Z → (hole_x bl < hole_x br)%Z →
  (∀ t b, t ∈ [tl; tr] → b ∈ bl :: br :: rest → (hole_y t < hole_y b)%Z) →
  (∀ b h, b ∈ [bl; br] → h ∈ rest → (hole_y b < hole_y h)%Z) →
  calculate_seam_lengths holes =
    (edge_gap tl tr, edge_gap bl br, edge_gap tl bl, edge_gap tr br).
Proof.
  intros Hperm Hxt Hxb Hrows Hrest.
  pose proof (sorted_sorted hole_y holes) as Hsorted.
  assert (Hperm' : sorted hole_y holes ≡ₚ [tl; tr] ++ (bl :: br :: rest)).
  { by rewrite sorted_perm, Hperm. }
  destruct (sorted_split hole_y _ _ _ Hsorted Hperm' Hrows) as [Htop Hlow].
  change (length [tl; tr]) with 2 in Htop, Hlow.
  assert (Hsorted2 : StronglySorted (key_le hole_y) (drop 2 (sorted hole_y holes))).
  { rewrite <-(take_drop 2 (sorted hole_y holes)) in Hsorted.
    by apply StronglySorted_app_1_r in Hsorted. }
  assert (Hlow' : drop 2 (sorted hole_y holes) ≡ₚ [bl; br] ++ rest) by done.
  destruct (sorted_split hole_y _ _ _ Hsorted2 Hlow' Hrest) as [Hbot _].
  change (length [bl; br]) with 2 in Hbot.
  assert (Htop' : sorted hole_x (take 2 (sorted hole_y holes)) = [tl; tr]).
  { rewrite (sorted_perm_eq hole_x _ [tl; tr] Htop).
    - rewrite sorted_pair. by destruct (Z.leb_spec (hole_x tl) (hole_x tr)); [|lia].
    - intros x y Hx Hy Hxy. rewrite Htop in Hx, Hy.
      apply elem_of_pair in Hx, Hy. destruct Hx as [->| ->], Hy as [->| ->]; (done || lia). }
  assert (Hbot' : sorted hole_x (take 2 (drop 2 (sorted hole_y holes))) = [bl; br]).
  { rewrite (sorted_perm_eq hole_x _ [bl; br] Hbot).
    - rewrite sorted_pair. by destruct (Z.leb_spec (hole_x bl) (hole_x br)); [|lia].
    - intros x y Hx Hy Hxy. rewrite Hbot in Hx, Hy.
      apply elem_of_pair in Hx, Hy. destruct Hx as [->| ->], Hy as [->| ->]; (done || lia). }
  unfold calculate_seam_lengths.
  assert (Hlen : length holes = S (S (S (S (length rest))))) by (by rewrite Hperm).
  destruct (Nat.ltb_spec (length holes) 4) as [?|_]; [lia|].
  rewrite Htop', Hbot'. unfold edge_gap. by rewrite !distance_euclid.
Qed.

(** The seams of a grid of holes whose rows are apart, in whatever order the
    holes were detected: top and bottom between the two holes of a row, left
    and right between the holes of a column. *)
Theorem seams_of_separated_grid (holes : list Hole) (tl tr bl br : Hole) (rest : list Hole) :
  holes ≡ₚ tl :: tr :: bl :: br :: rest →
  (hole_x tl < hole_x tr)%Z → (hole_x bl < hole_x br)%Z →
  (∀ t b, t ∈ [tl; tr] → b ∈ bl :: br :: rest → (hole_y t < hole_y b)%Z) →
  (∀ b h, b ∈ [bl; br] → h ∈ rest → (hole_y b < hole_y h)%Z) →
  calculate_seam_lengths holes =
    (edge_gap tl tr, edge_gap bl br, edge_gap tl bl, edge_gap tr br).
Proof.
  intros Hperm Hxt Hxb Hrows Hrest. by apply (seam_grid_determined holes tl tr bl br rest).
Qed.

Lemma euclid_horizontal (x1 x2 y : Z) : (x1 ≤ x2)%Z → euclid (x1, y) (x2, y) = IZR (x2 - x1).
Proof.
  intros H. unfold euclid. cbn [fst snd].
  replace ((IZR x2 - IZR x1) ^ 2 + (IZR y - IZR y) ^ 2)%R
    with (IZR (x2 - x1) * IZR (x2 - x1))%R by (rewrite minus_IZR; ring).
  apply sqrt_square, IZR_le. lia.
Qed.

Lemma euclid_vertical (x y1 y2 : Z) : (y1 ≤ y2)%Z → euclid (x, y1) (x, y2) = IZR (y2 - y1).
Proof.
  intros H. unfold euclid. cbn [fst snd].
  replace ((IZR x - IZR x) ^ 2 + (IZR y2 - IZR y1) ^ 2)%R
    with (IZR (y2 - y1) * IZR (y2 - y1))%R by (rewrite minus_IZR; ring).
  apply sqrt_square, IZR_le. lia.
Qed.

(** Four holes at the corners of an upright rectangle, detected in any
    order: the horizontal seams are the width of the rectangle less the two
    radii, the vertical seams its height less the two radii. *)
Theorem seams_of_rectangle (holes : list Hole) (x1 x2 y1 y2 : Z) (w_tl w_tr w_bl w_br : R) :
  holes ≡ₚ corner_holes x1 x2 y1 y2 w_tl w_tr w_bl w_br →
  (x1 < x2)%Z → (y1 < y2)%Z →
  calculate_seam_lengths holes =
    ((IZR (x2 - x1) - (w_tl / 2 + w_tr / 2))%R,
     (IZR (x2 - x1) - (w_bl / 2 + w_br / 2))%R,
     (IZR (y2 - y1) - (w_tl / 2 + w_bl / 2))%R,
     (IZR (y2 - y1) - (w_tr / 2 + w_br / 2))%R).
Proof.
  intros Hperm Hx Hy. unfold corner_holes in Hperm.
  rewrite (seam_grid_determined holes _ _ _ _ [] Hperm).
  - unfold edge_gap. simpl.
    by rewrite !euclid_horizontal, !euclid_vertical by lia.
  - unfold hole_x. simpl. lia.
  - unfold hole_x. simpl. lia.
  - intros t b Ht Hb. apply elem_of_pair in Ht, Hb.
    destruct Ht as [->| ->], Hb as [->| ->]; unfold hole_y; simpl; lia.
  - intros b h _ Hh. by apply elem_of_nil in Hh.
Qed.

Lemma seams_of_separated_grid_witness :
  tilted_holes_shuffled ≡ₚ tilted_holes ∧
  calculate_seam_lengths tilted_holes_shuffled =
    (edge_gap (mk_hole (100, 10)%Z 30 30) (mk_hole (200, 30)%Z 30 30),
     edge_gap (mk_hole (80, 110)%Z 30 30) (mk_hole (180, 130)%Z 30 30),
     edge_gap (mk_hole (100, 10)%Z 30 30) (mk_hole (80, 110)%Z 30 30),
     edge_gap (mk_hole (200, 30)%Z 30 30) (mk_hole (180, 130)%Z 30 30)).
Proof.
  assert (Hperm : tilted_holes_shuffled ≡ₚ tilted_holes).
  { unfold tilted_holes_shuffled, tilted_holes.
    apply (Permutation_cons_append [_; _; _]). }
  split; [exact Hperm|].
  apply (seams_of_separated_grid tilted_holes_shuffled _ _ _ _ [] Hperm).
  - unfold hole_x. simpl. lia.
  - unfold hole_x. simpl. lia.
  - intros t b Ht Hb. apply elem_of_pair in Ht, Hb.
    destruct Ht as [->| ->], Hb as [->| ->]; unfold hole_y; simpl; lia.
  - intros b h _ Hh. by apply elem_of_nil in Hh.
Defined.

Lemma seams_of_rectangle_witness :
  square_holes_shuffled ≡ₚ corner_holes 0 100 0 100 30 40 30 40 ∧
  calculate_seam_lengths square_holes_shuffled = (65, 65, 70, 60)%R.
Proof.
  assert (Hperm : square_holes_shuffled ≡ₚ corner_holes 0 100 0 100 30 40 30 40).
  { unfold square_holes_shuffled, corner_holes.
    etrans; [apply perm_swap|]. apply perm_skip.
    etrans; [apply (Permutation_cons_append [_; _])|]. simpl. apply perm_swap. }
  split; [exact Hperm|].
  rewrite (seams_of_rectangle _ 0 100 0 100 30 40 30 40 Hperm) by lia.
  repeat f_equal; rewrite minus_IZR; lra.
Defined.

End SeamOrder.

(** ** Spatter *)

Section Spatter.
Import Py Detection Main Vocabulary.

Lemma spatter_band_dec (a : R) :
  (Rltb 3 a && Rltb a 100 = true ↔ in_spatter_band a).
Proof.
  unfold in_spatter_band. rewrite andb_true_iff, !Rltb_true. done.
Qed.

(** [detect_spatter] counts the contours whose area lies strictly between 3
    and 100: a contour of area 3 or 100 is no spatter, a frame has at most as
    many spatter blobs as contours, and none exactly when no area lies in the
    band. *)
Theorem detect_spatter_band (m : R) (circles : option (list (Z * Z * Z)))
    (a : R) (areas : list R) :
  let count l := detect_spatter (mk_frame m circles l) in
  count [] = 0 ∧
  (in_spatter_band a → count (a :: areas) = S (count areas)) ∧
  ((a <= 3 ∨ 100 <= a)%R → count (a :: areas) = count areas) ∧
  count areas ≤ length areas ∧
  (count areas = 0 ↔ Forall (λ x, ¬ in_spatter_band x) areas).
Proof.
  cbv zeta. unfold detect_spatter. cbn [contour_areas].
  split; [done|]. split; [|split; [|split]].
  - intros Ha. rewrite filter_cons. apply spatter_band_dec in Ha.
    by destruct (decide _).
  - intros Ha. rewrite filter_cons.
    destruct (decide _) as [Hin|]; [|done].
    apply spatter_band_dec in Hin. unfold in_spatter_band in Hin. lra.
  - apply length_filter.
  - rewrite length_zero_iff_nil. split.
    + intros Hnil. apply Forall_forall. intros x Hx Hband.
      assert (Hin : x ∈ filter (λ area, Rltb 3 area && Rltb area 100 = true) areas).
      { apply list_elem_of_filter. split; [by apply spatter_band_dec|done]. }
      rewrite Hnil in Hin. by apply elem_of_nil in Hin.
    + intros Hall. induction Hall as [|x l Hx _ IH]; [done|].
      rewrite filter_cons. destruct (decide _) as [Hin|]; [|exact IH].
      by apply spatter_band_dec in Hin.
Qed.

End Spatter.

(** ** Statistics *)

Section StatisticsFacts.
Import Py Detection Main Vocabulary Report.
Context {installed : Pandas}.
Local Open Scope R_scope.

Lemma rate_bounds (a total : Z) :
  (0 ≤ a ≤ total)%Z → (0 < total)%Z → 0 <= IZR a / IZR total * 100 <= 100.
Proof.
  intros [Ha Hat] Ht.
  apply IZR_le in Ha, Hat. apply IZR_lt in Ht.
  assert (Hinv : 0 < / IZR total) by (apply Rinv_0_lt_compat; lra).
  assert (Hq : 0 <= IZR a / IZR total <= 1).
  { unfold Rdiv. split.
    - apply Rmult_le_pos; lra.
    - replace 1 with (IZR total * / IZR total) by (apply Rinv_r; lra).
      apply Rmult_le_compat_r; lra. }
  lra.
Qed.

(** After a session of N frames on a new inspector, [get_statistics]
    reports N parts in all, of which the NOK ones are the frames classified
    NOK; both rates lie between 0 and 100, and they are 0.0, with no division
    by zero, as long as nothing was processed. *)
Theorem statistics_after_session (user order_number output_dir : string)
    (d : Disk) (jobs : list Job) :
  let out := run_session (Inspector__init__ user order_number output_dir) d jobs in
  let stats := get_statistics out.1.2 in
  total_parts stats = Z.of_nat (length jobs) ∧
  nok_parts stats = Z.of_nat (count_nok out.1.1) ∧
  (ok_parts stats + nok_parts stats)%Z = total_parts stats ∧
  0 <= ok_rate stats <= 100 ∧ 0 <= nok_rate stats <= 100 ∧
  (jobs = [] → ok_rate stats = 0 ∧ nok_rate stats = 0).
Proof.
  intros out stats.
  destruct (run_session_counters (Inspector__init__ user order_number output_dir) d jobs)
    as (Hlen & Hcount & Hok & Hnok).
  fold out in Hlen, Hcount, Hok, Hnok. simpl in Hok, Hnok.
  assert (Hk : count_nok out.1.1 ≤ length jobs).
  { rewrite Hcount. apply length_filter. }
  unfold stats, get_statistics. cbn [total_parts nok_parts ok_parts ok_rate nok_rate].
  rewrite Hok, Hnok.
  split; [lia|]. split; [lia|]. split; [lia|].
  destruct (Z.ltb_spec 0 (0 + Z.of_nat (length jobs) - Z.of_nat (count_nok out.1.1)
                          + (0 + Z.of_nat (count_nok out.1.1)))) as [Hpos|Hzero].
  - split; [apply rate_bounds; lia|]. split; [apply rate_bounds; lia|].
    intros ->. simpl in Hpos. lia.
  - split; [lra|]. split; [lra|]. done.
Qed.

End StatisticsFacts.

(** ** The header of the CSV file *)

Section Header.
Import Main Report.

(** [_initialize_csv] never touches a file that exists, so that the rows of
    an earlier session stay; where none exists it writes the nineteen columns
    that [Config.CSV_HEADERS] lists and no row; a second call changes
    nothing. *)
Theorem initialize_csv_keeps_rows (file : option CsvFile) :
  (∀ f, file = Some f → _initialize_csv file = Some f) ∧
  (file = None → _initialize_csv file = Some (mk_csv_file Settings.CSV_HEADERS [])) ∧
  is_Some (_initialize_csv file) ∧
  _initialize_csv (_initialize_csv file) = _initialize_csv file.
Proof.
  split; [by intros f ->|]. split; [by intros ->|].
  destruct file; simpl; split; (by eexists) || done.
Qed.

End Header.

(** ** The validation of the settings *)

Section Validation.
Import Py Settings Terms.

Lemma Rleb_true (a b : R) : Rleb a b = true ↔ (a <= b)%R.
Proof. unfold Rleb. destruct (Rle_dec a b); split; (done || lra). Qed.

Lemma Rleb_false (a b : R) : Rleb a b = false ↔ (b < a)%R.
Proof. unfold Rleb. destruct (Rle_dec a b); split; (done || lra). Qed.

Lemma float_ltb_lt (a b : pyfloat) : float_ltb a b = true ↔ float_lt a b.
Proof.
  destruct a as [x|[]|], b as [y|[]|]; cbn; try (split; (done || by intros [])).
  destruct (Rlt_dec x y); split; (done || lra).
Qed.

Lemma float_leb_le (a b : pyfloat) : float_leb a b = true ↔ float_le a b.
Proof.
  unfold float_le.
  destruct a as [x|[]|], b as [y|[]|]; cbn;
    try (split; [done | by intros [[]|[[=] _]]]);
    try (split; [done | by intros [|[[=] _]]]);
    try (split; [by (left + (right; split)) | done]);
    try (split; [done | by intros [|[_ ?]]]).
  destruct (Rle_dec x y) as [Hle|Hgt]; split; try done.
  - intros _. destruct (Rle_lt_or_eq_dec x y Hle) as [?| ->]; [by left|by right].
  - intros [Hlt|[[= ->] _]]; lra.
Qed.

Lemma app_singleton_not_nil {A : Type} (l : list A) (x : A) : l ++ [x] ≠ [].
Proof. by destruct l. Qed.

Lemma validate_configuration_parts (cls : Config) :
  validate_configuration cls =
    (if (CAMERA_WIDTH cls <=? 0)%Z || (CAMERA_HEIGHT cls <=? 0)%Z
     then ["Invalid camera resolution settings"] else [])
    ++ (if (CAMERA_FPS cls <=? 0)%Z || (120 <? CAMERA_FPS cls)%Z
        then ["Invalid camera FPS setting"] else [])
    ++ (if float_leb (PART_DETECTION_THRESHOLD cls) (Finite 0)
           || float_ltb (Finite 255) (PART_DETECTION_THRESHOLD cls)
        then ["Invalid part detection threshold"] else [])
    ++ (if (MAX_SPATTER_COUNT cls <? 0)%Z then ["Invalid maximum spatter count"] else [])
    ++ (if (MAX_HOLE_RADIUS cls <=? MIN_HOLE_RADIUS cls)%Z
        then ["Invalid hole radius range"] else [])
    ++ (if Rleb (HOLE_DIAMETER_MAX cls) (HOLE_DIAMETER_MIN cls)
        then ["Invalid hole diameter tolerance range"] else []).
Proof.
  unfold validate_configuration.
  destruct (_ || _), (_ || _), (_ || _), (_ <? _)%Z, (_ <=? _)%Z, (Rleb _ _); reflexivity.
Qed.

(** The check of the threshold passes for a number of (0, 255] and for
    NaN, which no comparison finds too small or too large. *)
Lemma threshold_check (t : pyfloat) :
  float_leb t (Finite 0) || float_ltb (Finite 255) t = false
  ↔ (∃ x, t = Finite x ∧ (0 < x <= 255)%R) ∨ t = NaN.
Proof.
  destruct t as [x|[]|]; cbn.
  - destruct (Rle_dec x 0), (Rlt_dec 255 x); cbn; split; try done;
      try (intros [(y & [= <-] & ?)|[=]]; lra).
    intros _. left. exists x. split; [done|lra].
  - split; [done|]. by intros [(y & [=] & _)|[=]].
  - split; [done|]. by intros [(y & [=] & _)|[=]].
  - split; [by right|done].
Qed.

(** [validate_configuration] finds no issue exactly when the resolution
    and the frame rate are positive, the rate at most 120, the spatter
    maximum not negative, the two ranges not empty, and the threshold is a
    number of (0, 255] or NaN: settings that are all in range pass, as the
    settings the class is written with do, and so does a threshold NaN,
    which is no valid threshold. *)
Theorem validate_configuration_complete (cls : Config) :
  (validate_configuration cls = []
   ↔ other_settings_valid cls
     ∧ (threshold_valid cls ∨ PART_DETECTION_THRESHOLD cls = NaN)) ∧
  (settings_valid cls → validate_configuration cls = []) ∧
  validate_configuration shipped = [] ∧
  validate_configuration (with_threshold NaN) = [] ∧
  ¬ settings_valid (with_threshold NaN).
Proof.
  assert (Hiff : validate_configuration cls = []
    ↔ other_settings_valid cls
      ∧ (threshold_valid cls ∨ PART_DETECTION_THRESHOLD cls = NaN)).
  { rewrite validate_configuration_parts. unfold other_settings_valid, threshold_valid.
    rewrite <-threshold_check.
    destruct (float_leb (PART_DETECTION_THRESHOLD cls) (Finite 0)
              || float_ltb (Finite 255) (PART_DETECTION_THRESHOLD cls)).
    - split; [|by intros [_ [=]]].
      destruct (_ || _), (_ || _), (_ <? _)%Z, (_ <=? _)%Z, (Rleb _ _); done.
    - unfold Rleb.
      destruct (Z.leb_spec (CAMERA_WIDTH cls) 0), (Z.leb_spec (CAMERA_HEIGHT cls) 0),
        (Z.leb_spec (CAMERA_FPS cls) 0), (Z.ltb_spec 120 (CAMERA_FPS cls)),
        (Z.ltb_spec (MAX_SPATTER_COUNT cls) 0),
        (Z.leb_spec (MAX_HOLE_RADIUS cls) (MIN_HOLE_RADIUS cls)),
        (Rle_dec (HOLE_DIAMETER_MAX cls) (HOLE_DIAMETER_MIN cls));
        simpl;
        (split; [first [done | intros _; split; [|done]; repeat split; (lia || lra)]
                | intros [(? & ? & ? & ? & ? & ?) _]; try done; exfalso; (lia || lra)]). }
  split; [exact Hiff|].
  split; [intros [Hother Hthreshold]; apply Hiff; split; [done|by left]|].
  split.
  { unfold validate_configuration, shipped, Rleb. cbn.
    destruct (Rle_dec 240 0); [lra|]. destruct (Rlt_dec 255 240); [lra|].
    destruct (Rle_dec 45 35); [lra|]. done. }
  split.
  { unfold validate_configuration, with_threshold, Rleb. cbn.
    destruct (Rle_dec 45 35); [lra|]. done. }
  by intros [_ (t & [=] & _)].
Qed.

End Validation.

Section ValidationIssues.
Import Py Settings Terms.

(** Each issue that [validate_configuration] reports stands for the one
    check that failed, and a check that fails is always reported; a
    threshold that is a number is reported exactly when it is not in
    (0, 255]. *)
Theorem validate_configuration_issues (cls : Config) :
  let issues := validate_configuration cls in
  ("Invalid camera resolution settings" ∈ issues
     ↔ (CAMERA_WIDTH cls ≤ 0)%Z ∨ (CAMERA_HEIGHT cls ≤ 0)%Z) ∧
  ("Invalid camera FPS setting" ∈ issues
     ↔ (CAMERA_FPS cls ≤ 0)%Z ∨ (120 < CAMERA_FPS cls)%Z) ∧
  ("Invalid part detection threshold" ∈ issues
     ↔ float_le (PART_DETECTION_THRESHOLD cls) (Finite 0)
       ∨ float_lt (Finite 255) (PART_DETECTION_THRESHOLD cls)) ∧
  (∀ t, PART_DETECTION_THRESHOLD cls = Finite t →
     ("Invalid part detection threshold" ∈ issues ↔ (t <= 0)%R ∨ (255 < t)%R)) ∧
  ("Invalid maximum spatter count" ∈ issues ↔ (MAX_SPATTER_COUNT cls < 0)%Z) ∧
  ("Invalid hole radius range" ∈ issues ↔ (MAX_HOLE_RADIUS cls ≤ MIN_HOLE_RADIUS cls)%Z) ∧
  ("Invalid hole diameter tolerance range" ∈ issues
     ↔ (HOLE_DIAMETER_MAX cls <= HOLE_DIAMETER_MIN cls)%R).
Proof.
  cbv zeta. rewrite validate_configuration_parts.
  assert (Hmem : ∀ (s m : string) (b : bool),
    s ∈ (if b then [m] else []) ↔ b = true ∧ s = m).
  { intros s m [].
    - rewrite elem_of_cons, elem_of_nil. split; [by intros [->|[]] | intros [_ ->]; by left].
    - rewrite elem_of_nil. split; [done | by intros [? _]]. }
  assert (Hthreshold :
    "Invalid part detection threshold"
      ∈ (if (CAMERA_WIDTH cls <=? 0)%Z || (CAMERA_HEIGHT cls <=? 0)%Z
         then ["Invalid camera resolution settings"] else [])
        ++ (if (CAMERA_FPS cls <=? 0)%Z || (120 <? CAMERA_FPS cls)%Z
            then ["Invalid camera FPS setting"] else [])
        ++ (if float_leb (PART_DETECTION_THRESHOLD cls) (Finite 0)
               || float_ltb (Finite 255) (PART_DETECTION_THRESHOLD cls)
            then ["Invalid part detection threshold"] else [])
        ++ (if (MAX_SPATTER_COUNT cls <? 0)%Z then ["Invalid maximum spatter count"] else [])
        ++ (if (MAX_HOLE_RADIUS cls <=? MIN_HOLE_RADIUS cls)%Z
            then ["Invalid hole radius range"] else [])
        ++ (if Rleb (HOLE_DIAMETER_MAX cls) (HOLE_DIAMETER_MIN cls)
            then ["Invalid hole diameter tolerance range"] else [])
    ↔ float_le (PART_DETECTION_THRESHOLD cls) (Finite 0)
      ∨ float_lt (Finite 255) (PART_DETECTION_THRESHOLD cls)).
  { rewrite !elem_of_app, !Hmem, !orb_true_iff, float_leb_le, float_ltb_lt.
    split.
    - intros H; repeat (destruct H as [H|H]); destruct H as [Hc Heq];
        (discriminate Heq || exact Hc).
    - intros H. right. right. by left. }
  split; [|split; [|split; [exact Hthreshold|split; [|split; [|split]]]]].
  - rewrite !elem_of_app, !Hmem, !orb_true_iff, !Z.leb_le.
    split; [|intros H; by left].
    intros H; repeat (destruct H as [H|H]); destruct H as [Hc Heq];
      (discriminate Heq || exact Hc).
  - rewrite !elem_of_app, !Hmem, !orb_true_iff, !Z.leb_le, !Z.ltb_lt.
    split; [|intros H; right; by left].
    intros H; repeat (destruct H as [H|H]); destruct H as [Hc Heq];
      (discriminate Heq || exact Hc).
  - intros t Ht. rewrite Hthreshold, Ht. unfold float_le. cbn. split.
    + intros [[Hlt|[[= ->] _]]|Hlt]; [left; lra|left; lra|by right].
    + intros [Hle|Hlt]; [left|by right].
      destruct (Rle_lt_or_eq_dec t 0 Hle) as [?| ->]; [by left|by right].
  - rewrite !elem_of_app, !Hmem, !Z.ltb_lt.
    split; [|intros H; right; right; right; by left].
    intros H; repeat (destruct H as [H|H]); destruct H as [Hc Heq];
      (discriminate Heq || exact Hc).
  - rewrite !elem_of_app, !Hmem, !Z.leb_le.
    split; [|intros H; right; right; right; right; by left].
    intros H; repeat (destruct H as [H|H]); destruct H as [Hc Heq];
      (discriminate Heq || exact Hc).
  - rewrite !elem_of_app, !Hmem, !Rleb_true.
    split; [|intros H; right; right; right; right; by right].
    intros H; repeat (destruct H as [H|H]); destruct H as [Hc Heq];
      (discriminate Heq || exact Hc).
Qed.

End ValidationIssues.

(** ** The order directory and the camera *)

Section Places.
Import Py Detection Main Vocabulary PosixPath FileUtils.
Context {installed : Pandas}.

Lemma join_prefix (dir name : string) :
  startswith_sep name = false → ∃ rest, join dir name = dir +:+ rest.
Proof.
  intros Hname. unfold join. rewrite Hname.
  destruct (bool_decide (dir = "") || endswith_sep dir); by eexists.
Qed.

Lemma stem_not_absolute (st ord pn tail : string) (c cam : Z) :
  st = "OK" ∨ st = "NOK" →
  startswith_sep (stem st ord pn c cam +:+ tail) = false.
Proof. by intros [->| ->]. Qed.

(** Every image is written under the order directory of the inspector: its
    path starts with [order_dir]. *)
Theorem image_in_order_directory (self : Inspector) (d : Disk) (img : Frame)
    (pn : string) (cam : Z) (now : Timestamp) :
  ∃ rest, image_path (process_and_save self d img pn cam now).1.1
          = Some (order_dir self +:+ rest).
Proof.
  pose proof (process_and_save_steps self d img pn cam now) as Hsteps.
  cbv zeta in Hsteps. rewrite Hsteps. cbn [fst snd image_path set_image_path].
  assert (Hst := analyse_status img pn cam now).
  match goal with
  | |- context [get_next_filename ?fs ?dir ?st ?ord ?p ?c ?cam] =>
      destruct (get_next_filename_cases fs dir st ord p c cam)
        as [[_ Heq]|[_ (k & _ & Heq & _)]]; rewrite Heq;
      [ destruct (join_prefix dir (stem st ord p c cam +:+ ".jpg")) as [rest Hrest]
      | destruct (join_prefix dir (stem st ord p c cam +:+ "_" +:+ pretty k +:+ ".jpg"))
          as [rest Hrest] ];
      try (by apply stem_not_absolute)
  end.
  - exists rest. unfold base_path. by rewrite Hrest.
  - exists rest. unfold suffix_path. by rewrite Hrest.
Qed.

(** With the camera controller of the repository [capture_and_process]
    never reports an error: when the camera cannot be opened, or gives no
    frame, or raises, the synthetic test part is inspected in its place, a
    counter moves and a row is written. *)
Theorem camera_failure_is_processed (is_connected connect_ok : bool)
    (read : Camera.read_result) (test_part : Frame)
    (self : Inspector) (d : Disk) (pn : string) (cam : Z) (now : Timestamp) :
  let captured := Camera.capture_image is_connected connect_ok read test_part in
  (∃ r, (capture_and_process self d captured pn cam now).1.1 = Processed r) ∧
  ((is_connected = false ∧ connect_ok = false)
   ∨ read = Camera.ReadNoFrame ∨ read = Camera.ReadRaises →
   capture_and_process self d captured pn cam now
   = capture_and_process self d (Some test_part) pn cam now) ∧
  (∀ frame, (is_connected = true ∨ connect_ok = true) → read = Camera.ReadFrame frame →
   capture_and_process self d captured pn cam now
   = capture_and_process self d (Some frame) pn cam now).
Proof.
  cbv zeta. split; [|split].
  - destruct (capture_image_never_none is_connected connect_ok read test_part) as [f ->].
    unfold capture_and_process.
    destruct (process_and_save self d f pn cam now) as [[r self'] d']. by eexists.
  - unfold Camera.capture_image.
    intros [[-> ->]|[-> | ->]]; [done|by destruct (negb _ && negb _)..].
  - unfold Camera.capture_image. intros frame [-> | ->] ->; [done|].
    by destruct is_connected.
Qed.

End Places.

(** ** Sorting with a comparison *)

Section SortLe.
Import PyMore.
Context {A : Type} (le : A → A → bool).

Lemma insert_le_perm (x : A) (l : list A) : insert_le le x l ≡ₚ x :: l.
Proof.
  induction l as [|y l IH]; simpl; [done|].
  destruct (le x y); [done|]. rewrite IH. apply perm_swap.
Qed.

Lemma sort_le_perm (l : list A) : sort_le le l ≡ₚ l.
Proof.
  induction l as [|x l IH]; simpl; [done|]. by rewrite insert_le_perm, IH.
Qed.

Hypothesis le_total : ∀ a b, le a b = false → le b a = true.
Hypothesis le_trans : ∀ a b c, le a b = true → le b c = true → le a c = true.

Lemma insert_le_sorted (x : A) (l : list A) :
  StronglySorted (λ a b, le a b = true) l →
  StronglySorted (λ a b, le a b = true) (insert_le le x l).
Proof.
  induction 1 as [|y l Hl IH Hy]; simpl.
  - repeat constructor.
  - destruct (le x y) eqn:Hxy.
    + constructor; [by constructor|]. constructor; [done|].
      eapply Forall_impl; [exact Hy|]. intros z Hz. by apply le_trans with y.
    + constructor; [done|]. rewrite insert_le_perm. constructor; [|done].
      by apply le_total.
Qed.

Lemma sort_le_sorted (l : list A) : StronglySorted (λ a b, le a b = true) (sort_le le l).
Proof.
  induction l as [|x l IH]; simpl; [constructor|]. by apply insert_le_sorted.
Qed.

End SortLe.

(** ** Strings of file names *)

Section NameFacts.
Import PosixPath PyMore Files Terms.

Lemma string_app_nil_r (s : string) : s +:+ "" = s.
Proof.
  apply list_ascii_of_string_inj. by rewrite list_ascii_of_string_app, app_nil_r.
Qed.

Lemma endswith_true (s suffix : string) :
  endswith s suffix = true ↔ ∃ front, s = front +:+ suffix.
Proof.
  unfold endswith. rewrite bool_decide_eq_true. split.
  - intros [Hlen Hdrop].
    exists (string_of_list_ascii
              (take (length (list_ascii_of_string s) - length (list_ascii_of_string suffix))
                 (list_ascii_of_string s))).
    apply list_ascii_of_string_inj.
    rewrite list_ascii_of_string_app, list_ascii_of_string_of_list_ascii.
    symmetry. etrans; [|apply (take_drop (length (list_ascii_of_string s)
                                          - length (list_ascii_of_string suffix)))].
    by rewrite Hdrop.
  - intros [front ->]. rewrite list_ascii_of_string_app, length_app. split; [lia|].
    replace (length (list_ascii_of_string front) + length (list_ascii_of_string suffix)
             - length (list_ascii_of_string suffix))
      with (length (list_ascii_of_string front)) by lia.
    by rewrite drop_app_length.
Qed.

Lemma has_extension_endswith (name extension : string) :
  endswith (lower name) (lower extension) = true ↔ has_extension name extension.
Proof. apply endswith_true. Qed.

(** Two suffixes of one string: the shorter one is a suffix of the longer. *)
Lemma endswith_both (s u v : string) :
  endswith s u = true → endswith s v = true →
  String.length u ≤ String.length v → endswith v u = true.
Proof.
  rewrite !endswith_true. intros [fu Hu] [fv Hv] Hlen.
  apply (f_equal list_ascii_of_string) in Hu, Hv.
  rewrite list_ascii_of_string_app in Hu, Hv.
  assert (Hlu : String.length u = length (list_ascii_of_string u)).
  { clear. induction u; simpl; [done|]. by rewrite IHu. }
  assert (Hlv : String.length v = length (list_ascii_of_string v)).
  { clear. induction v; simpl; [done|]. by rewrite IHv. }
  rewrite Hlu, Hlv in Hlen.
  assert (Happ : list_ascii_of_string fu ++ list_ascii_of_string u
                 = list_ascii_of_string fv ++ list_ascii_of_string v) by congruence.
  exists (string_of_list_ascii
            (take (length (list_ascii_of_string v) - length (list_ascii_of_string u))
               (list_ascii_of_string v))).
  apply list_ascii_of_string_inj.
  rewrite list_ascii_of_string_app, list_ascii_of_string_of_list_ascii.
  assert (Hlens : length (list_ascii_of_string fu) + length (list_ascii_of_string u)
                  = length (list_ascii_of_string fv) + length (list_ascii_of_string v)).
  { by rewrite <-!length_app, Happ. }
  assert (Hu' : list_ascii_of_string u
                = drop (length (list_ascii_of_string v) - length (list_ascii_of_string u))
                    (list_ascii_of_string v)).
  { transitivity (drop (length (list_ascii_of_string fu))
                    (list_ascii_of_string fu ++ list_ascii_of_string u)).
    { by rewrite drop_app_length. }
    rewrite Happ, drop_app_ge by lia. f_equal. lia. }
  symmetry. etrans; [|apply (take_drop (length (list_ascii_of_string v)
                                        - length (list_ascii_of_string u)))].
  by rewrite <-Hu'.
Qed.

Lemma strip_prefix_app (prefix s : string) : strip_prefix prefix (prefix +:+ s) = Some s.
Proof.
  induction prefix as [|a prefix IH]; [by destruct s|].
  change (String a prefix +:+ s) with (String a (prefix +:+ s)). simpl.
  by rewrite Ascii.eqb_refl.
Qed.

Lemma strip_prefix_Some (prefix s rest : string) :
  strip_prefix prefix s = Some rest → s = prefix +:+ rest.
Proof.
  revert s. induction prefix as [|a prefix IH]; intros s.
  - simpl. by intros [= <-].
  - destruct s as [|b s]; [done|]. simpl.
    destruct (Ascii.eqb_spec a b) as [->|]; [|done].
    intros H%IH. by rewrite H.
Qed.

Lemma component_not_absolute (name : string) :
  component name = true → startswith_sep name = false.
Proof.
  unfold component. destruct name as [|c name]; [done|]. simpl.
  rewrite andb_true_iff. intros [Hc _]. by apply negb_true_iff.
Qed.

Lemma join_component (directory name : string) :
  component name = true → join directory name = join directory "" +:+ name.
Proof.
  intros Hname. unfold join. rewrite (component_not_absolute name Hname).
  change (startswith_sep "") with false. cbn iota.
  destruct (bool_decide (directory = "") || endswith_sep directory).
  - by rewrite string_app_nil_r.
  - change (String sep "") with ("/" +:+ "").
    change (String sep name) with ("/" +:+ name).
    by rewrite string_app_nil_r, string_app_assoc.
Qed.

Lemma entry_name_Some (directory path name : string) :
  entry_name directory path = Some name
  ↔ component name = true ∧ path = join directory name.
Proof.
  unfold entry_name. split.
  - destruct (strip_prefix _ path) as [n|] eqn:Hstrip; [|done].
    destruct (component n) eqn:Hn; [|done]. intros [= <-].
    split; [done|]. apply strip_prefix_Some in Hstrip.
    by rewrite (join_component directory n Hn).
  - intros [Hname ->].
    by rewrite (join_component directory name Hname), strip_prefix_app, Hname.
Qed.

End NameFacts.

(** ** The files of a directory *)

Section Listing.
Import PosixPath PyMore Files Terms.

Lemma string_leb_total (a b : string) : String.leb a b = false → String.leb b a = true.
Proof. intros H. destruct (String.leb_total a b) as [H'|H']; congruence. Qed.

Lemma string_leb_trans (a b c : string) :
  String.leb a b = true → String.leb b c = true → String.leb a c = true.
Proof.
  intros Hab Hbc. apply Is_true_true. apply Is_true_true in Hab, Hbc.
  change (String.le a c). by trans b.
Qed.

Lemma join_entries (directory extension : string) (l : list string) :
  map (join directory)
    (filter (λ filename, endswith (lower filename) (lower extension) = true)
       (omap (entry_name directory) l))
  = filter (λ path, name_matches directory extension path = true) l.
Proof.
  induction l as [|q l IH]; [done|].
  rewrite filter_cons. cbn [omap list_omap].
  destruct (entry_name directory q) as [n|] eqn:Hq.
  - assert (Hm : name_matches directory extension q
                 = endswith (lower n) (lower extension)).
    { unfold name_matches. by rewrite Hq. }
    apply entry_name_Some in Hq as [_ ->].
    rewrite filter_cons, Hm.
    destruct (decide (endswith (lower n) (lower extension) = true)); [|exact IH].
    cbn [map]. by rewrite IH.
  - assert (Hm : name_matches directory extension q = false).
    { unfold name_matches. by rewrite Hq. }
    rewrite Hm. rewrite decide_False by done. exact IH.
Qed.

Lemma list_files_by_extension_perm (fs : FS) (directory extension : string) :
  is_directory fs directory →
  list_files_by_extension fs directory extension
  ≡ₚ filter (λ path, name_matches directory extension path = true) (elements (dom fs)).
Proof.
  intros (node & Hnode & Hdir). unfold list_files_by_extension, exists_, listdir.
  rewrite Hnode, Hdir. rewrite bool_decide_eq_true_2 by (by eexists). cbn [negb].
  by rewrite sort_le_perm, join_entries.
Qed.

Lemma list_files_by_extension_none (fs : FS) (directory extension : string) :
  ¬ is_directory fs directory → list_files_by_extension fs directory extension = [].
Proof.
  intros Hno. unfold list_files_by_extension, exists_, listdir.
  destruct (fs !! directory) as [node|] eqn:Hnode.
  - rewrite bool_decide_eq_true_2 by (by eexists). cbn [negb].
    destruct (is_dir node) eqn:Hdir; [|done].
    destruct Hno. by exists node.
  - rewrite bool_decide_eq_false_2; [done|]. by intros [? ?].
Qed.

Lemma is_directory_dec (fs : FS) (directory : string) :
  is_directory fs directory ∨ ¬ is_directory fs directory.
Proof.
  unfold is_directory. destruct (fs !! directory) as [node|] eqn:Hnode.
  - destruct (is_dir node) eqn:Hdir; [left; by exists node|].
    right. intros (n & [= <-] & Hn). congruence.
  - right. by intros (n & ? & _).
Qed.

Lemma name_matches_true (directory extension path : string) :
  name_matches directory extension path = true
  ↔ ∃ name, component name = true ∧ path = join directory name
            ∧ has_extension name extension.
Proof.
  unfold name_matches. split.
  - destruct (entry_name directory path) as [n|] eqn:Hq; [|done].
    apply entry_name_Some in Hq as [Hn ->]. intros Hext. exists n.
    by rewrite <-has_extension_endswith.
  - intros (n & Hn & -> & Hext).
    rewrite (proj2 (entry_name_Some directory (join directory n) n)) by done.
    by apply has_extension_endswith.
Qed.

Lemma elem_of_list_files_by_extension (fs : FS) (directory extension path : string) :
  path ∈ list_files_by_extension fs directory extension
  ↔ is_directory fs directory ∧ is_Some (fs !! path) ∧
    ∃ name, component name = true ∧ path = join directory name
            ∧ has_extension name extension.
Proof.
  destruct (is_directory_dec fs directory) as [Hdir|Hno].
  - rewrite (list_files_by_extension_perm fs directory extension Hdir).
    rewrite list_elem_of_filter, elem_of_elements, elem_of_dom, name_matches_true.
    split; [intros [? ?]|intros (_ & ? & ?)]; by repeat split.
  - rewrite (list_files_by_extension_none fs directory extension Hno).
    rewrite elem_of_nil. split; [done|]. by intros [? _].
Qed.

Lemma list_files_by_extension_NoDup (fs : FS) (directory extension : string) :
  NoDup (list_files_by_extension fs directory extension).
Proof.
  destruct (is_directory_dec fs directory) as [Hdir|Hno].
  - rewrite (list_files_by_extension_perm fs directory extension Hdir).
    apply NoDup_filter, NoDup_elements.
  - rewrite (list_files_by_extension_none fs directory extension Hno). constructor.
Qed.

Lemma list_files_by_extension_sorted (fs : FS) (directory extension : string) :
  StronglySorted (λ a b, String.leb a b = true)
    (list_files_by_extension fs directory extension).
Proof.
  unfold list_files_by_extension. destruct (negb _); [constructor|].
  destruct (listdir fs directory); [|constructor].
  apply sort_le_sorted; [apply string_leb_total | apply string_leb_trans].
Qed.

(** [list_files_by_extension] lists, sorted and each once, the paths of the
    entries of the directory whose name ends with the extension, letter case
    apart; it lists nothing for a path that is no directory. *)
Theorem list_files_by_extension_spec (fs : FS) (directory extension : string) :
  let files := list_files_by_extension fs directory extension in
  (∀ path, path ∈ files
     ↔ is_directory fs directory ∧ is_Some (fs !! path) ∧
       ∃ name, component name = true ∧ path = join directory name
               ∧ has_extension name extension) ∧
  NoDup files ∧
  StronglySorted (λ a b, String.leb a b = true) files ∧
  (¬ is_directory fs directory → files = []).
Proof.
  cbv zeta. split; [apply elem_of_list_files_by_extension|].
  split; [apply list_files_by_extension_NoDup|].
  split; [apply list_files_by_extension_sorted|].
  apply list_files_by_extension_none.
Qed.

End Listing.

(** ** Deleting files *)

Section Deleting.
Import PosixPath PyMore Files Terms.

Lemma delete_file_cases (fs : FS) (path : string) :
  (regular fs path ∧ delete_file fs path = (true, delete path fs))
  ∨ (¬ regular fs path ∧ delete_file fs path = (false, fs)).
Proof.
  unfold delete_file, exists_, regular.
  destruct (fs !! path) as [node|] eqn:Hnode.
  - rewrite bool_decide_eq_true_2 by (by eexists).
    destruct (is_dir node) eqn:Hdir.
    + right. split; [|done]. intros (n & [= <-] & Hn). congruence.
    + left. split; [by exists node|done].
  - rewrite bool_decide_eq_false_2 by (by intros [? ?]).
    right. split; [|done]. by intros (n & ? & _).
Qed.

(** [delete_file] answers True exactly for a regular file, which is gone
    afterwards: its size reads -1 and a second call answers False; it
    answers False for a directory or a missing path and then changes
    nothing; no other path is touched. *)
Theorem delete_file_spec (fs : FS) (path : string) :
  let out := delete_file fs path in
  (out.1 = true ↔ regular fs path) ∧
  (out.1 = true →
     out.2 !! path = None ∧ get_file_size out.2 path = (-1)%Z
     ∧ (delete_file out.2 path).1 = false) ∧
  (out.1 = false → out.2 = fs) ∧
  (∀ other, other ≠ path → out.2 !! other = fs !! other).
Proof.
  cbv zeta. destruct (delete_file_cases fs path) as [[Hreg ->]|[Hno ->]]; cbn [fst snd].
  - split; [done|]. split; [|split; [done|]].
    + intros _. unfold get_file_size, delete_file, exists_.
      rewrite lookup_delete_eq. split; [done|]. split; [done|].
      by rewrite bool_decide_eq_false_2 by (by intros [? ?]).
    + intros other Hother. by rewrite lookup_delete_ne.
  - split; [split; [done|by intros ?%Hno]|]. split; [done|]. by split.
Qed.

End Deleting.

(** ** Cleaning a directory *)

Section Cleaning.
Import PosixPath PyMore Files Terms.

Lemma elem_of_concat {A : Type} (x : A) (ls : list (list A)) :
  x ∈ concat ls ↔ ∃ l, x ∈ l ∧ l ∈ ls.
Proof.
  induction ls as [|l0 ls IH]; simpl.
  - rewrite elem_of_nil. split; [done|]. by intros (l & _ & ?%elem_of_nil).
  - rewrite elem_of_app, IH. split.
    + intros [H|(l & Hx & Hl)]; [exists l0; split; [done|by left]|].
      exists l. split; [done|by right].
    + intros (l & Hx & Hl). apply elem_of_cons in Hl as [->|Hl]; [by left|].
      right. by exists l.
Qed.

Lemma elem_of_all_images (fs : FS) (directory path : string) :
  path ∈ all_images fs directory ↔ image_of fs directory path.
Proof.
  unfold all_images, image_of. rewrite elem_of_concat. split.
  - intros (l & Hpath & Hl).
    apply list_elem_of_fmap in Hl as (extension & -> & Hext).
    apply elem_of_list_files_by_extension in Hpath as (Hdir & Hsome & name & Hn & -> & Hhas).
    split; [exact Hdir|]. split; [exact Hsome|]. by exists name, extension.
  - intros (Hdir & Hsome & name & extension & Hn & -> & Hext & Hhas).
    exists (list_files_by_extension fs directory extension). split.
    + apply elem_of_list_files_by_extension. split; [exact Hdir|]. split; [exact Hsome|].
      by exists name.
    + apply list_elem_of_fmap. by exists extension.
Qed.

Lemma extensions_disjoint (fs : FS) (directory path e1 e2 : string) :
  e1 ∈ image_extensions → e2 ∈ image_extensions → e1 ≠ e2 →
  path ∈ list_files_by_extension fs directory e1 →
  path ∈ list_files_by_extension fs directory e2 → False.
Proof.
  intros He1 He2 Hne H1 H2.
  apply elem_of_list_files_by_extension in H1 as (_ & _ & n1 & Hn1 & Hp1 & Hx1).
  apply elem_of_list_files_by_extension in H2 as (_ & _ & n2 & Hn2 & Hp2 & Hx2).
  assert (n1 = n2) as <-.
  { apply (join_inj directory); [|congruence].
    by rewrite !component_not_absolute. }
  apply has_extension_endswith in Hx1, Hx2.
  unfold image_extensions in He1, He2.
  repeat (apply elem_of_cons in He1 as [->|He1]); [..|by apply elem_of_nil in He1];
  repeat (apply elem_of_cons in He2 as [->|He2]); try (by apply elem_of_nil in He2);
  try done;
  first
    [ pose proof (endswith_both _ _ _ Hx1 Hx2 ltac:(vm_compute; lia)) as Hc
    | pose proof (endswith_both _ _ _ Hx2 Hx1 ltac:(vm_compute; lia)) as Hc ];
  vm_compute in Hc; discriminate.
Qed.

Lemma all_images_NoDup (fs : FS) (directory : string) : NoDup (all_images fs directory).
Proof.
  unfold all_images, image_extensions. cbn [map concat].
  assert (Hin : ∀ e, e ∈ image_extensions ↔
    e = ".jpg" ∨ e = ".jpeg" ∨ e = ".png" ∨ e = ".bmp").
  { intros e. unfold image_extensions. rewrite !elem_of_cons, elem_of_nil. tauto. }
  repeat (apply NoDup_app; split; [apply list_files_by_extension_NoDup|split]);
    try apply NoDup_nil_2;
    intros p Hp; rewrite ?elem_of_app, elem_of_nil; intros Hq;
    decompose [or] Hq; try done;
    match goal with
    | H1 : p ∈ list_files_by_extension fs directory ?e1,
      H2 : p ∈ list_files_by_extension fs directory ?e2 |- _ =>
        apply (extensions_disjoint fs directory p e1 e2); [apply Hin; tauto..|done|done|done]
    end.
Qed.

End Cleaning.

Section Oldest.
Import PosixPath PyMore Files Terms.

Lemma PyMore_Rleb_true (a b : R) : PyMore.Rleb a b = true ↔ (a <= b)%R.
Proof. unfold PyMore.Rleb. destruct (Rle_dec a b); split; (done || lra). Qed.

Lemma PyMore_Rleb_false (a b : R) : PyMore.Rleb a b = false ↔ (b < a)%R.
Proof. unfold PyMore.Rleb. destruct (Rle_dec a b); split; (done || lra). Qed.

Lemma mapM_getmtime (fs : FS) (files : list string) :
  Forall (λ p, is_Some (fs !! p)) files →
  mapM (getmtime fs) files = Some (map (mtime_of fs) files).
Proof.
  intros Hall. apply mapM_Some. induction Hall as [|p l [node Hp] _ IH]; simpl.
  - constructor.
  - constructor; [|exact IH]. unfold getmtime, mtime_of. by rewrite Hp.
Qed.

Lemma zip_keys {A B : Type} (f : A → B) (l : list A) :
  Forall (λ pair, fst pair = f (snd pair)) (zip (map f l) l).
Proof. induction l as [|x l IH]; simpl; constructor; done. Qed.

Lemma oldest_first_perm (fs : FS) (files : list string) : oldest_first fs files ≡ₚ files.
Proof.
  unfold oldest_first. change (map snd ?l) with (l.*2).
  rewrite sort_le_perm. rewrite snd_zip; [done|]. by rewrite length_map.
Qed.

Lemma oldest_first_sorted (fs : FS) (files : list string) :
  StronglySorted (λ p q, (mtime_of fs p <= mtime_of fs q)%R) (oldest_first fs files).
Proof.
  unfold oldest_first.
  set (le := λ a b : R * string, PyMore.Rleb (fst a) (fst b)).
  set (pairs := zip (map (mtime_of fs) files) files).
  assert (Hsorted : StronglySorted (λ a b, le a b = true) (sort_le le pairs)).
  { apply sort_le_sorted; unfold le.
    - intros a b. rewrite PyMore_Rleb_false, PyMore_Rleb_true. lra.
    - intros a b c. rewrite !PyMore_Rleb_true. lra. }
  assert (Hkeys : Forall (λ pair, fst pair = mtime_of fs (snd pair)) (sort_le le pairs)).
  { rewrite sort_le_perm. apply zip_keys. }
  induction Hsorted as [|a l Hl IH Ha]; simpl; [constructor|].
  apply Forall_cons in Hkeys as [Hka Hkl].
  constructor; [by apply IH|].
  apply Forall_map, Forall_forall. intros b Hb.
  rewrite Forall_forall in Ha, Hkl.
  specialize (Ha b Hb). specialize (Hkl b Hb). unfold le in Ha.
  apply PyMore_Rleb_true in Ha. by rewrite <-Hka, <-Hkl.
Qed.

(** What the loop removes: regular files of the list only. *)
Lemma delete_oldest_frame (fs : FS) (files : list string) (max_files deleted : Z) (q : string) :
  (delete_oldest fs files max_files deleted).2 !! q = fs !! q
  ∨ (q ∈ files ∧ regular fs q ∧ (delete_oldest fs files max_files deleted).2 !! q = None).
Proof.
  revert fs deleted. induction files as [|p rest IH]; intros fs deleted; simpl.
  - left. by destruct (max_files <? 0)%Z.
  - destruct (max_files <? _)%Z; [|by left].
    destruct (delete_file_cases fs p) as [[Hreg ->]|[Hno ->]].
    + destruct (IH (delete p fs) (deleted + 1)%Z) as [Heq|(Hin & Hreg' & Hnone)].
      * destruct (decide (q = p)) as [->|Hne].
        -- right. split; [by left|]. split; [done|]. by rewrite Heq, lookup_delete_eq.
        -- left. by rewrite Heq, lookup_delete_ne.
      * right. split; [by right|]. split; [|done].
        destruct Hreg' as (node & Hnode & Hdir). exists node. split; [|done].
        destruct (decide (q = p)) as [->|Hne]; [by rewrite lookup_delete_eq in Hnode|].
        by rewrite lookup_delete_ne in Hnode.
    + destruct (IH fs deleted) as [Heq|(Hin & Hreg' & Hnone)]; [by left|].
      right. split; [by right|]. by split.
Qed.

Lemma delete_oldest_count (fs : FS) (files : list string) (max_files deleted n : Z) :
  (delete_oldest fs files max_files deleted).1 = Some n → (deleted ≤ n)%Z.
Proof.
  revert fs deleted. induction files as [|p rest IH]; intros fs deleted; simpl.
  - destruct (max_files <? 0)%Z; [done|]. intros [= <-]. lia.
  - destruct (max_files <? _)%Z; [|intros [= <-]; lia].
    destruct (delete_file fs p) as [[] fs']; intros H%IH; lia.
Qed.

(** With room for [max_files] files, the first files of the list go, as
    many as the list has too many. *)
Lemma delete_oldest_regular (fs : FS) (files : list string) (max_files deleted : Z) :
  (0 ≤ max_files)%Z → NoDup files → Forall (regular fs) files →
  let k := length files - Z.to_nat max_files in
  (delete_oldest fs files max_files deleted).1 = Some (deleted + Z.of_nat k)%Z ∧
  ∀ q, (delete_oldest fs files max_files deleted).2 !! q
       = if decide (q ∈ take k files) then None else fs !! q.
Proof.
  intros Hmax. revert fs deleted.
  induction files as [|p rest IH]; intros fs deleted Hnodup Hreg; cbv zeta.
  - simpl. destruct (Z.ltb_spec max_files 0); [lia|]. cbn [fst snd].
    split; [f_equal; lia|]. done.
  - apply NoDup_cons in Hnodup as [Hp Hnodup].
    apply Forall_cons in Hreg as [Hregp Hreg].
    cbn [delete_oldest].
    destruct (Z.ltb_spec max_files (Z.of_nat (length (p :: rest)))) as [Hlt|Hge].
    + destruct (delete_file_cases fs p) as [[_ ->]|[Hno _]]; [|done].
      assert (Hreg' : Forall (regular (delete p fs)) rest).
      { rewrite Forall_forall in Hreg. apply Forall_forall. intros q Hq.
        destruct (Hreg q Hq) as (node & Hnode & Hdir). exists node.
        split; [|done]. rewrite lookup_delete_ne; [done|]. by intros ->. }
      destruct (IH (delete p fs) (deleted + 1)%Z Hnodup Hreg') as [Hcount Hfs].
      cbn [length] in Hlt.
      assert (Hk : length (p :: rest) - Z.to_nat max_files
                   = S (length rest - Z.to_nat max_files)) by (cbn [length]; lia).
      rewrite Hk. split; [rewrite Hcount; f_equal; lia|].
      intros q. rewrite Hfs. cbn [take].
      destruct (decide (q ∈ take (length rest - Z.to_nat max_files) rest)) as [Hin|Hout].
      * rewrite decide_True; [done|]. by right.
      * destruct (decide (q = p)) as [->|Hne].
        -- rewrite decide_True by (by left). by rewrite lookup_delete_eq.
        -- rewrite decide_False; [by rewrite lookup_delete_ne|].
           rewrite elem_of_cons. by intros [?|?].
    + assert (Hk : length (p :: rest) - Z.to_nat max_files = 0) by lia.
      rewrite Hk. cbn [fst snd]. split; [f_equal; lia|].
      intros q. by rewrite decide_False by apply not_elem_of_nil.
Qed.

(** With a negative [max_files] the loop empties the list and then fails. *)
Lemma delete_oldest_negative (fs : FS) (files : list string) (max_files deleted : Z) :
  (max_files < 0)%Z →
  (delete_oldest fs files max_files deleted).1 = None ∧
  ∀ q, q ∈ files → regular fs q →
       (delete_oldest fs files max_files deleted).2 !! q = None.
Proof.
  intros Hmax. revert fs deleted.
  induction files as [|p rest IH]; intros fs deleted; cbn [delete_oldest].
  - destruct (Z.ltb_spec max_files 0); [|lia]. split; [done|].
    by intros q ?%elem_of_nil.
  - destruct (Z.ltb_spec max_files (Z.of_nat (length (p :: rest)))); [|lia].
    destruct (delete_file_cases fs p) as [[Hreg ->]|[Hno ->]].
    + destruct (IH (delete p fs) (deleted + 1)%Z) as [Hnone Hall].
      split; [exact Hnone|]. intros q Hq Hregq.
      destruct (decide (q = p)) as [->|Hne].
      * destruct (delete_oldest_frame (delete p fs) rest max_files (deleted + 1) p)
          as [Heq|(_ & _ & Hgone)]; [|exact Hgone].
        by rewrite Heq, lookup_delete_eq.
      * apply Hall.
        -- apply elem_of_cons in Hq as [?|?]; done.
        -- destruct Hregq as (node & Hnode & Hdir). exists node.
           by rewrite lookup_delete_ne.
    + destruct (IH fs deleted) as [Hnone Hall].
      split; [exact Hnone|]. intros q Hq Hregq.
      apply Hall; [|done].
      apply elem_of_cons in Hq as [->|?]; [by destruct Hno|done].
Qed.

End Oldest.

Section CleanOldFiles.
Import PosixPath PyMore Files Terms.

Lemma clean_old_files_loop (fs : FS) (directory : string) (max_files : Z) :
  clean_old_files fs directory max_files
  = match delete_oldest fs (oldest_first fs (all_images fs directory)) max_files 0 with
    | (Some deleted_count, fs') => (deleted_count, fs')
    | (None, fs') => (0%Z, fs')
    end.
Proof.
  unfold clean_old_files. fold (all_images fs directory).
  rewrite mapM_getmtime; [done|].
  apply Forall_forall. intros p Hp%elem_of_all_images. by destruct Hp as (_ & ? & _).
Qed.

Lemma elem_of_oldest_first (fs : FS) (directory path : string) :
  path ∈ oldest_first fs (all_images fs directory) ↔ image_of fs directory path.
Proof. by rewrite oldest_first_perm, elem_of_all_images. Qed.

Lemma oldest_first_NoDup (fs : FS) (directory : string) :
  NoDup (oldest_first fs (all_images fs directory)).
Proof. rewrite oldest_first_perm. apply all_images_NoDup. Qed.

(** Whatever the limit, [clean_old_files] reports a count that is not
    negative, and every path of the file system is left as it was or is a
    regular image file of the directory that is gone afterwards. *)
Theorem clean_old_files_frame (fs : FS) (directory : string) (max_files : Z) :
  (0 ≤ (clean_old_files fs directory max_files).1)%Z ∧
  ∀ path,
    (clean_old_files fs directory max_files).2 !! path = fs !! path
    ∨ (image_of fs directory path ∧ regular fs path
       ∧ (clean_old_files fs directory max_files).2 !! path = None).
Proof.
  rewrite clean_old_files_loop.
  set (files := oldest_first fs (all_images fs directory)).
  pose proof (delete_oldest_count fs files max_files 0) as Hcount.
  pose proof (delete_oldest_frame fs files max_files 0) as Hframe.
  destruct (delete_oldest fs files max_files 0) as [[n|] fs'] eqn:Hloop;
    cbn [fst snd] in *.
  - split; [by apply Hcount|]. intros path.
    destruct (Hframe path) as [?|(Hin & ? & ?)]; [by left|right].
    split; [by apply elem_of_oldest_first|done].
  - split; [lia|]. intros path.
    destruct (Hframe path) as [?|(Hin & ? & ?)]; [by left|right].
    split; [by apply elem_of_oldest_first|done].
Qed.

(** With a limit that is not negative and a directory whose image entries
    are all regular files, [clean_old_files] splits the image files in the
    deleted and the kept ones: it keeps [max_files] of them, or all when
    there are fewer; every deleted file is at most as recent as every kept
    one; the count returned is the number of deleted files; the deleted
    paths are gone and every other path is as before. *)
Theorem clean_old_files_keeps_newest (fs : FS) (directory : string) (max_files : Z)
    (Hmax : (0 ≤ max_files)%Z)
    (Hreg : ∀ path, image_of fs directory path → regular fs path) :
  ∃ deleted kept : list string,
    NoDup (deleted ++ kept) ∧
    (∀ path, path ∈ deleted ++ kept ↔ image_of fs directory path) ∧
    length kept = min (length (deleted ++ kept)) (Z.to_nat max_files) ∧
    (∀ old new, old ∈ deleted → new ∈ kept → (mtime_of fs old <= mtime_of fs new)%R) ∧
    (clean_old_files fs directory max_files).1 = Z.of_nat (length deleted) ∧
    ∀ path, (clean_old_files fs directory max_files).2 !! path
            = if decide (path ∈ deleted) then None else fs !! path.
Proof.
  rewrite clean_old_files_loop.
  set (files := oldest_first fs (all_images fs directory)).
  assert (Hnodup : NoDup files) by apply oldest_first_NoDup.
  assert (Hall : Forall (regular fs) files).
  { apply Forall_forall. intros p Hp. by apply Hreg, elem_of_oldest_first. }
  destruct (delete_oldest_regular fs files max_files 0 Hmax Hnodup Hall) as [Hcount Hfs].
  set (k := length files - Z.to_nat max_files) in *.
  exists (take k files), (drop k files). rewrite take_drop.
  split; [done|]. split; [intros path; apply elem_of_oldest_first|].
  split; [rewrite length_drop; lia|].
  split.
  { intros old new Hold Hnew.
    pose proof (oldest_first_sorted fs (all_images fs directory)) as Hsorted.
    fold files in Hsorted. rewrite <-(take_drop k files) in Hsorted.
    by apply (StronglySorted_app_1_elem_of _ _ _ _ _ Hsorted). }
  destruct (delete_oldest fs files max_files 0) as [count fs'].
  cbn [fst snd] in *. subst count. cbn [fst snd]. split; [|done].
  rewrite length_take. lia.
Qed.

(** With a negative limit [clean_old_files] deletes every regular image
    file of the directory and reports that it deleted none. *)
Theorem clean_old_files_negative (fs : FS) (directory : string) (max_files : Z)
    (Hmax : (max_files < 0)%Z) :
  (clean_old_files fs directory max_files).1 = 0%Z ∧
  ∀ path, image_of fs directory path → regular fs path →
          (clean_old_files fs directory max_files).2 !! path = None.
Proof.
  rewrite clean_old_files_loop.
  set (files := oldest_first fs (all_images fs directory)).
  destruct (delete_oldest_negative fs files max_files 0 Hmax) as [Hnone Hgone].
  destruct (delete_oldest fs files max_files 0) as [count fs'].
  cbn [fst snd] in *. subst count. cbn [fst snd]. split; [done|].
  intros path Himg Hreg. apply Hgone; [|done]. by apply elem_of_oldest_first.
Qed.

End CleanOldFiles.

Section CleanOldFilesExamples.
Import PosixPath PyMore Files Terms.

Lemma clean_old_files_keeps_newest_witness :
  ∃ deleted kept : list string,
    NoDup (deleted ++ kept) ∧
    (∀ path, path ∈ deleted ++ kept ↔ image_of example_fs "out" path) ∧
    length kept = min (length (deleted ++ kept)) (Z.to_nat 1) ∧
    (∀ old new, old ∈ deleted → new ∈ kept →
       (mtime_of example_fs old <= mtime_of example_fs new)%R) ∧
    (clean_old_files example_fs "out" 1).1 = Z.of_nat (length deleted) ∧
    ∀ path, (clean_old_files example_fs "out" 1).2 !! path
            = if decide (path ∈ deleted) then None else example_fs !! path.
Proof.
  apply (clean_old_files_keeps_newest example_fs "out" 1); [lia|].
  intros path (_ & [node Hnode] & name & extension & Hname & -> & _).
  exists node. split; [exact Hnode|].
  unfold example_fs in Hnode.
  repeat (apply lookup_insert_Some in Hnode as [[Heq <-]|[_ Hnode]];
    [first [reflexivity
           |exfalso; rewrite (join_component "out" name Hname) in Heq;
            vm_compute in Heq; discriminate]|]).
  by rewrite lookup_empty in Hnode.
Defined.

Lemma clean_old_files_negative_witness :
  (clean_old_files example_fs "out" (-1)).1 = 0%Z ∧
  ∀ path, image_of example_fs "out" path → regular example_fs path →
          (clean_old_files example_fs "out" (-1)).2 !! path = None.
Proof. apply (clean_old_files_negative example_fs "out" (-1)). lia. Defined.

End CleanOldFilesExamples.

Section CleanTwice.
Import PosixPath PyMore Files Terms.

Lemma clean_old_files_regular (fs : FS) (directory : string) (max_files : Z) :
  (0 ≤ max_files)%Z →
  (∀ path, image_of fs directory path → regular fs path) →
  let files := oldest_first fs (all_images fs directory) in
  let k := length files - Z.to_nat max_files in
  (clean_old_files fs directory max_files).1 = Z.of_nat k ∧
  ∀ path, (clean_old_files fs directory max_files).2 !! path
          = if decide (path ∈ take k files) then None else fs !! path.
Proof.
  intros Hmax Hreg files k. rewrite clean_old_files_loop. fold files.
  assert (Hnodup : NoDup files) by apply oldest_first_NoDup.
  assert (Hall : Forall (regular fs) files).
  { apply Forall_forall. intros p Hp. by apply Hreg, elem_of_oldest_first. }
  destruct (delete_oldest_regular fs files max_files 0 Hmax Hnodup Hall) as [Hcount Hfs].
  fold k in Hcount, Hfs.
  destruct (delete_oldest fs files max_files 0) as [count fs'].
  cbn [fst snd] in *. subst count. cbn [fst snd]. split; [lia|done].
Qed.

Lemma regular_not_directory (fs : FS) (path : string) :
  regular fs path → is_directory fs path → False.
Proof. intros (n1 & H1 & Hn1) (n2 & H2 & Hn2). congruence. Qed.

Lemma image_of_after (fs fs' : FS) (directory : string) (files : list string) (k : nat) :
  NoDup files →
  (∀ path, path ∈ files ↔ image_of fs directory path) →
  (∀ path, image_of fs directory path → regular fs path) →
  (∀ path, fs' !! path = if decide (path ∈ take k files) then None else fs !! path) →
  ∀ path, image_of fs' directory path ↔ path ∈ drop k files.
Proof.
  intros Hnodup Hfiles Hreg Hfs path.
  rewrite <-(take_drop k files) in Hnodup.
  apply NoDup_app in Hnodup as (_ & Hdisjoint & _).
  assert (Hsplit : ∀ p, p ∈ files ↔ p ∈ take k files ∨ p ∈ drop k files).
  { intros p. by rewrite <-(take_drop k files) at 1; rewrite elem_of_app. }
  split.
  - intros ((node & Hdir & Hisdir) & [file Hfile] & Hname).
    rewrite Hfs in Hdir, Hfile.
    destruct (decide (directory ∈ take k files)); [done|].
    destruct (decide (path ∈ take k files)) as [|Hout]; [done|].
    assert (Himg : image_of fs directory path).
    { split; [by exists node|]. split; [by exists file|done]. }
    apply Hfiles, Hsplit in Himg as [?|?]; done.
  - intros Hkept.
    assert (Himg : image_of fs directory path) by (apply Hfiles, Hsplit; by right).
    destruct Himg as (Hdir & Hfile & Hname).
    split; [|split; [|done]].
    + destruct Hdir as (node & Hnode & Hisdir). exists node. split; [|done].
      rewrite Hfs. destruct (decide (directory ∈ take k files)) as [Hin|]; [|done].
      exfalso. apply (regular_not_directory fs directory); [|by exists node].
      apply Hreg, Hfiles, Hsplit. by left.
    + rewrite Hfs. destruct (decide (path ∈ take k files)) as [Hin|]; [|done].
      by destruct (Hdisjoint path Hin).
Qed.

(** After [clean_old_files] with a limit that is not negative, on a
    directory whose image entries are all regular files, the directory
    holds at most [max_files] image files, and cleaning again deletes
    nothing. *)
Theorem clean_old_files_bounded (fs : FS) (directory : string) (max_files : Z)
    (Hmax : (0 ≤ max_files)%Z)
    (Hreg : ∀ path, image_of fs directory path → regular fs path) :
  let fs' := (clean_old_files fs directory max_files).2 in
  (Z.of_nat (length (all_images fs' directory)) ≤ max_files)%Z ∧
  clean_old_files fs' directory max_files = (0%Z, fs').
Proof.
  intros fs'.
  destruct (clean_old_files_regular fs directory max_files Hmax Hreg) as [_ Hfs].
  cbv zeta in Hfs. fold fs' in Hfs.
  set (files := oldest_first fs (all_images fs directory)) in *.
  set (k := length files - Z.to_nat max_files) in *.
  assert (Hafter : ∀ path, image_of fs' directory path ↔ path ∈ drop k files).
  { apply (image_of_after fs fs' directory files k); try done.
    - apply oldest_first_NoDup.
    - intros path. apply elem_of_oldest_first. }
  assert (Hperm : all_images fs' directory ≡ₚ drop k files).
  { apply NoDup_Permutation.
    - apply all_images_NoDup.
    - pose proof (oldest_first_NoDup fs directory) as Hnodup. fold files in Hnodup.
      rewrite <-(take_drop k files) in Hnodup. by apply NoDup_app in Hnodup as (_ & _ & ?).
    - intros path. by rewrite elem_of_all_images. }
  assert (Hlen : (Z.of_nat (length (all_images fs' directory)) ≤ max_files)%Z).
  { rewrite Hperm, length_drop. lia. }
  split; [exact Hlen|].
  assert (Hreg' : ∀ path, image_of fs' directory path → regular fs' path).
  { intros path Himg. pose proof Himg as Hkept%Hafter.
    assert (Hin : path ∈ files).
    { rewrite <-(take_drop k files). apply elem_of_app. by right. }
    destruct (Hreg path) as (node & Hnode & Hfile); [by apply elem_of_oldest_first|].
    exists node. split; [|done]. rewrite Hfs.
    destruct Himg as (_ & [file Hsome] & _). rewrite Hfs in Hsome.
    by destruct (decide (path ∈ take k files)). }
  destruct (clean_old_files_regular fs' directory max_files Hmax Hreg') as [Hcount Hsame].
  cbv zeta in Hcount, Hsame.
  assert (Hk : length (oldest_first fs' (all_images fs' directory)) - Z.to_nat max_files = 0).
  { rewrite oldest_first_perm. lia. }
  rewrite Hk in Hcount, Hsame.
  destruct (clean_old_files fs' directory max_files) as [count fs''].
  cbn [fst snd] in *. f_equal; [done|].
  apply map_eq. intros path. rewrite Hsame.
  by rewrite decide_False by (rewrite take_0; apply not_elem_of_nil).
Qed.

Lemma clean_old_files_bounded_witness :
  (Z.of_nat (length (all_images (clean_old_files example_fs "out" 1).2 "out")) ≤ 1)%Z ∧
  clean_old_files (clean_old_files example_fs "out" 1).2 "out" 1
  = (0%Z, (clean_old_files example_fs "out" 1).2).
Proof.
  apply (clean_old_files_bounded example_fs "out" 1); [lia|].
  intros path (_ & [node Hnode] & name & extension & Hname & -> & _).
  exists node. split; [exact Hnode|].
  unfold example_fs in Hnode.
  repeat (apply lookup_insert_Some in Hnode as [[Heq <-]|[_ Hnode]];
    [first [reflexivity
           |exfalso; rewrite (join_component "out" name Hname) in Heq;
            vm_compute in Heq; discriminate]|]).
  by rewrite lookup_empty in Hnode.
Defined.

End CleanTwice.
